(** * NICAR 2019 schedule scraper: a shallow embedding of [scripts/scrape.py]

    The script fetches one HTML page, repairs its encoding, extracts one
    record per session, and sorts the records.  This file embeds the
    functions of the script as Rocq functions and proves properties of them.

    Conventions of the embedding:
    - a Python [str] is the list of its code points ([Py.str], a [list Z]);
      a [bytes] object is the list of its byte values ([Py.bytes]);
    - a Python [int] is a [Z];
    - a Python [float] is its IEEE-754 binary64 value, a [spec_float] of the
      standard library's [SpecFloat] at precision 53 and [emax] 1024;
    - code that can raise returns a [Py.result]: [Ok v] or [Raise e];
    - the builtins and library calls the script uses ([str.split], [int],
      [str.format], [re.sub], [sorted], [round], ...) are modelled in module
      [Py] after the behaviour of CPython 3 (3.6 or later);
    - the lxml element API is an interface, the class [Element]. *)

From Stdlib Require Import String Ascii.
From Stdlib Require Import ZArith List Lia Bool Permutation Sorted.
From Stdlib Require Import SpecFloat.
Import ListNotations.
Local Open Scope Z_scope.

(* ================================================================== *)
(** * Part I: definitions *)
(* ================================================================== *)

(** ** The Python builtins the script relies on *)

Module Py.

Definition str := list Z.
Definition bytes := list Z.

(** A Rocq string literal (ASCII only in this file) as a Python [str]. *)
Definition lit (s : string) : str :=
  map (fun a => Z.of_N (N_of_ascii a)) (list_ascii_of_string s).

(** The reasons for which the script's [ValueError]s are raised. *)
Inductive value_error :=
| CantParse (ts : str)          (* raise ValueError("Can't parse " + ts) *)
| NotEnoughValues (expected got : nat)  (* tuple unpacking, too few items *)
| TooManyValues (expected : nat)        (* tuple unpacking, too many items *)
| InvalidLiteral (s : str)              (* int(s) *)
| NotAnElement.                         (* cssselect on a node that is no element *)

Inductive exn :=
| ValueError (why : value_error)
| IndexError
| KeyError (key : str)
| TypeError
| AttributeError
| UnicodeDecodeError
| UnicodeEncodeError
| OverflowError
| ZeroDivisionError
| ParserError.

Inductive result (A : Type) :=
| Ok (a : A)
| Raise (e : exn).
Arguments Ok {A} a.
Arguments Raise {A} e.

Definition bind {A B} (c : result A) (k : A -> result B) : result B :=
  match c with
  | Ok a => k a
  | Raise e => Raise e
  end.

Notation "x <- c ;; k" := (bind c (fun x => k))
  (at level 61, c at next level, right associativity).
Notation "' pat <- c ;; k" := (bind c (fun x => match x with pat => k end))
  (at level 61, pat pattern, c at next level, right associativity).

(** [list(map(f, xs))]: the calls are made left to right and the first
    exception ends the evaluation. *)
Fixpoint mapM {A B} (f : A -> result B) (l : list A) : result (list B) :=
  match l with
  | [] => Ok []
  | a :: l' => b <- f a ;; bs <- mapM f l' ;; Ok (b :: bs)
  end.

(** The [ValueError] of unpacking [got] items into [expected] targets. *)
Definition unpack_error (expected got : nat) : exn :=
  if (got <? expected)%nat then ValueError (NotEnoughValues expected got)
  else ValueError (TooManyValues expected).

(** *** Strings *)

Fixpoint str_eqb (a b : str) : bool :=
  match a, b with
  | [], [] => true
  | x :: a', y :: b' => (x =? y) && str_eqb a' b'
  | _, _ => false
  end.

(** [a < b] on [str]: lexicographic on code points. *)
Fixpoint str_ltb (a b : str) : bool :=
  match a, b with
  | _, [] => false
  | [], _ :: _ => true
  | x :: a', y :: b' => (x <? y) || ((x =? y) && str_ltb a' b')
  end.

Fixpoint startswith (s p : str) {struct p} : bool :=
  match p, s with
  | [], _ => true
  | x :: p', y :: s' => (x =? y) && startswith s' p'
  | _ :: _, [] => false
  end.

(** [s.split(sep)] for a non-empty [sep] (the script only passes literals):
    the leftmost occurrences of [sep], not overlapping.  [skip] counts the
    characters of an occurrence already found that are still to be passed
    over. *)
Fixpoint split_scan (sep : str) (skip : nat) (s : str) : list str :=
  match s with
  | [] => [[]]
  | c :: s' =>
      match skip with
      | S k => split_scan sep k s'
      | O =>
          if startswith s sep then [] :: split_scan sep (length sep - 1) s'
          else match split_scan sep O s' with
               | piece :: pieces => (c :: piece) :: pieces
               | [] => [[c]]
               end
      end
  end.

Definition split (s sep : str) : list str := split_scan sep 0 s.

(** [s.count(sub)] for a non-empty [sub]: occurrences that do not overlap. *)
Fixpoint count_scan (sub : str) (skip : nat) (s : str) : nat :=
  match s with
  | [] => O
  | _ :: s' =>
      match skip with
      | S k => count_scan sub k s'
      | O =>
          if startswith s sub then S (count_scan sub (length sub - 1) s')
          else count_scan sub O s'
      end
  end.

Definition count (s sub : str) : nat := count_scan sub 0 s.

(** [sep.join(pieces)] *)
Fixpoint join (sep : str) (pieces : list str) : str :=
  match pieces with
  | [] => []
  | [p] => p
  | p :: rest => p ++ sep ++ join sep rest
  end.

(** [Py_UNICODE_ISSPACE]: the characters that [str.strip()] removes and
    that [\s] matches in a [str] pattern. *)
Definition isspace (c : Z) : bool :=
  ((9 <=? c) && (c <=? 13)) || ((28 <=? c) && (c <=? 32))
  || (c =? 0x85) || (c =? 0xA0) || (c =? 0x1680)
  || ((0x2000 <=? c) && (c <=? 0x200A))
  || (c =? 0x2028) || (c =? 0x2029) || (c =? 0x202F) || (c =? 0x205F)
  || (c =? 0x3000).

Fixpoint lstrip (s : str) : str :=
  match s with
  | c :: s' => if isspace c then lstrip s' else s
  | [] => []
  end.

Definition rstrip (s : str) : str := rev (lstrip (rev s)).

Definition strip (s : str) : str := rstrip (lstrip s).

(** *** [int(s)]

    The table of decimal digits outside ASCII ([Py_UNICODE_TODECIMAL])
    belongs to the Unicode database of the interpreter; it is a parameter.
    The bound that later releases of the interpreter put on the number of
    digits of a literal is left out. *)
Class UnicodeData := { to_decimal : Z -> option Z }.

Section Int.
Context {U : UnicodeData}.

(** [_PyUnicode_TransformDecimalAndSpaceToASCII], one character: ASCII is
    kept, any other white space becomes a blank, any other decimal digit
    its ASCII digit, and anything else a question mark (which no integer
    literal contains). *)
Definition to_ascii (c : Z) : Z :=
  if c <? 127 then c
  else if isspace c then 32
  else match to_decimal c with
       | Some d => if (0 <=? d) && (d <=? 9) then 48 + d else 63
       | None => 63
       end.

(** [Py_ISSPACE], the white space [PyLong_FromString] skips. *)
Definition is_c_space (c : Z) : bool :=
  ((9 <=? c) && (c <=? 13)) || (c =? 32).

Definition is_digit (c : Z) : bool := (48 <=? c) && (c <=? 57).

Fixpoint skip_c_space (s : str) : str :=
  match s with
  | c :: s' => if is_c_space c then skip_c_space s' else s
  | [] => []
  end.

(** The digits of a base-10 literal, with single underscores allowed between
    digits.  [acc] is the value read so far and [prev_us] tells whether the
    previous character was an underscore.  Returns the value and the rest
    of the text, or [None] for a doubled or trailing underscore. *)
Fixpoint scan_digits (acc : Z) (prev_us : bool) (s : str) : option (Z * str) :=
  match s with
  | c :: s' =>
      if is_digit c then scan_digits (10 * acc + (c - 48)) false s'
      else if c =? 95 then
        if prev_us then None else scan_digits acc true s'
      else if prev_us then None else Some (acc, s)
  | [] => if prev_us then None else Some (acc, [])
  end.

Definition int_magnitude (s : str) : option Z :=
  match s with
  | c :: _ =>
      if is_digit c then
        match scan_digits 0 false s with
        | Some (v, rest) =>
            match skip_c_space rest with
            | [] => Some v
            | _ :: _ => None
            end
        | None => None
        end
      else None
  | [] => None
  end.

Definition int (s : str) : result Z :=
  let body := skip_c_space (map to_ascii s) in
  let parsed :=
    match body with
    | c :: digits =>
        if c =? 43 then int_magnitude digits
        else if c =? 45 then option_map Z.opp (int_magnitude digits)
        else int_magnitude body
    | [] => None
    end in
  match parsed with
  | Some v => Ok v
  | None => Raise (ValueError (InvalidLiteral s))
  end.

End Int.

(** *** ["{:02d}".format(z)] *)

(** The decimal digits of [n >= 0], most significant first.  [fuel] bounds
    the number of digits. *)
Fixpoint digits_fuel (fuel : nat) (n : Z) (acc : str) : str :=
  match fuel with
  | O => acc
  | S f =>
      let acc' := (48 + n mod 10) :: acc in
      if n <? 10 then acc' else digits_fuel f (n / 10) acc'
  end.

Definition decimal (n : Z) : str :=
  digits_fuel (S (Z.to_nat (Z.log2 n))) n [].

(** Format code [02d]: zero fill to width 2, the sign counted in the width. *)
Definition format_02d (z : Z) : str :=
  if z <? 0 then
    let d := decimal (- z) in 45 :: repeat 48 (1 - length d) ++ d
  else
    let d := decimal z in repeat 48 (2 - length d) ++ d.


(** *** Slices *)

(** A slice bound, brought into [0 .. n] as [l[start:stop]] does. *)
Definition slice_index (n i : Z) : Z :=
  if i <? 0 then Z.max (i + n) 0 else Z.min i n.

(** [l[start:stop]]; a slice never raises. *)
Definition slice {A} (l : list A) (start stop : Z) : list A :=
  let n := Z.of_nat (length l) in
  let a := slice_index n start in
  let b := slice_index n stop in
  firstn (Z.to_nat (b - a)) (skipn (Z.to_nat a) l).

(** [l[0]] *)
Definition first_item {A} (l : list A) : result A :=
  match l with
  | x :: _ => Ok x
  | [] => Raise IndexError
  end.

(** *** Floats *)

(** An [int] as an exact (not normalised) binary number. *)
Definition exact (z : Z) : spec_float :=
  match z with
  | Z0 => S754_zero false
  | Zpos p => S754_finite false p 0
  | Zneg p => S754_finite true p 0
  end.

Definition signed (s : bool) (n : Z) : spec_float :=
  match n with
  | Zpos p => S754_finite s p 0
  | _ => S754_zero s
  end.

(** The binary64 number nearest to [x / y] (ties to even). *)
Definition nearest_quotient (x y : spec_float) : spec_float := SFdiv 53 1024 x y.

(** [a / b] on two [int]s: the correctly rounded quotient. *)
Definition true_div (a b : Z) : result spec_float :=
  if b =? 0 then Raise ZeroDivisionError
  else match nearest_quotient (exact a) (exact b) with
       | S754_infinity _ => Raise OverflowError
       | q => Ok q
       end.

(** The integer nearest to [num / den] for [den > 0], ties to even. *)
Definition round_half_even (num den : Z) : Z :=
  let q := num / den in
  match 2 * (num mod den) ?= den with
  | Lt => q
  | Gt => q + 1
  | Eq => if Z.even q then q else q + 1
  end.

(** The integer nearest to [num / 2^k] for [k >= 0], ties to even. *)
Definition round_half_even_pow2 (num k : Z) : Z :=
  let q := Z.shiftr num k in
  let r := num - Z.shiftl q k in
  match 2 * r ?= Z.shiftl 1 k with
  | Lt => q
  | Gt => q + 1
  | Eq => if Z.even q then q else q + 1
  end.

(** [|x| * 1000] rounded to an integer, for finite [x = m * 2^e]. *)
Definition thousandths (m : positive) (e : Z) : Z :=
  if 0 <=? e then Z.shiftl (Zpos m * 1000) e
  else round_half_even_pow2 (Zpos m * 1000) (- e).

(** [round(x, 3)] on a [float]: the value is rounded to three decimals on
    its exact binary expansion, and the decimal obtained is converted back
    to the nearest binary64 number. *)
Definition round3 (x : spec_float) : result spec_float :=
  match x with
  | S754_finite s m e =>
      match nearest_quotient (signed s (thousandths m e)) (exact 1000) with
      | S754_infinity _ => Raise OverflowError
      | r => Ok r
      end
  | _ => Ok x
  end.

(** *** [sorted(l, key=key)]

    [list.sort] is stable and uses only [<] on the keys; an exception raised
    by a comparison ends the sort.  It is modelled by a stable insertion
    sort with the same protocol: the element inserted precedes, in the
    input, every element of the list it is inserted in.  Which comparisons
    are made depends on the algorithm, the result of a sort that raises
    nothing does not. *)
Section Sorted.
Context {A K : Type} (key : A -> K) (lt : K -> K -> result bool).

Fixpoint insert (x : A) (l : list A) : result (list A) :=
  match l with
  | [] => Ok [x]
  | y :: l' =>
      b <- lt (key y) (key x) ;;
      if b : bool then r <- insert x l' ;; Ok (y :: r) else Ok (x :: l)
  end.

Fixpoint sorted (l : list A) : result (list A) :=
  match l with
  | [] => Ok []
  | x :: l' => s <- sorted l' ;; insert x s
  end.

End Sorted.

(** *** Codecs *)

Definition in_range (lo hi x : Z) : bool := (lo <=? x) && (x <=? hi).

(** [b.decode("utf-8")], strict.  [need] is the number of continuation
    bytes still expected, [lo .. hi] the range allowed for the next one and
    [acc] the bits of the code point read so far. *)
Fixpoint utf8_scan (need : nat) (lo hi acc : Z) (b : bytes) : result str :=
  match b with
  | [] =>
      match need with
      | O => Ok []
      | S _ => Raise UnicodeDecodeError
      end
  | x :: b' =>
      match need with
      | O =>
          if in_range 0x00 0x7F x then
            s <- utf8_scan 0 0x80 0xBF 0 b' ;; Ok (x :: s)
          else if in_range 0xC2 0xDF x then
            utf8_scan 1 0x80 0xBF (Z.land x 0x1F) b'
          else if x =? 0xE0 then utf8_scan 2 0xA0 0xBF (Z.land x 0x0F) b'
          else if x =? 0xED then utf8_scan 2 0x80 0x9F (Z.land x 0x0F) b'
          else if in_range 0xE1 0xEF x then
            utf8_scan 2 0x80 0xBF (Z.land x 0x0F) b'
          else if x =? 0xF0 then utf8_scan 3 0x90 0xBF (Z.land x 0x07) b'
          else if x =? 0xF4 then utf8_scan 3 0x80 0x8F (Z.land x 0x07) b'
          else if in_range 0xF1 0xF3 x then
            utf8_scan 3 0x80 0xBF (Z.land x 0x07) b'
          else Raise UnicodeDecodeError
      | S k =>
          if in_range lo hi x then
            let acc' := Z.lor (Z.shiftl acc 6) (Z.land x 0x3F) in
            match k with
            | O => s <- utf8_scan 0 0x80 0xBF 0 b' ;; Ok (acc' :: s)
            | S _ => utf8_scan k 0x80 0xBF acc' b'
            end
          else Raise UnicodeDecodeError
      end
  end.

Definition utf8_decode (b : bytes) : result str := utf8_scan 0 0x80 0xBF 0 b.

(** [s.encode("latin-1")] *)
Definition latin1_encode (s : str) : result bytes :=
  mapM (fun c => if in_range 0 255 c then Ok c else Raise UnicodeEncodeError) s.

End Py.

Import Py.

(** ** The lxml element interface, as far as the script uses it *)

(** The nodes of a parsed page are its elements and, beside them, its
    comments and processing instructions. *)
Class Element (E : Type) := {
  (** whether the node is an element *)
  is_element : E -> bool;
  (** the elements below an element that match a selector, in document
      order *)
  matching : E -> str -> list E;
  (** [el.text_content()] *)
  text_content : E -> str;
  (** [el.attrib.get(name)] *)
  attrib : E -> str -> option str;
  (** [list(el)]: the child nodes, the comments and processing instructions
      among them *)
  children : E -> list E;
  (** [lxml.html.fromstring(html)] *)
  fromstring : str -> result E
}.

(** [el.cssselect(sel)]: the selector is evaluated on an element; on any
    other node lxml raises [ValueError]. *)
Definition cssselect {E : Type} {EL : Element E} (el : E) (sel : str)
  : result (list E) :=
  if is_element el then Ok (matching el sel)
  else Raise (ValueError NotAnElement).

(** ** Tuples of record fields and their comparison *)

(** A field value is a [str] or [None]. *)
Definition value := option str.

Inductive cmp_op := op_lt | op_le.

Definition value_eqb (a b : value) : bool :=
  match a, b with
  | Some x, Some y => str_eqb x y
  | None, None => true
  | _, _ => false
  end.

(** [a < b] and [a <= b] on field values; [None] supports neither. *)
Definition value_cmp (op : cmp_op) (a b : value) : result bool :=
  match a, b with
  | Some x, Some y =>
      Ok (match op with
          | op_lt => str_ltb x y
          | op_le => str_ltb x y || str_eqb x y
          end)
  | _, _ => Raise TypeError
  end.

(** Comparison of two tuples: the first pair of items that are not [==]
    decides; without such a pair the lengths decide. *)
Fixpoint tuple_cmp (op : cmp_op) (a b : list value) : result bool :=
  match a, b with
  | x :: a', y :: b' =>
      if value_eqb x y then tuple_cmp op a' b' else value_cmp op x y
  | [], [] => Ok (match op with op_lt => false | op_le => true end)
  | [], _ :: _ => Ok true
  | _ :: _, [] => Ok false
  end.

(** ** The script *)

Definition DATES : list str := [
  lit "2019-03-06";
  lit "2019-03-07";
  lit "2019-03-08";
  lit "2019-03-09";
  lit "2019-03-10"
].

(** The record [parse_session] returns, an [OrderedDict] with these keys. *)
Record session := {
  title : value;
  type : value;
  description : value;
  speakers : value;
  date : str;
  time_start : str;
  time_end : str;
  length_in_hours : spec_float;
  room : value;
  event_id : str;
  event_url : str
}.

(** [itemgetter("date", "time_start", "time_end", "title")] *)
Definition sort_key (r : session) : list value :=
  [Some (date r); Some (time_start r); Some (time_end r); title r].

(** [a, b = map(f, l)]: [map] is lazy, so [f] runs on an item when the
    unpacking asks for it, and on a third item before the count is found
    wrong. *)
Definition unpack2_map {A B} (f : A -> result B) (l : list A) : result (B * B) :=
  match l with
  | [] => Raise (ValueError (NotEnoughValues 2 0))
  | [a] => _ <- f a ;; Raise (ValueError (NotEnoughValues 2 1))
  | [a; b] => x <- f a ;; y <- f b ;; Ok (x, y)
  | a :: b :: c :: _ =>
      _ <- f a ;; _ <- f b ;; _ <- f c ;; Raise (ValueError (TooManyValues 2))
  end.

(** A match of [^Speakers?:\s+] at the start of [s]: the text after it.
    The optional [s] is taken when present (without it the next character
    would have to be the colon), and [\s+] takes the whole run of white
    space. *)
Definition match_speaker_label (s : str) : option str :=
  if startswith s (lit "Speaker") then
    let r := skipn 7 s in
    let r := match r with
             | c :: r' => if c =? 115 then r' else r
             | [] => r
             end in
    match r with
    | c :: w :: r' => if (c =? 58) && isspace w then Some (lstrip r') else None
    | _ => None
    end
  else None.

(** [re.sub(r"^Speakers?:\s+", "", s)] *)
Definition sub_speaker_label (s : str) : str :=
  match match_speaker_label s with
  | Some rest => rest
  | None => s
  end.

(** The pattern [[\xc2-\xf4][\x80-\xbf]+] of [fix_encoding]. *)
Definition is_lead (c : Z) : bool := in_range 0xC2 0xF4 c.
Definition is_trail (c : Z) : bool := in_range 0x80 0xBF c.

(** The longest run of trail characters at the start of [s]. *)
Fixpoint trail_run (s : str) : str :=
  match s with
  | c :: s' => if is_trail c then c :: trail_run s' else []
  | [] => []
  end.

(** [fix = lambda m: m.group(0).encode("latin-1").decode("utf-8")] *)
Definition fix_ (m : str) : result str :=
  b <- latin1_encode m ;; utf8_decode b.

(** [re.sub(pat, fix, text)]: the matches are the leftmost ones, each as
    long as possible, and do not overlap; [skip] counts the characters of
    the current match still to be passed over. *)
Fixpoint sub_fix (skip : nat) (text : str) : result str :=
  match text with
  | [] => Ok []
  | c :: text' =>
      match skip with
      | S k => sub_fix k text'
      | O =>
          let run := trail_run text' in
          if is_lead c && negb (length run =? 0)%nat then
            fixed <- fix_ (c :: run) ;;
            rest <- sub_fix (length run) text' ;;
            Ok (fixed ++ rest)
          else
            rest <- sub_fix O text' ;; Ok (c :: rest)
      end
  end.

(** [fix_encoding(string)] *)
Definition fix_encoding (string : bytes) : result str :=
  text <- utf8_decode string ;; sub_fix 0 text.

Section Script.
Context {U : UnicodeData}.

(** [convert_time(ts)] *)
Definition convert_time (ts : str) : result str :=
  match split ts (lit " ") with
  | [nums; suffix] =>
      is_pm <- (if str_eqb suffix (lit "pm") then Ok true
                else if str_eqb suffix (lit "am") then Ok false
                else Raise (ValueError (CantParse ts))) ;;
      let nums := if (count nums (lit ":") =? 0)%nat
                  then nums ++ lit ":00" else nums in
      parts <- mapM int (split nums (lit ":")) ;;
      match parts with
      | [hours; minutes] =>
          let hours := hours + Z.b2z (is_pm && negb (hours =? 12)) * 12 in
          Ok (format_02d hours ++ lit ":" ++ format_02d minutes)
      | _ => Raise (unpack_error 2 (length parts))
      end
  | parts => Raise (unpack_error 2 (length parts))
  end.

(** [calculate_length(start, end)] *)
Definition calculate_length (start end_ : str) : result spec_float :=
  s <- mapM int (split start (lit ":")) ;;
  match s with
  | [s_hours; s_mins] =>
      e <- mapM int (split end_ (lit ":")) ;;
      match e with
      | [e_hours; e_mins] =>
          true_div (((e_hours * 60) + e_mins) - ((s_hours * 60) + s_mins)) 60
      | _ => Raise (unpack_error 2 (length e))
      end
  | _ => Raise (unpack_error 2 (length s))
  end.

Context {E : Type} {EL : Element E}.

(** [get_text(sel)], the closure of [parse_session] over [el]; the
    separator is two line feeds. *)
Definition get_text (el : E) (sel : str) : result value :=
  matches <- cssselect el sel ;;
  let stripped := map (fun m => strip (text_content m)) matches in
  Ok match join [10; 10] (filter (fun t => negb (length t =? 0)%nat) stripped) with
     | [] => None
     | joined => Some joined
     end.

(** [parse_session(el, date)] *)
Definition parse_session (el : E) (date : str) : result session :=
  speakers_raw <- get_text el (lit ".event-speakers") ;;
  let s_speakers := option_map sub_speaker_label speakers_raw in
  s_time <- get_text el (lit ".event-meta p") ;;
  s_time <- match s_time with
            | Some t => Ok t
            | None => Raise AttributeError
            end ;;
  ' (time_start, time_end) <- unpack2_map convert_time (split s_time (lit " - ")) ;;
  links <- cssselect el (lit ".event-title a") ;;
  link <- first_item links ;;
  s_href <- match attrib link (lit "href") with
            | Some h => Ok h
            | None => Raise (KeyError (lit "href"))
            end ;;
  let s_id := join (lit "/") (slice (split s_href (lit "/")) (-3) (-1)) in
  s_title <- get_text el (lit ".event-title") ;;
  s_type <- get_text el (lit ".event-type") ;;
  s_description <- get_text el (lit ".event-content p:not(.event-speakers)") ;;
  length <- calculate_length time_start time_end ;;
  length <- round3 length ;;
  s_room <- get_text el (lit ".event-meta h4") ;;
  Ok {| title := s_title;
        type := s_type;
        description := s_description;
        speakers := s_speakers;
        date := date;
        time_start := time_start;
        time_end := time_end;
        length_in_hours := length;
        room := s_room;
        event_id := s_id;
        event_url := lit "https://ire.org" ++ s_href |}.

(** [parse_day(el, date)] *)
Definition parse_day (el : E) (date : str) : result (list session) :=
  let session_els := children el in
  mapM (fun s => parse_session s date) session_els.

(** The sessions of a parsed page, before they are sorted. *)
Definition extract_sessions (dom : E) : result (list session) :=
  day_els <- cssselect dom (lit "ul.schedule-list.pane") ;;
  let days_zipped := combine day_els DATES in
  sessions_nested <- mapM (fun '(el, date) => parse_day el date) days_zipped ;;
  Ok (concat sessions_nested).

(** [get_sessions()], as a function of the body of the HTTP response. *)
Definition get_sessions (content : bytes) : result (list session) :=
  html <- fix_encoding content ;;
  dom <- fromstring html ;;
  sessions <- extract_sessions dom ;;
  sorted sort_key (tuple_cmp op_lt) sessions.

End Script.

(** ** Concrete pages

    An element given by tables: its text, its attributes, what each
    selector finds below it, and its children; or a comment.  [parse]
    stands for the HTML parser. *)
#[warnings="-register-all"]
Inductive node :=
| Node (text : str) (attrs : list (str * str))
       (found : list (str * list node)) (kids : list node)
| Comment (text : str).

Fixpoint lookup {A} (k : str) (table : list (str * A)) : option A :=
  match table with
  | (k', v) :: table' => if str_eqb k k' then Some v else lookup k table'
  | [] => None
  end.

Definition node_element (parse : str -> result node) : Element node := {|
  is_element := fun n =>
    match n with
    | Node _ _ _ _ => true
    | Comment _ => false
    end;
  matching := fun n sel =>
    match n with
    | Node _ _ found _ =>
        match lookup sel found with
        | Some l => l
        | None => []
        end
    | Comment _ => []
    end;
  text_content := fun n =>
    match n with
    | Node text _ _ _ => text
    | Comment text => text
    end;
  attrib := fun n name =>
    match n with
    | Node _ attrs _ _ => lookup name attrs
    | Comment _ => None
    end;
  children := fun n =>
    match n with
    | Node _ _ _ kids => kids
    | Comment _ => []
    end;
  fromstring := parse
|}.

(** An element with text only, and a link. *)
Definition text_node (t : str) : node := Node t [] [] [].
Definition link_node (href : str) : node :=
  Node [] [(lit "href", href)] [] [].

(** A session element with a title, a time window, a link and speakers.
    It stands for a list item with a heading of class [event-title] that
    holds the link and the title text, a block of class [event-meta] with
    the time in a paragraph, and one paragraph of class [event-speakers]
    for each text of [speakers]. *)
Definition session_node (title time href : str) (speakers : list str) : node :=
  Node [] []
    [(lit ".event-title", [text_node title]);
     (lit ".event-meta p", [text_node time]);
     (lit ".event-title a", [link_node href]);
     (lit ".event-speakers", map text_node speakers)]
    [].

(** A Unicode database without decimal digits beyond ASCII. *)
Definition ascii_digits : UnicodeData := {| to_decimal := fun _ => None |}.

(** ** Auxiliary definitions used in the statements *)

(** The value of a string of decimal digits. *)
Definition digit_step (a c : Z) : Z := 10 * a + (c - 48).
Definition digits_value (ds : str) : Z := fold_left digit_step ds 0.
Definition all_digits (ds : str) : Prop := Forall (fun c => is_digit c = true) ds.


(** The text [convert_time] produces for hour [h] and minute [m], and the
    minutes since midnight it stands for. *)
Definition hhmm (h m : Z) : str := format_02d h ++ lit ":" ++ format_02d m.
Definition minutes (h m : Z) : Z := h * 60 + m.

(** The float [x] is exactly the fraction [num / den], with [den > 0]. *)
Definition is_fraction (x : spec_float) (num den : Z) : Prop :=
  0 < den /\
  match x with
  | S754_zero _ => num = 0
  | S754_finite s m e =>
      let v := if s then Zneg m else Zpos m in
      if 0 <=? e then v * 2 ^ e * den = num else v * den = num * 2 ^ (- e)
  | _ => False
  end.

(** The floats [1.5] and [-1.0]. *)
Definition one_and_a_half : spec_float := S754_finite false 6755399441055744 (-52).
Definition minus_one : spec_float := S754_finite true 4503599627370496 (-52).

(** Two floats with the same sign, mantissa and exponent. *)
Definition float_same (x y : spec_float) : bool :=
  match x, y with
  | S754_zero s, S754_zero s' => Bool.eqb s s'
  | S754_infinity s, S754_infinity s' => Bool.eqb s s'
  | S754_nan, S754_nan => true
  | S754_finite s m e, S754_finite s' m' e' =>
      Bool.eqb s s' && (m =? m')%positive && (e =? e')
  | _, _ => false
  end.

(** [x < 0.0] *)
Definition float_negative (x : spec_float) : bool := SFltb x (S754_zero false).

(** [x >= 0] on floats; it is false of a NaN. *)
Definition float_nonnegative (x : spec_float) : bool := SFleb (S754_zero false) x.

(** The binary64 number nearest to the decimal with three places nearest
    to the exact quotient [d / 60]. *)
Definition thousandths_of_minutes (d : Z) : Z := round_half_even (1000 * d) 60.
Definition hours_rounded (d : Z) : spec_float :=
  nearest_quotient (exact (thousandths_of_minutes d)) (exact 1000).

(** [f] holds of the [n] integers from [lo] on. *)
Fixpoint all_from (f : Z -> bool) (lo : Z) (n : positive) : bool :=
  match n with
  | xH => f lo
  | xO p => all_from f lo p && all_from f (lo + Zpos p) p
  | xI p => f lo && all_from f (lo + 1) p && all_from f (lo + 1 + Zpos p) p
  end.

(** What [calculate_length] and [round] give for a difference of [d]
    minutes, checked against the exact quotient: the thousandths that
    [round] reads off the float are those of [d / 60], and the result is
    negative exactly when [d] is. *)
Definition length_check (d : Z) : bool :=
  match true_div d 60 with
  | Ok q =>
      match q with
      | S754_finite s m e =>
          float_same (signed s (thousandths m e)) (exact (thousandths_of_minutes d))
      | S754_zero s => (d =? 0) && negb s
      | _ => false
      end &&
      match round3 q with
      | Ok r => Bool.eqb (float_negative r) (d <? 0)
      | Raise _ => false
      end
  | Raise _ => false
  end.

Definition two_digit_check (h : Z) : bool :=
  str_eqb (format_02d h) [48 + h / 10; 48 + h mod 10].

(** The table-driven elements with a parser that fails, and with a parser
    that returns the page [dom]. *)
Definition no_page : Element node := node_element (fun _ => Raise ParserError).
Definition one_page (dom : node) : Element node := node_element (fun _ => Ok dom).

(** A session announced from 10 am to 9 am. *)
Definition backwards_session : node :=
  session_node (lit "Late") (lit "10 am - 9 am") (lit "/event/1/2/") [].

(** A session whose link has two path segments only. *)
Definition short_href_session : node :=
  session_node (lit "Short") (lit "9 am - 10 am") (lit "a/b") [].

(** A well-formed session. *)
Definition plain_session : node :=
  session_node (lit "Opening") (lit "9 am - 10:20 am")
               (lit "/events/conference/3433/4109/") [lit "Speaker: Ann"].

(** The labels that [parse_session] removes from the speakers text, and a
    text that does not begin with white space. *)
Definition is_label (l : str) : Prop := l = lit "Speaker:" \/ l = lit "Speakers:".
Definition all_space (ws : str) : Prop := Forall (fun c => isspace c = true) ws.
Definition no_leading_space (s : str) : Prop :=
  match s with
  | c :: _ => isspace c = false
  | [] => True
  end.

(** The removal of a label as the specification words it: a leading
    ["Speaker: "] or ["Speakers: "], with its single blank. *)
Definition strip_label_literal (raw : str) : str :=
  if startswith raw (lit "Speaker: ") then skipn 9 raw
  else if startswith raw (lit "Speakers: ") then skipn 10 raw
  else raw.

(** A session whose speakers text has two blanks after the label. *)
Definition two_blanks_session : node :=
  session_node (lit "Panel") (lit "2 pm - 3 pm") (lit "/event/7/8/")
               [lit "Speakers:  Ann, Bob"].

(** A text that the pattern of [fix_encoding] matches in full, and a text
    with a part that it matches. *)
Definition matches_pattern (m : str) : Prop :=
  exists c run,
    m = c :: run /\ is_lead c = true /\ run <> [] /\
    Forall (fun t => is_trail t = true) run.

Definition has_match (text : str) : Prop :=
  exists pre m post, text = pre ++ m ++ post /\ matches_pattern m.

(** The same, decided: a lead character followed by a trail character. *)
Fixpoint has_match_b (text : str) : bool :=
  match text with
  | c :: text' =>
      match text' with
      | t :: _ => (is_lead c && is_trail t) || has_match_b text'
      | [] => false
      end
  | [] => false
  end.

Definition no_leading_trail (s : str) : Prop :=
  match s with
  | c :: _ => is_trail c = false
  | [] => True
  end.

(** The bytes of the page text [cafÃ©], where [é] was stored as the two
    Latin-1 characters of its UTF-8 bytes [C3 A9]. *)
Definition cafe_mis_stored : bytes := [0x63; 0x61; 0x66; 0xC3; 0x83; 0xC2; 0xA9].

(** [a <= b] on [str], and on field values as far as it is defined. *)
Definition str_le (a b : str) : Prop := str_ltb a b = true \/ a = b.

Definition value_le (x y : value) : Prop :=
  (x = None /\ y = None) \/
  exists s t, x = Some s /\ y = Some t /\ str_le s t.

(** The comparison [key(a) <= key(b)] of two records evaluates to [True]. *)
Definition key_le (a b : session) : Prop :=
  tuple_cmp op_le (sort_key a) (sort_key b) = Ok true.

(** [==] on tuples. *)
Fixpoint tuple_eqb (a b : list value) : bool :=
  match a, b with
  | [], [] => true
  | x :: a', y :: b' => value_eqb x y && tuple_eqb a' b'
  | _, _ => false
  end.

(** Two records in the same slot: same date, start and end. *)
Definition same_slot (a b : session) : Prop :=
  date a = date b /\ time_start a = time_start b /\ time_end a = time_end b.

(** A day container with these session elements, and a page with these
    day containers. *)
Definition day_node (sessions : list node) : node := Node [] [] [] sessions.
Definition page_node (days : list node) : node :=
  Node [] [] [(lit "ul.schedule-list.pane", days)] [].

(** An element that is no session: [parse_session] fails on it. *)
Definition broken_session : node := Node [] [] [] [].

(** A session whose title element holds blanks only. *)
Definition untitled_session : node :=
  session_node (lit "  ") (lit "9 am - 10 am") (lit "/event/5/6/") [].

(** A page with six day containers, the sixth of them broken. *)
Definition six_day_page : node :=
  page_node [day_node [plain_session]; day_node []; day_node [plain_session];
             day_node []; day_node []; day_node [broken_session]].

(** A page with two day containers; the second day has two sessions at the
    same time, and the first day a later session before an earlier one. *)
Definition two_day_page : node :=
  page_node
    [day_node [session_node (lit "Lunch") (lit "12 pm - 1 pm") (lit "/e/1/1/") [];
               session_node (lit "Opening") (lit "9 am - 10 am") (lit "/e/1/2/") []];
     day_node [session_node (lit "Maps") (lit "9 am - 10 am") (lit "/e/2/1/") [];
               session_node (lit "Data") (lit "9 am - 10 am") (lit "/e/2/2/") []]].

(** The titles of a list of records. *)
Definition titles (l : list session) : list value := map title l.

(** A session in the slot of [untitled_session], with a title. *)
Definition titled_session : node :=
  session_node (lit "Talk") (lit "9 am - 10 am") (lit "/event/5/7/") [].

(** Two lists that hold the records of each key in the same order. *)
Definition same_key_order (r1 r2 : list session) : Prop :=
  forall k, filter (fun r => tuple_eqb (sort_key r) k) r1
            = filter (fun r => tuple_eqb (sort_key r) k) r2.

(** Every record is followed by one with a tuple that is not less. *)
Definition neighbours_ordered (l : list session) : Prop :=
  forall i a b,
    nth_error l i = Some a -> nth_error l (S i) = Some b ->
    tuple_cmp op_le (sort_key a) (sort_key b) = Ok true.

(** A day with two sessions of one slot, both without a title. *)
Definition untitled_pair_page : node :=
  page_node
    [day_node [untitled_session;
               session_node [] (lit "9 am - 10 am") (lit "/event/5/8/") []]].

(* ================================================================== *)
(** * Part I, continued: the rest of the script *)
(* ================================================================== *)

(** ** [extract_speakers] *)

(** The longest text without a line feed at the start of [s]: what a
    greedy [[^\n]*] takes. *)
Fixpoint line_run (s : str) : str :=
  match s with
  | c :: s' => if c =? 10 then [] else c :: line_run s'
  | [] => []
  end.

(** [\s*([^\n]+)] at the start of [r]: the group, with the white space
    before it as long as a match of the group allows.  The longer run of
    white space is tried first, and the group is tried where the run ends. *)
Fixpoint space_names (r : str) : option str :=
  match r with
  | c :: r' =>
      let here := if c =? 10 then None else Some (line_run r) in
      if isspace c then
        match space_names r' with
        | Some names => Some names
        | None => here
        end
      else here
  | [] => None
  end.

(** [extract_speakers(description)]: group 2 of a match of the pattern
    [^(Speakers?:\s+([^\n]+))?] followed by a third group that, under
    [re.DOTALL], takes all that is left.  The pattern matches every text,
    since group 1 is optional; group 2 is [None] when group 1 takes no
    part. *)
Definition extract_speakers (description : str) : value :=
  if startswith description (lit "Speaker") then
    let r := skipn 7 description in
    let r := match r with
             | c :: r' => if c =? 115 then r' else r
             | [] => r
             end in
    match r with
    | c :: w :: r' => if (c =? 58) && isspace w then space_names r' else None
    | _ => None
    end
  else None.

(** ** Auxiliary definitions for the further statements *)

Definition no_trailing_space (s : str) : Prop := no_leading_space (rev s).

(** A text is clean when it is not empty and neither begins nor ends with
    white space. *)
Definition clean (s : str) : Prop :=
  s <> [] /\ no_leading_space s /\ no_trailing_space s.

(** A time of the 12-hour clock as the page writes it, [9:05 pm] or
    [12:30 am], and a whole hour, [8 am]; the minutes since midnight it
    stands for. *)
Definition suffix_of (pm : bool) : str := if pm then lit "pm" else lit "am".
Definition clock_token (h m : Z) (pm : bool) : str :=
  (decimal h ++ lit ":" ++ format_02d m) ++ lit " " ++ suffix_of pm.
Definition clock_minutes (h m : Z) (pm : bool) : Z :=
  (h mod 12 + (if pm then 12 else 0)) * 60 + m.

(** ** [save_csv] *)

(** A value of a record: a text, [None] or a float. *)
Inductive cell :=
| CStr (s : str)
| CNone
| CFloat (x : spec_float).

Definition cell_of (v : value) : cell :=
  match v with
  | Some s => CStr s
  | None => CNone
  end.

(** The items of the [OrderedDict] that [parse_session] returns, in the
    order in which it lists them. *)
Definition items (r : session) : list (str * cell) := [
  (lit "title", cell_of (title r));
  (lit "type", cell_of (type r));
  (lit "description", cell_of (description r));
  (lit "speakers", cell_of (speakers r));
  (lit "date", CStr (date r));
  (lit "time_start", CStr (time_start r));
  (lit "time_end", CStr (time_end r));
  (lit "length_in_hours", CFloat (length_in_hours r));
  (lit "room", cell_of (room r));
  (lit "event_id", CStr (event_id r));
  (lit "event_url", CStr (event_url r))
].

(** [columns] of [save_csv] *)
Definition columns : list str := [
  lit "event_id";
  lit "type";
  lit "date";
  lit "time_start";
  lit "time_end";
  lit "room";
  lit "title";
  lit "speakers";
  lit "description";
  lit "event_url";
  lit "length_in_hours"
].

(** [DictWriter._dict_to_list(rowdict)] with the defaults that [save_csv]
    leaves in place, [extrasaction="raise"] and [restval=""]: the keys that
    are no field names make it raise a [ValueError] that lists them (here
    [inl]); otherwise the row holds, for each field name, the value under
    that key or the empty text. *)
Definition dict_to_list (fieldnames : list str) (rowdict : list (str * cell))
  : list str + list cell :=
  let wrong_fields :=
    filter (fun k => negb (existsb (str_eqb k) fieldnames)) (map fst rowdict) in
  match wrong_fields with
  | [] => inr (map (fun key => match lookup key rowdict with
                               | Some v => v
                               | None => CStr []
                               end) fieldnames)
  | _ :: _ => inl wrong_fields
  end.

(** The rows that [save_csv(sessions)] hands to the writer of the [csv]
    module, the header first; how the writer quotes and writes a row is
    left to that module.  The first row with a wrong key ends the run. *)
Fixpoint data_rows (sessions : list session) : list str + list (list cell) :=
  match sessions with
  | [] => inr []
  | r :: rest =>
      match dict_to_list columns (items r) with
      | inl wrong => inl wrong
      | inr row =>
          match data_rows rest with
          | inl wrong => inl wrong
          | inr rows => inr (row :: rows)
          end
      end
  end.

Definition save_csv_rows (sessions : list session) : list str + list (list cell) :=
  match data_rows sessions with
  | inl wrong => inl wrong
  | inr rows => inr (map CStr columns :: rows)
  end.

(** The row of a record, column by column. *)
Definition row_of (r : session) : list cell := [
  CStr (event_id r); cell_of (type r); CStr (date r); CStr (time_start r);
  CStr (time_end r); cell_of (room r); cell_of (title r); cell_of (speakers r);
  cell_of (description r); CStr (event_url r); CFloat (length_in_hours r)
].

(** ** A page with a comment *)

(** A day that holds a session and, after it, a comment. *)
Definition commented_page : node :=
  page_node [day_node [plain_session; Comment (lit " break ")]].
(* ================================================================== *)
(** * Part II: properties *)
(* ================================================================== *)

(** ** The error monad *)

Lemma bind_Ok {A B} (c : result A) (k : A -> result B) (b : B) :
  bind c k = Ok b -> exists a, c = Ok a /\ k a = Ok b.
Proof. destruct c as [a|e]; simpl; intros H; [eauto | discriminate]. Qed.

Lemma bind_Raise {A B} (c : result A) (k : A -> result B) (e : exn) :
  bind c k = Raise e -> c = Raise e \/ exists a, c = Ok a /\ k a = Raise e.
Proof. destruct c as [a|e']; simpl; intros H; [eauto | left; congruence]. Qed.

(** Inverts every hypothesis [bind c k = Ok b]. *)
Ltac inv_bind :=
  repeat match goal with
  | H : bind _ _ = Ok _ |- _ =>
      let a := fresh "a" in
      let Ha := fresh "Ha" in
      apply bind_Ok in H; destruct H as (a & Ha & H)
  | H : Ok _ = Ok _ |- _ => injection H as H
  | H : Raise _ = Ok _ |- _ => discriminate H
  end.

Lemma mapM_Ok_length {A B} (f : A -> result B) l bs :
  mapM f l = Ok bs -> length bs = length l.
Proof.
  revert bs; induction l as [|a l IH]; simpl; intros bs H.
  - inv_bind; subst; reflexivity.
  - inv_bind; subst; simpl; f_equal; eauto.
Qed.

Lemma mapM_Ok_nth {A B} (f : A -> result B) l bs :
  mapM f l = Ok bs ->
  forall i b, nth_error bs i = Some b ->
  exists a, nth_error l i = Some a /\ f a = Ok b.
Proof.
  revert bs; induction l as [|a l IH]; simpl; intros bs H i b Hi.
  - inv_bind; subst; destruct i; discriminate.
  - inv_bind; subst. destruct i as [|i]; simpl in *.
    + injection Hi as <-; eauto.
    + eauto.
Qed.

(** ** Strings *)

Lemma str_eqb_eq (a b : str) : str_eqb a b = true <-> a = b.
Proof.
  revert b; induction a as [|x a IH]; intros [|y b]; simpl;
    try (split; [discriminate | congruence]); try tauto.
  rewrite andb_true_iff, Z.eqb_eq, IH. split.
  - intros [-> ->]; reflexivity.
  - intros [= -> ->]; auto.
Qed.

Lemma str_eqb_refl (a : str) : str_eqb a a = true.
Proof. apply str_eqb_eq; reflexivity. Qed.

Lemma str_eqb_neq (a b : str) : str_eqb a b = false <-> a <> b.
Proof.
  rewrite <- str_eqb_eq. destruct (str_eqb a b); split; congruence.
Qed.

(** *** [split] and [count] on a separator of one character *)

Lemma split1_cons (c x : Z) (s : str) :
  split (x :: s) [c] =
  if c =? x then [] :: split s [c]
  else match split s [c] with
       | piece :: pieces => (x :: piece) :: pieces
       | [] => [[x]]
       end.
Proof. unfold split; simpl. destruct (c =? x); reflexivity. Qed.

Lemma split1_not_nil (c : Z) (s : str) : split s [c] <> [].
Proof.
  induction s as [|x s IH]; [discriminate|].
  rewrite split1_cons. destruct (c =? x); [discriminate|].
  destruct (split s [c]); discriminate.
Qed.

Lemma split1_app (c : Z) (a b : str) :
  ~ In c a -> split (a ++ c :: b) [c] = a :: split b [c].
Proof.
  induction a as [|x a IH]; simpl; intros Hin.
  - rewrite split1_cons, Z.eqb_refl. reflexivity.
  - rewrite split1_cons. destruct (Z.eqb_spec c x) as [->|_].
    + exfalso; apply Hin; auto.
    + rewrite IH by tauto. reflexivity.
Qed.

Lemma split1_none (c : Z) (a : str) : ~ In c a -> split a [c] = [a].
Proof.
  induction a as [|x a IH]; simpl; intros Hin; [reflexivity|].
  rewrite split1_cons. destruct (Z.eqb_spec c x) as [->|_].
  - exfalso; apply Hin; auto.
  - rewrite IH by tauto. reflexivity.
Qed.

(** Splitting loses nothing: the pieces joined by the separator are the
    text, and no piece contains the separator. *)
Lemma split1_join (c : Z) (s : str) : join [c] (split s [c]) = s.
Proof.
  induction s as [|x s IH]; [reflexivity|].
  rewrite split1_cons. destruct (Z.eqb_spec c x) as [->|_].
  - pose proof (split1_not_nil x s) as Hn.
    simpl. destruct (split s [x]) as [|p ps]; [congruence|].
    simpl in *. rewrite IH. reflexivity.
  - pose proof (split1_not_nil c s) as Hn.
    destruct (split s [c]) as [|p ps]; [congruence|].
    destruct ps; simpl in *; rewrite <- IH; reflexivity.
Qed.

Lemma split1_pieces (c : Z) (s : str) :
  Forall (fun p => ~ In c p) (split s [c]).
Proof.
  induction s as [|x s IH].
  - repeat constructor. intros [].
  - rewrite split1_cons. destruct (Z.eqb_spec c x) as [->|Hne].
    + constructor; [intros [] | exact IH].
    + destruct (split s [c]) as [|p ps].
      * repeat constructor. simpl; intros [?|[]]; congruence.
      * inversion IH; subst. constructor; [|assumption].
        simpl; intros [?|?]; [congruence | contradiction].
Qed.

Lemma split1_two (c : Z) (s a b : str) :
  split s [c] = [a; b] -> s = a ++ c :: b /\ ~ In c a /\ ~ In c b.
Proof.
  intros H. pose proof (split1_join c s) as Hj.
  pose proof (split1_pieces c s) as Hp. rewrite H in Hj, Hp.
  simpl in Hj. inversion Hp as [|? ? Ha Hp']; subst.
  inversion Hp' as [|? ? Hb _]; subst. auto.
Qed.

Lemma count1_cons (c x : Z) (s : str) :
  count (x :: s) [c] = if c =? x then S (count s [c]) else count s [c].
Proof. unfold count; simpl. destruct (c =? x); reflexivity. Qed.

Lemma count1_zero (c : Z) (s : str) : count s [c] = O <-> ~ In c s.
Proof.
  induction s as [|x s IH]; simpl; [unfold count; simpl; tauto|].
  rewrite count1_cons. destruct (Z.eqb_spec c x) as [->|Hne].
  - split; [discriminate | intros H; exfalso; apply H; auto].
  - rewrite IH. split; [intros H [?|?]; [congruence | auto] | tauto].
Qed.

(** ** [int] and the format code [02d] *)

Lemma is_digit_range (c : Z) : is_digit c = true <-> 48 <= c <= 57.
Proof. unfold is_digit. lia. Qed.

Lemma scan_digits_all (ds : str) (acc : Z) :
  all_digits ds -> scan_digits acc false ds = Some (fold_left digit_step ds acc, []).
Proof.
  revert acc; induction ds as [|c ds IH]; simpl; intros acc H; [reflexivity|].
  inversion H as [|? ? Hc Hds]; subst. rewrite Hc. apply IH, Hds.
Qed.

Lemma int_magnitude_all (ds : str) :
  ds <> [] -> all_digits ds -> int_magnitude ds = Some (digits_value ds).
Proof.
  intros Hne H. destruct ds as [|c ds]; [congruence|].
  unfold int_magnitude. inversion H as [|? ? Hc _]; subst. rewrite Hc.
  rewrite scan_digits_all by assumption. reflexivity.
Qed.

Section IntFacts.
Context {U : UnicodeData}.

Lemma to_ascii_ascii (c : Z) : c < 127 -> to_ascii c = c.
Proof. unfold to_ascii. intros H. destruct (Z.ltb_spec c 127); [reflexivity | lia]. Qed.

Lemma map_to_ascii_ascii (s : str) :
  Forall (fun c => c < 127) s -> map to_ascii s = s.
Proof.
  induction 1 as [|c s Hc _ IH]; simpl; [reflexivity|].
  rewrite to_ascii_ascii by assumption. congruence.
Qed.

Lemma all_digits_ascii (ds : str) : all_digits ds -> Forall (fun c => c < 127) ds.
Proof. apply Forall_impl. intros c Hc. apply is_digit_range in Hc. lia. Qed.

Lemma int_all_digits (ds : str) :
  ds <> [] -> all_digits ds -> int ds = Ok (digits_value ds).
Proof.
  intros Hne H. unfold int.
  rewrite map_to_ascii_ascii by (apply all_digits_ascii, H).
  destruct ds as [|c ds]; [congruence|].
  inversion H as [|? ? Hc _]; subst. apply is_digit_range in Hc.
  assert (Hsp : is_c_space c = false) by (unfold is_c_space; lia).
  simpl. rewrite Hsp.
  destruct (Z.eqb_spec c 43); [lia|]. destruct (Z.eqb_spec c 45); [lia|].
  rewrite int_magnitude_all by (assumption || discriminate). reflexivity.
Qed.

Lemma int_minus_digits (ds : str) :
  ds <> [] -> all_digits ds -> int (45 :: ds) = Ok (- digits_value ds).
Proof.
  intros Hne H. unfold int. simpl map.
  rewrite (to_ascii_ascii 45) by lia.
  rewrite map_to_ascii_ascii by (apply all_digits_ascii, H).
  simpl. rewrite int_magnitude_all by assumption. reflexivity.
Qed.

End IntFacts.

Lemma digits_fuel_S (f : nat) (n : Z) (acc : str) :
  digits_fuel (S f) n acc =
  if n <? 10 then (48 + n mod 10) :: acc
  else digits_fuel f (n / 10) ((48 + n mod 10) :: acc).
Proof. reflexivity. Qed.

(** The digits produced with enough fuel are decimal digits and spell [n]. *)
Lemma digits_fuel_spec (f : nat) (n : Z) (acc : str) :
  0 <= n < 2 ^ Z.of_nat (S f) ->
  exists ds, digits_fuel (S f) n acc = ds ++ acc /\
             ds <> [] /\ all_digits ds /\ digits_value ds = n.
Proof.
  revert n acc; induction f as [|f IH]; intros n acc Hn.
  - change (2 ^ Z.of_nat 1) with 2 in Hn.
    exists [48 + n mod 10]. rewrite digits_fuel_S. cbn [app].
    destruct (Z.ltb_spec n 10); [|lia].
    repeat split; try discriminate.
    + repeat constructor. apply is_digit_range.
      rewrite Z.mod_small by lia. lia.
    + unfold digits_value, digit_step; cbn [fold_left].
      rewrite Z.mod_small by lia. lia.
  - rewrite digits_fuel_S. pose proof (Z.mod_pos_bound n 10 ltac:(lia)) as Hm.
    destruct (Z.ltb_spec n 10) as [Hlt|Hge].
    + exists [48 + n mod 10]. repeat split; try discriminate.
      * repeat constructor. apply is_digit_range. lia.
      * unfold digits_value, digit_step; cbn [fold_left].
        rewrite Z.mod_small by lia. lia.
    + assert (Hq : 0 <= n / 10 < 2 ^ Z.of_nat (S f)).
      { split; [apply Z.div_pos; lia|].
        apply Z.div_lt_upper_bound; [lia|].
        rewrite (Nat2Z.inj_succ (S f)), Z.pow_succ_r in Hn by lia. lia. }
      destruct (IH (n / 10) ((48 + n mod 10) :: acc) Hq) as (ds & Heq & Hne & Hds & Hv).
      exists (ds ++ [48 + n mod 10]). rewrite Heq, <- app_assoc.
      repeat split.
      * destruct ds; discriminate.
      * apply Forall_app; split; [assumption|].
        repeat constructor. apply is_digit_range. lia.
      * unfold digits_value in *. rewrite fold_left_app, Hv.
        cbn [fold_left]. unfold digit_step. pose proof (Z.div_mod n 10 ltac:(lia)). lia.
Qed.

Lemma decimal_spec (n : Z) :
  0 <= n ->
  decimal n <> [] /\ all_digits (decimal n) /\ digits_value (decimal n) = n.
Proof.
  intros Hn. unfold decimal.
  assert (Hb : 0 <= n < 2 ^ Z.of_nat (S (Z.to_nat (Z.log2 n)))).
  { split; [assumption|]. rewrite Nat2Z.inj_succ, Z2Nat.id by apply Z.log2_nonneg.
    destruct (Z.eq_dec n 0) as [->|Hnz]; [reflexivity|].
    apply Z.log2_spec. lia. }
  destruct (digits_fuel_spec _ n [] Hb) as (ds & Heq & Hne & Hds & Hv).
  rewrite Heq, app_nil_r. auto.
Qed.

Lemma digits_value_zeros (k : nat) (ds : str) :
  digits_value (repeat 48 k ++ ds) = digits_value ds.
Proof.
  unfold digits_value. rewrite fold_left_app.
  replace (fold_left digit_step (repeat 48 k) 0) with 0; [reflexivity|].
  induction k as [|k IH]; simpl; [reflexivity | exact IH].
Qed.

Lemma all_digits_zeros (k : nat) : all_digits (repeat 48 k).
Proof. induction k; simpl; constructor; auto. Qed.

(** The characters of a formatted number: a minus sign or digits. *)
Lemma format_02d_shape (z : Z) :
  (0 <= z /\ exists ds, format_02d z = ds /\ ds <> [] /\ all_digits ds
                        /\ digits_value ds = z) \/
  (z < 0 /\ exists ds, format_02d z = 45 :: ds /\ ds <> [] /\ all_digits ds
                       /\ digits_value ds = - z).
Proof.
  unfold format_02d. destruct (Z.ltb_spec z 0) as [Hneg|Hpos].
  - right. split; [assumption|].
    destruct (decimal_spec (- z) ltac:(lia)) as (Hne & Hds & Hv).
    exists (decimal (- z)). repeat split; try assumption.
    destruct (decimal (- z)) as [|c ds]; [congruence|].
    replace (1 - length (c :: ds))%nat with O by (cbn [length]; lia).
    reflexivity.
  - left. split; [assumption|].
    destruct (decimal_spec z Hpos) as (Hne & Hds & Hv).
    eexists; split; [reflexivity|]. repeat split.
    + destruct (decimal z); [congruence|]. destruct (repeat 48 _); discriminate.
    + apply Forall_app; split; [apply all_digits_zeros | assumption].
    + rewrite digits_value_zeros. assumption.
Qed.

(** Reading back a formatted number gives the number. *)
Lemma int_format_02d {U : UnicodeData} (z : Z) : int (format_02d z) = Ok z.
Proof.
  destruct (format_02d_shape z) as [(Hz & ds & -> & Hne & Hds & Hv)
                                   |(Hz & ds & -> & Hne & Hds & Hv)].
  - rewrite int_all_digits by assumption. congruence.
  - rewrite int_minus_digits by assumption. f_equal. lia.
Qed.

Lemma format_02d_chars (z : Z) (c : Z) :
  In c (format_02d z) -> c = 45 \/ 48 <= c <= 57.
Proof.
  destruct (format_02d_shape z) as [(Hz & ds & -> & Hne & Hds & Hv)
                                   |(Hz & ds & -> & Hne & Hds & Hv)];
    intros Hin.
  - right. apply is_digit_range. revert c Hin. apply Forall_forall, Hds.
  - destruct Hin as [<-|Hin]; [auto|].
    right. apply is_digit_range. revert c Hin. apply Forall_forall, Hds.
Qed.

(** Replaces the literals of the goal and of the hypotheses by their code
    points. *)
Ltac unlit :=
  repeat match goal with
  | |- context [lit ?s] =>
      let v := eval vm_compute in (lit s) in change (lit s) with v
  | H : context [lit ?s] |- _ =>
      let v := eval vm_compute in (lit s) in change (lit s) with v in H
  end.

(** ** [convert_time] *)

Section ConvertTime.
Context {U : UnicodeData}.

Lemma mapM_int_Raise (l : list str) (e : exn) :
  mapM int l = Raise e -> exists why, e = ValueError why.
Proof.
  induction l as [|s l IH]; simpl; [discriminate|].
  unfold int at 1. destruct (match skip_c_space (map to_ascii s) with
                             | [] => None | c :: digits => _ end); simpl.
  - destruct (mapM int l); simpl; [discriminate|].
    intros [= <-]. apply IH. reflexivity.
  - intros [= <-]. eauto.
Qed.

Lemma mapM_int_not_CantParse (l : list str) (t : str) :
  mapM int l <> Raise (ValueError (CantParse t)).
Proof.
  induction l as [|s l IH]; simpl; [discriminate|].
  unfold int at 1. destruct (match skip_c_space (map to_ascii s) with
                             | [] => None | c :: digits => _ end); simpl.
  - destruct (mapM int l); simpl; [discriminate|].
    intros [= ->]. apply IH. reflexivity.
  - discriminate.
Qed.

(** The hour on the 24-hour clock, as the script computes it. *)
Lemma hour_shift (is_pm : bool) (h : Z) :
  h + Z.b2z (is_pm && negb (h =? 12)) * 12 =
  if is_pm then (if h =? 12 then h else h + 12) else h.
Proof. destruct is_pm, (h =? 12); simpl; lia. Qed.

(** The run of [convert_time] on a token with a recognised suffix. *)
Lemma convert_time_run (nums suffix hs ms : str) (is_pm : bool) (h m : Z) :
  ~ In 32 nums ->
  (suffix = lit "am" /\ is_pm = false) \/ (suffix = lit "pm" /\ is_pm = true) ->
  split (if (count nums (lit ":") =? 0)%nat then nums ++ lit ":00" else nums)
        (lit ":") = [hs; ms] ->
  int hs = Ok h -> int ms = Ok m ->
  convert_time (nums ++ lit " " ++ suffix) =
  Ok (format_02d (if is_pm then (if h =? 12 then h else h + 12) else h)
      ++ lit ":" ++ format_02d m).
Proof.
  intros Hsp Hsuf Hsplit Hh Hm. unfold convert_time.
  assert (Hs : split (nums ++ lit " " ++ suffix) (lit " ") = [nums; suffix]).
  { unlit. cbn [app]. rewrite split1_app by assumption.
    rewrite split1_none; [reflexivity|].
    destruct Hsuf as [[-> _]|[-> _]]; unlit; simpl; lia. }
  rewrite Hs.
  assert (Hpm : (if str_eqb suffix (lit "pm") then Ok true
                 else if str_eqb suffix (lit "am") then Ok false
                 else Raise (ValueError (CantParse (nums ++ lit " " ++ suffix))))
                = Ok is_pm).
  { destruct Hsuf as [[-> ->]|[-> ->]]; reflexivity. }
  rewrite Hpm. cbn [bind].
  match goal with
  | |- context [mapM int ?x] => replace x with [hs; ms] by (symmetry; exact Hsplit)
  end.
  cbn [mapM]. rewrite Hh, Hm.
  cbn [bind length]. rewrite hour_shift. reflexivity.
Qed.

Lemma convert_time_Raise (ts : str) (e : exn) :
  convert_time ts = Raise e -> exists why, e = ValueError why.
Proof.
  unfold convert_time.
  destruct (split ts (lit " ")) as [|nums [|suffix [|x rest]]];
    try (intros [= <-]; cbv; eauto; fail).
  destruct (str_eqb suffix (lit "pm")), (str_eqb suffix (lit "am")); cbn [bind];
      try (intros [= <-]; eauto; fail);
      (destruct (mapM int _) as [parts|e'] eqn:Hparts; cbn [bind];
       [ destruct parts as [|a [|b [|c parts]]];
         intros [= <-]; cbv; eauto
       | intros [= <-]; eapply mapM_int_Raise; eassumption ]).
Qed.

(** When [convert_time] returns, the token was a numeric part, a blank and
    [am] or [pm]; the value returned is a formatted hour, a colon and a
    formatted minute. *)
Lemma convert_time_Ok (ts v : str) :
  convert_time ts = Ok v ->
  exists nums suffix H M,
    ts = nums ++ lit " " ++ suffix /\ ~ In 32 nums /\
    (suffix = lit "am" \/ suffix = lit "pm") /\
    v = format_02d H ++ lit ":" ++ format_02d M.
Proof.
  unfold convert_time.
  destruct (split ts (lit " ")) as [|nums [|suffix [|x rest]]] eqn:Hs;
    try discriminate.
  unlit. apply split1_two in Hs. destruct Hs as (-> & Hn & _).
  intros H. exists nums, suffix.
  assert (Hsuf : suffix = [97; 109] \/ suffix = [112; 109]).
  { destruct (str_eqb suffix [112; 109]) eqn:Hpm;
      [apply str_eqb_eq in Hpm; auto|].
    destruct (str_eqb suffix [97; 109]) eqn:Ham;
      [apply str_eqb_eq in Ham; auto|].
    discriminate. }
  inv_bind. destruct a0 as [|hours [|minutes [|c parts]]]; try discriminate.
  injection H as <-.
  exists (hours + Z.b2z (a && negb (hours =? 12)) * 12), minutes.
  repeat split; auto.
Qed.

Lemma convert_time_CantParse (ts t : str) :
  convert_time ts = Raise (ValueError (CantParse t)) ->
  t = ts /\
  exists nums suffix,
    ts = nums ++ lit " " ++ suffix /\ ~ In 32 nums /\ ~ In 32 suffix /\
    suffix <> lit "am" /\ suffix <> lit "pm".
Proof.
  unfold convert_time.
  destruct (split ts (lit " ")) as [|nums [|suffix [|x rest]]] eqn:Hs;
    try (cbv; discriminate).
  unlit. apply split1_two in Hs. destruct Hs as (-> & Hn & Hsuf).
  destruct (str_eqb suffix [112; 109]) eqn:Hpm;
    [|destruct (str_eqb suffix [97; 109]) eqn:Ham]; cbn [bind].
  1, 2: destruct (mapM int _) as [parts|e'] eqn:Hparts; cbn [bind];
    [ destruct parts as [|a [|b [|c parts]]]; cbv; discriminate
    | intros [= ->]; exfalso; eapply mapM_int_not_CantParse; eassumption ].
  intros [= <-]. split; [reflexivity|].
  apply str_eqb_neq in Hpm, Ham.
  exists nums, suffix. repeat split; auto.
Qed.

End ConvertTime.

(** C1: on a token [nums ++ " " ++ suffix] whose suffix is [am] or [pm],
    [convert_time] splits off the suffix, reads a numeric part without a
    colon as a whole hour (minutes [00]), adds 12 to the hour exactly when
    the suffix is [pm] and the hour is not 12, and leaves the hour as it is
    otherwise.  In particular ["8 am"] gives ["08:00"], ["12:30 pm"] gives
    ["12:30"], ["12 pm"] gives ["12:00"] and ["12 am"] gives ["12:00"]. *)
Theorem convert_time_spec (U : UnicodeData) :
  (forall nums suffix h,
      ~ In 32 nums -> ~ In 58 nums ->
      suffix = lit "am" \/ suffix = lit "pm" ->
      int nums = Ok h ->
      exists H,
        convert_time (nums ++ lit " " ++ suffix) = Ok (format_02d H ++ lit ":00") /\
        (suffix = lit "pm" -> h <> 12 -> H = h + 12) /\
        (suffix = lit "am" \/ h = 12 -> H = h)) /\
  (forall hs ms suffix h m,
      ~ In 32 hs -> ~ In 58 hs -> ~ In 32 ms -> ~ In 58 ms ->
      suffix = lit "am" \/ suffix = lit "pm" ->
      int hs = Ok h -> int ms = Ok m ->
      exists H,
        convert_time ((hs ++ lit ":" ++ ms) ++ lit " " ++ suffix)
        = Ok (format_02d H ++ lit ":" ++ format_02d m) /\
        (suffix = lit "pm" -> h <> 12 -> H = h + 12) /\
        (suffix = lit "am" \/ h = 12 -> H = h)) /\
  convert_time (lit "8 am") = Ok (lit "08:00") /\
  convert_time (lit "12:30 pm") = Ok (lit "12:30") /\
  convert_time (lit "12 pm") = Ok (lit "12:00") /\
  convert_time (lit "12 am") = Ok (lit "12:00").
Proof.
  assert (Hshift : forall suffix is_pm h,
             (suffix = lit "am" /\ is_pm = false) \/ (suffix = lit "pm" /\ is_pm = true) ->
             let H := if is_pm then (if h =? 12 then h else h + 12) else h in
             (suffix = lit "pm" -> h <> 12 -> H = h + 12) /\
             (suffix = lit "am" \/ h = 12 -> H = h)).
  { intros suffix is_pm h [[-> ->]|[-> ->]]; cbn zeta; split.
    - discriminate.
    - reflexivity.
    - intros _ Hh. destruct (Z.eqb_spec h 12); [contradiction | reflexivity].
    - intros [Habs| ->]; [discriminate Habs | reflexivity]. }
  assert (Hpm : forall suffix, suffix = lit "am" \/ suffix = lit "pm" ->
             exists is_pm, (suffix = lit "am" /\ is_pm = false)
                           \/ (suffix = lit "pm" /\ is_pm = true)).
  { intros suffix [->| ->]; [exists false | exists true]; auto. }
  split; [|split; [|repeat split; vm_compute; reflexivity]].
  - intros nums suffix h Hsp Hcol Hsuf Hh.
    destruct (Hpm suffix Hsuf) as (is_pm & Hcase).
    exists (if is_pm then (if h =? 12 then h else h + 12) else h).
    split; [|apply (Hshift suffix is_pm h Hcase)].
    change (lit ":00") with (lit ":" ++ format_02d 0).
    apply (convert_time_run nums suffix nums (lit "00") is_pm h 0); auto.
    apply (count1_zero 58) in Hcol. change (lit ":") with [58].
    rewrite Hcol. cbn [Nat.eqb]. change (lit ":00") with (58 :: lit "00").
    rewrite split1_app by (rewrite <- count1_zero; exact Hcol). reflexivity.
  - intros hs ms suffix h m Hhsp Hhcol Hmsp Hmcol Hsuf Hh Hm.
    destruct (Hpm suffix Hsuf) as (is_pm & Hcase).
    exists (if is_pm then (if h =? 12 then h else h + 12) else h).
    split; [|apply (Hshift suffix is_pm h Hcase)].
    apply (convert_time_run _ suffix hs ms is_pm h m); auto.
    + unlit. cbn [app]. rewrite in_app_iff. simpl. intuition lia.
    + change (lit ":") with [58]. cbn [app].
      assert (Hc : count (hs ++ 58 :: ms) [58] <> O).
      { rewrite count1_zero. rewrite in_app_iff. simpl. tauto. }
      destruct (count (hs ++ 58 :: ms) [58]); [congruence|].
      cbn [Nat.eqb]. rewrite split1_app, split1_none by assumption. reflexivity.
Qed.

(** The theorem at the token ["9:05 pm"], which is ["21:05"] on the 24-hour
    clock. *)
Lemma convert_time_spec_witness :
  exists H,
    @convert_time ascii_digits ((lit "9" ++ lit ":" ++ lit "05") ++ lit " " ++ lit "pm")
    = Ok (format_02d H ++ lit ":" ++ format_02d 5) /\ H = 21.
Proof.
  destruct (proj1 (proj2 (convert_time_spec ascii_digits))
              (lit "9") (lit "05") (lit "pm") 9 5) as (H & Hrun & Hpm & _).
  - vm_compute. intros [H|[]]. discriminate H.
  - vm_compute. intros [H|[]]. discriminate H.
  - vm_compute. intros [H|[H|[]]]; discriminate H.
  - vm_compute. intros [H|[H|[]]]; discriminate H.
  - right. reflexivity.
  - reflexivity.
  - reflexivity.
  - exists H. split; [exact Hrun|]. apply Hpm; [reflexivity | lia].
Defined.

(** C5: a token [nums ++ " " ++ suffix] whose suffix is neither [am] nor
    [pm] makes [convert_time] raise the [ValueError] of its suffix check
    instead of returning; [convert_time] returns only for the suffixes [am]
    and [pm], every exception it raises is a [ValueError], and the suffix
    check raises for no token whose suffix is [am] or [pm]. *)
Theorem convert_time_bad_suffix (U : UnicodeData) :
  (forall nums suffix,
      ~ In 32 nums -> ~ In 32 suffix ->
      suffix <> lit "am" -> suffix <> lit "pm" ->
      convert_time (nums ++ lit " " ++ suffix)
      = Raise (ValueError (CantParse (nums ++ lit " " ++ suffix)))) /\
  (forall ts v,
      convert_time ts = Ok v ->
      exists nums suffix,
        ts = nums ++ lit " " ++ suffix /\ ~ In 32 nums /\
        (suffix = lit "am" \/ suffix = lit "pm")) /\
  (forall ts e, convert_time ts = Raise e -> exists why, e = ValueError why) /\
  (forall ts t,
      convert_time ts = Raise (ValueError (CantParse t)) ->
      t = ts /\
      exists nums suffix,
        ts = nums ++ lit " " ++ suffix /\ ~ In 32 nums /\ ~ In 32 suffix /\
        suffix <> lit "am" /\ suffix <> lit "pm").
Proof.
  repeat split.
  - intros nums suffix Hn Hs Ham Hpm. unfold convert_time.
    change (lit " ") with [32]. cbn [app].
    rewrite split1_app, split1_none by assumption.
    apply str_eqb_neq in Ham, Hpm. rewrite Ham, Hpm. reflexivity.
  - intros ts v H. apply convert_time_Ok in H.
    destruct H as (nums & suffix & _ & _ & ? & ? & ? & _). eauto.
  - apply convert_time_Raise.
  - apply convert_time_CantParse in H. tauto.
  - apply convert_time_CantParse in H. tauto.
Qed.

(** The theorem at the token ["8 xm"]. *)
Lemma convert_time_bad_suffix_witness :
  @convert_time ascii_digits (lit "8" ++ lit " " ++ lit "xm")
  = Raise (ValueError (CantParse (lit "8 xm"))).
Proof.
  apply (proj1 (convert_time_bad_suffix ascii_digits) (lit "8") (lit "xm")).
  - vm_compute. intros [H|[]]. discriminate H.
  - vm_compute. intros [H|[H|[]]]; discriminate H.
  - discriminate.
  - discriminate.
Defined.

(** ** [calculate_length] and [round] *)

Lemma float_same_eq (x y : spec_float) : float_same x y = true -> x = y.
Proof.
  destruct x as [s|s| |s m e], y as [s'|s'| |s' m' e']; simpl;
    try discriminate; try reflexivity.
  - intros H. apply eqb_prop in H. congruence.
  - intros H. apply eqb_prop in H. congruence.
  - rewrite !andb_true_iff. intros [[Hs Hm] He].
    apply eqb_prop in Hs. apply Pos.eqb_eq in Hm. apply Z.eqb_eq in He.
    congruence.
Qed.

Lemma all_from_spec (f : Z -> bool) (n : positive) :
  forall lo, all_from f lo n = true ->
  forall d, lo <= d < lo + Zpos n -> f d = true.
Proof.
  induction n as [p IH|p IH|]; intros lo H d Hd; cbn [all_from] in H.
  - rewrite !andb_true_iff in H. destruct H as [[H0 H1] H2].
    rewrite Pos2Z.inj_xI in Hd.
    destruct (Z.eq_dec d lo) as [->|Hne]; [exact H0|].
    destruct (Z_lt_le_dec d (lo + 1 + Zpos p)).
    + apply (IH (lo + 1)); [exact H1 | lia].
    + apply (IH (lo + 1 + Zpos p)); [exact H2 | lia].
  - rewrite andb_true_iff in H. destruct H as [H1 H2].
    rewrite Pos2Z.inj_xO in Hd.
    destruct (Z_lt_le_dec d (lo + Zpos p)).
    + apply (IH lo); [exact H1 | lia].
    + apply (IH (lo + Zpos p)); [exact H2 | lia].
  - replace d with lo by lia. exact H.
Qed.

(** Every difference between two times of two digits each. *)
Lemma length_check_all :
  forall d, -6039 <= d <= 6039 -> length_check d = true.
Proof.
  intros d Hd. apply (all_from_spec length_check 12079 (-6039)); [|lia].
  vm_compute. reflexivity.
Qed.

Lemma two_digit_check_all :
  forall h, 0 <= h <= 99 -> two_digit_check h = true.
Proof.
  intros h Hh. apply (all_from_spec two_digit_check 100 0); [|lia].
  vm_compute. reflexivity.
Qed.

(** Numbers below 100 are formatted with exactly two digits. *)
Lemma format_02d_two_digits (h : Z) :
  0 <= h <= 99 -> format_02d h = [48 + h / 10; 48 + h mod 10].
Proof. intros Hh. apply str_eqb_eq, two_digit_check_all, Hh. Qed.

Lemma format_02d_no_colon (z : Z) : ~ In 58 (format_02d z).
Proof. intros H. apply format_02d_chars in H. lia. Qed.

Section CalculateLength.
Context {U : UnicodeData}.

Lemma mapM_int_hhmm (h m : Z) :
  mapM int (split (hhmm h m) (lit ":")) = Ok [h; m].
Proof.
  unfold hhmm. change (lit ":") with [58]. cbn [app].
  rewrite split1_app, split1_none by apply format_02d_no_colon.
  cbn [mapM]. rewrite !int_format_02d. reflexivity.
Qed.

Lemma calculate_length_hhmm (h m h' m' : Z) :
  calculate_length (hhmm h m) (hhmm h' m')
  = true_div (minutes h' m' - minutes h m) 60.
Proof.
  unfold calculate_length. rewrite !mapM_int_hhmm. reflexivity.
Qed.

End CalculateLength.

(** ** [parse_session] *)

Lemma unpack2_map_Ok {A B} (f : A -> result B) (l : list A) (x y : B) :
  unpack2_map f l = Ok (x, y) ->
  exists a b, l = [a; b] /\ f a = Ok x /\ f b = Ok y.
Proof.
  destruct l as [|a [|b [|c l]]]; simpl; intros H; inv_bind.
  subst. eauto.
Qed.

Section ParseSession.
Context {U : UnicodeData} {E : Type} {EL : Element E}.

(** [el.cssselect(sel)] returns the matches of an element and raises
    [ValueError] on any other node. *)
Lemma cssselect_Ok (el : E) (sel : str) (l : list E) :
  cssselect el sel = Ok l <-> is_element el = true /\ l = matching el sel.
Proof.
  unfold cssselect. destruct (is_element el); split.
  - intros [= <-]. auto.
  - intros [_ ->]. reflexivity.
  - discriminate.
  - intros [H _]. discriminate.
Qed.

Lemma cssselect_Raise (el : E) (sel : str) (e : exn) :
  cssselect el sel = Raise e <->
  is_element el = false /\ e = ValueError NotAnElement.
Proof.
  unfold cssselect. destruct (is_element el); split.
  - discriminate.
  - intros [H _]. discriminate.
  - intros [= <-]. auto.
  - intros [_ ->]. reflexivity.
Qed.

Lemma get_text_Raise (el : E) (sel : str) (e : exn) :
  get_text el sel = Raise e <->
  is_element el = false /\ e = ValueError NotAnElement.
Proof.
  rewrite <- (cssselect_Raise el sel). unfold get_text.
  destruct (cssselect el sel) as [l|e']; cbn [bind]; [split; discriminate|].
  split; intros [= ->]; reflexivity.
Qed.

Lemma get_text_Ok_element (el : E) (sel : str) (v : value) :
  get_text el sel = Ok v -> is_element el = true.
Proof.
  unfold get_text. destruct (cssselect el sel) as [l|e] eqn:Hsel; [|discriminate].
  intros _. apply cssselect_Ok in Hsel. tauto.
Qed.

(** What a successful run of [parse_session] went through. *)
Lemma parse_session_Ok (el : E) (d : str) (r : session) :
  parse_session el d = Ok r ->
  exists s_time a b link rest href q raw,
    get_text el (lit ".event-meta p") = Ok (Some s_time) /\
    split s_time (lit " - ") = [a; b] /\
    convert_time a = Ok (time_start r) /\
    convert_time b = Ok (time_end r) /\
    cssselect el (lit ".event-title a") = Ok (link :: rest) /\
    attrib link (lit "href") = Some href /\
    calculate_length (time_start r) (time_end r) = Ok q /\
    round3 q = Ok (length_in_hours r) /\
    get_text el (lit ".event-title") = Ok (title r) /\
    (get_text el (lit ".event-speakers") = Ok raw /\
     speakers r = option_map sub_speaker_label raw) /\
    date r = d /\
    event_id r = join (lit "/") (slice (split href (lit "/")) (-3) (-1)) /\
    event_url r = lit "https://ire.org" ++ href.
Proof.
  unfold parse_session. intros H.
  apply bind_Ok in H. destruct H as (raw & Hraw & H).
  apply bind_Ok in H. destruct H as (t & Htime & H).
  apply bind_Ok in H. destruct H as (s_time & Hsome & H).
  destruct t as [t|]; [|discriminate]. injection Hsome as ->.
  apply bind_Ok in H. destruct H as ([ts te] & Ht & H).
  apply unpack2_map_Ok in Ht. destruct Ht as (a & b & Hsplit & Hts & Hte).
  apply bind_Ok in H. destruct H as (links & Hlinks & H).
  apply bind_Ok in H. destruct H as (link & Hlink & H).
  destruct links as [|link' rest]; [discriminate|]. injection Hlink as ->.
  apply bind_Ok in H. destruct H as (href & Hhref & H).
  destruct (attrib link (lit "href")) as [h|] eqn:Hattr; [|discriminate].
  injection Hhref as ->.
  apply bind_Ok in H. destruct H as (s_title & Htitle & H).
  apply bind_Ok in H. destruct H as (s_type & Htype & H).
  apply bind_Ok in H. destruct H as (s_description & Hdescription & H).
  apply bind_Ok in H. destruct H as (q & Hq & H).
  apply bind_Ok in H. destruct H as (len & Hlen & H).
  apply bind_Ok in H. destruct H as (s_room & Hroom & H).
  injection H as <-.
  cbn [time_start time_end length_in_hours title speakers date event_id event_url].
  exists s_time, a, b, link, rest, href, q, raw.
  repeat split; try assumption; try reflexivity.
Qed.

End ParseSession.

Lemma true_div_60 (d : Z) (q : spec_float) :
  true_div d 60 = Ok q -> q = nearest_quotient (exact d) (exact 60).
Proof.
  unfold true_div. cbn [Z.eqb].
  destruct (nearest_quotient (exact d) (exact 60)); congruence.
Qed.

Lemma round3_finite (s : bool) (m : positive) (e : Z) (r : spec_float) :
  round3 (S754_finite s m e) = Ok r ->
  r = nearest_quotient (signed s (thousandths m e)) (exact 1000).
Proof.
  unfold round3.
  destruct (nearest_quotient (signed s (thousandths m e)) (exact 1000)); congruence.
Qed.

Lemma length_check_elim (d : Z) :
  length_check d = true ->
  true_div d 60 = Ok (nearest_quotient (exact d) (exact 60)) /\
  round3 (nearest_quotient (exact d) (exact 60)) = Ok (hours_rounded d) /\
  (float_negative (hours_rounded d) = true <-> d < 0).
Proof.
  unfold length_check. destruct (true_div d 60) as [q|] eqn:Hq; [|discriminate].
  pose proof (true_div_60 d q Hq) as Heq. rewrite <- Heq. clear Heq.
  rewrite andb_true_iff. intros [Hnum Hround].
  destruct (round3 q) as [r|] eqn:Hr; [|discriminate].
  apply eqb_prop in Hround.
  assert (Hrd : r = hours_rounded d).
  { destruct q as [s|s| |s m e]; try discriminate.
    - rewrite andb_true_iff, Z.eqb_eq, negb_true_iff in Hnum.
      destruct Hnum as [-> ->]. simpl in Hr. injection Hr as <-. reflexivity.
    - apply float_same_eq in Hnum. apply round3_finite in Hr.
      rewrite Hnum in Hr. exact Hr. }
  subst r. split; [reflexivity|]. split; [reflexivity|].
  rewrite Hround, Z.ltb_lt. tauto.
Qed.

(** C3: for two times written [HH:MM], [calculate_length] is the difference
    of their minutes since midnight divided by 60, the value stored in a
    session record is that quotient rounded to three decimals, and
    [calculate_length("09:00", "10:30")] is [1.5]. *)
Theorem calculate_length_spec (U : UnicodeData) :
  (forall h m h' m',
      calculate_length (hhmm h m) (hhmm h' m')
      = true_div (minutes h' m' - minutes h m) 60) /\
  (forall h m h' m',
      0 <= h <= 99 -> 0 <= m <= 99 -> 0 <= h' <= 99 -> 0 <= m' <= 99 ->
      let d := minutes h' m' - minutes h m in
      hhmm h m = [48 + h / 10; 48 + h mod 10; 58; 48 + m / 10; 48 + m mod 10] /\
      calculate_length (hhmm h m) (hhmm h' m')
      = Ok (nearest_quotient (exact d) (exact 60)) /\
      round3 (nearest_quotient (exact d) (exact 60)) = Ok (hours_rounded d)) /\
  (forall (E : Type) (EL : Element E) (el : E) (d : str) (r : session),
      parse_session el d = Ok r ->
      exists q, calculate_length (time_start r) (time_end r) = Ok q /\
                round3 q = Ok (length_in_hours r)) /\
  (calculate_length (lit "09:00") (lit "10:30") = Ok one_and_a_half /\
   is_fraction one_and_a_half 3 2).
Proof.
  split; [|split; [|split]].
  - intros. apply calculate_length_hhmm.
  - intros h m h' m' Hh Hm Hh' Hm' d.
    assert (Hd : -6039 <= d <= 6039) by (unfold d, minutes; lia).
    destruct (length_check_elim d (length_check_all d Hd)) as (Hq & Hr & _).
    split; [|split].
    + unfold hhmm. rewrite !format_02d_two_digits by assumption. reflexivity.
    + rewrite calculate_length_hhmm. exact Hq.
    + exact Hr.
  - intros E EL el d r H. apply parse_session_Ok in H.
    destruct H as (s_time & a & b & link & rest & href & q & raw & H).
    exists q. tauto.
  - split; [vm_compute; reflexivity|]. split; [lia | vm_compute; reflexivity].
Qed.

(** The theorem at the times ["09:00"] and ["10:20"]. *)
Lemma calculate_length_spec_witness :
  @calculate_length ascii_digits (hhmm 9 0) (hhmm 10 20)
  = Ok (nearest_quotient (exact 80) (exact 60)) /\
  round3 (nearest_quotient (exact 80) (exact 60)) = Ok (hours_rounded 80).
Proof.
  apply (proj1 (proj2 (calculate_length_spec ascii_digits)) 9 0 10 20); lia.
Defined.

(** ** The sign of a quotient *)

Lemma digits2_pos_size (p : positive) : digits2_pos p = Pos.size p.
Proof. induction p; simpl; congruence. Qed.

(** The number of binary digits of a positive number. *)
Lemma Zdigits2_bounds (p : positive) :
  2 ^ (Zdigits2 (Zpos p) - 1) <= Zpos p < 2 ^ Zdigits2 (Zpos p).
Proof.
  unfold Zdigits2. rewrite digits2_pos_size.
  pose proof (Pos.size_gt p) as Hgt. pose proof (Pos.size_le p) as Hle.
  apply Pos2Z.pos_lt_pos in Hgt. apply Pos2Z.pos_le_pos in Hle.
  rewrite Pos2Z.inj_pow in Hgt, Hle.
  assert (Hpow : 2 ^ Zpos (Pos.size p) = 2 * 2 ^ (Zpos (Pos.size p) - 1))
    by (rewrite <- Z.pow_succ_r by lia; f_equal; lia).
  change (Zpos p~0) with (2 * Zpos p) in Hle. lia.
Qed.

Lemma shr_1_m (mrs : shr_record) :
  0 <= shr_m mrs -> shr_m (shr_1 mrs) = shr_m mrs / 2.
Proof.
  destruct mrs as [m r s]. cbn [shr_m shr_1]. intros Hm.
  destruct m as [|[p|p|]|p]; cbn [shr_m]; try lia; try reflexivity.
  - apply Z.div_unique with 1; lia.
  - apply Z.div_unique with 0; lia.
Qed.

Lemma iter_shr_1_m (p : positive) (mrs : shr_record) :
  0 <= shr_m mrs ->
  shr_m (iter_pos shr_1 p mrs) = shr_m mrs / 2 ^ Zpos p.
Proof.
  revert mrs. induction p as [p IH|p IH|]; intros mrs Hm; cbn [iter_pos].
  - assert (H1 : 0 <= shr_m (shr_1 mrs))
      by (rewrite shr_1_m by assumption; apply Z.div_pos; lia).
    assert (H2 : 0 <= shr_m (iter_pos shr_1 p (shr_1 mrs)))
      by (rewrite IH by assumption; apply Z.div_pos; lia).
    rewrite IH, IH, shr_1_m by assumption.
    rewrite !Z.div_div by lia. f_equal.
    change (Zpos p~1) with (2 * Zpos p + 1). replace (2 * Zpos p + 1) with (1 + Zpos p + Zpos p) by lia.
    rewrite !Z.pow_add_r by lia. change (2 ^ 1) with 2. ring.
  - assert (H2 : 0 <= shr_m (iter_pos shr_1 p mrs))
      by (rewrite IH by assumption; apply Z.div_pos; lia).
    rewrite IH, IH by assumption.
    rewrite Z.div_div by lia. f_equal.
    change (Zpos p~0) with (2 * Zpos p). replace (2 * Zpos p) with (Zpos p + Zpos p) by lia.
    rewrite Z.pow_add_r by lia. reflexivity.
  - apply shr_1_m, Hm.
Qed.

Lemma shr_record_of_loc_m (m : Z) (l : location) :
  shr_m (shr_record_of_loc m l) = m.
Proof. destruct l as [|[]]; reflexivity. Qed.

(** [shr_fexp] on a mantissa of 53 digits or more, above the subnormal
    range: the digits beyond the 53rd are shifted out. *)
Lemma shr_fexp_normal (p : positive) (e : Z) (l : location) :
  53 <= Zdigits2 (Zpos p) -> -1074 <= e ->
  exists mrs,
    shr_fexp 53 1024 (Zpos p) e l = (mrs, e + (Zdigits2 (Zpos p) - 53)) /\
    2 ^ 52 <= shr_m mrs < 2 ^ 53.
Proof.
  intros Hd He. pose proof (Zdigits2_bounds p) as Hb.
  set (dg := Zdigits2 (Zpos p)) in *.
  unfold shr_fexp, fexp, emin. fold dg.
  replace (Z.max (dg + e - 53) (3 - 1024 - 53) - e) with (dg - 53) by lia.
  unfold shr. destruct (dg - 53) as [|n|n] eqn:Hn; try lia.
  - eexists. split; [f_equal; lia|]. rewrite shr_record_of_loc_m.
    replace dg with 53 in Hb by lia. exact Hb.
  - eexists. split; [reflexivity|].
    rewrite iter_shr_1_m by (rewrite shr_record_of_loc_m; lia).
    rewrite shr_record_of_loc_m.
    assert (Hdg : dg = 53 + Zpos n) by lia. rewrite Hdg in Hb.
    replace (53 + Zpos n - 1) with (52 + Zpos n) in Hb by lia.
    rewrite !Z.pow_add_r in Hb by lia.
    split.
    + apply Z.div_le_lower_bound; lia.
    + apply Z.div_lt_upper_bound; lia.
Qed.

Lemma round_nearest_even_bounds (m : Z) (l : location) :
  m <= round_nearest_even m l <= m + 1.
Proof.
  unfold round_nearest_even. destruct l as [|[]]; try lia.
  destruct (Z.even m); lia.
Qed.

Lemma Zdigits2_unique (p : positive) (n : Z) :
  2 ^ (n - 1) <= Zpos p < 2 ^ n -> 0 < n -> Zdigits2 (Zpos p) = n.
Proof.
  intros [Hlo Hhi] Hn. pose proof (Zdigits2_bounds p) as [Hlo' Hhi'].
  set (dg := Zdigits2 (Zpos p)) in *.
  assert (Hdg : 0 < dg) by (unfold dg; simpl; lia).
  destruct (Z.lt_trichotomy dg n) as [Hlt|[Heq|Hgt]]; [|exact Heq|].
  - exfalso. assert (2 ^ dg <= 2 ^ (n - 1)) by (apply Z.pow_le_mono_r; lia). lia.
  - exfalso. assert (2 ^ n <= 2 ^ (dg - 1)) by (apply Z.pow_le_mono_r; lia). lia.
Qed.

(** Rounding a quotient of 53 digits or more gives a number of the sign
    given, never a zero and never a NaN, with a mantissa of 53 digits and
    an exponent that is not less than the one of the quotient. *)
Lemma binary_round_aux_normal (s : bool) (p : positive) (e : Z) (l : location) :
  53 <= Zdigits2 (Zpos p) -> -1074 <= e ->
  binary_round_aux 53 1024 s (Zpos p) e l = S754_infinity s \/
  exists m e',
    binary_round_aux 53 1024 s (Zpos p) e l = S754_finite s m e' /\
    2 ^ 52 <= Zpos m /\ e <= e'.
Proof.
  intros Hd He. unfold binary_round_aux.
  destruct (shr_fexp_normal p e l Hd He) as (mrs & -> & Hm).
  pose proof (round_nearest_even_bounds (shr_m mrs) (loc_of_shr_record mrs)) as Hr.
  set (m2 := round_nearest_even (shr_m mrs) (loc_of_shr_record mrs)) in *.
  set (e1 := e + (Zdigits2 (Zpos p) - 53)).
  assert (He1 : -1074 <= e1) by (unfold e1; lia).
  destruct m2 as [|p2|p2] eqn:Hm2; try lia.
  assert (Hd2 : 53 <= Zdigits2 (Zpos p2)).
  { pose proof (Zdigits2_bounds p2) as Hb.
    destruct (Z.le_gt_cases 53 (Zdigits2 (Zpos p2))) as [|Hlt]; [assumption|].
    exfalso. assert (2 ^ Zdigits2 (Zpos p2) <= 2 ^ 52)
      by (apply Z.pow_le_mono_r; lia). lia. }
  destruct (shr_fexp_normal p2 e1 loc_Exact Hd2 He1) as (mrs2 & -> & Hm3).
  destruct (shr_m mrs2) as [|m3|m3] eqn:Hs; try lia.
  destruct (_ <=? _); [right|left; reflexivity].
  exists m3, (e1 + (Zdigits2 (Zpos p2) - 53)).
  split; [reflexivity|]. split; [lia|]. unfold e1. lia.
Qed.

(** The quotient of two positive integers before it is rounded: it has 53
    digits or more. *)
Lemma SFdiv_core_normal (mx my : positive) :
  Zdigits2 (Zpos my) <= 1000 ->
  exists q l,
    SFdiv_core_binary 53 1024 (Zpos mx) 0 (Zpos my) 0
    = (Zpos q, Z.min (Zdigits2 (Zpos mx) - Zdigits2 (Zpos my) - 53) 0, l) /\
    53 <= Zdigits2 (Zpos q).
Proof.
  intros Hy. pose proof (Zdigits2_bounds mx) as Hbx.
  pose proof (Zdigits2_bounds my) as Hby.
  unfold SFdiv_core_binary, fexp, emin.
  set (d1 := Zdigits2 (Zpos mx)) in *. set (d2 := Zdigits2 (Zpos my)) in *.
  assert (Hd1 : 0 < d1) by (unfold d1; simpl; lia).
  assert (Hd2 : 0 < d2) by (unfold d2; simpl; lia).
  cbv zeta.
  replace (Z.min (Z.max (d1 + 0 - (d2 + 0) - 53) (3 - 1024 - 53)) (0 - 0))
    with (Z.min (d1 - d2 - 53) 0) by lia.
  set (e' := Z.min (d1 - d2 - 53) 0).
  set (m' := match 0 - 0 - e' with
             | 0 => Zpos mx
             | Zpos _ => Z.shiftl (Zpos mx) (0 - 0 - e')
             | Zneg _ => 0
             end).
  assert (Hm' : m' = Zpos mx * 2 ^ (- e')).
  { unfold m'. replace (0 - 0 - e') with (- e') by lia.
    destruct (- e') as [|n|n] eqn:Hn; try lia.
    rewrite Z.shiftl_mul_pow2 by lia. reflexivity. }
  assert (Hbig : 2 ^ 52 * Zpos my <= m').
  { rewrite Hm'. unfold e'.
    destruct (Z.le_gt_cases (d1 - d2 - 53) 0) as [Hle|Hgt].
    - rewrite Z.min_l by lia.
      apply Z.le_trans with (2 ^ 52 * 2 ^ d2); [lia|].
      apply Z.le_trans with (2 ^ (d1 - 1) * 2 ^ (- (d1 - d2 - 53)));
        [|apply Z.mul_le_mono_nonneg_r; [apply Z.pow_nonneg; lia | lia]].
      rewrite <- !Z.pow_add_r by lia. apply Z.pow_le_mono_r; lia.
    - rewrite Z.min_r by lia. change (2 ^ (- 0)) with 1. rewrite Z.mul_1_r.
      apply Z.le_trans with (2 ^ 52 * 2 ^ d2); [lia|].
      apply Z.le_trans with (2 ^ (d1 - 1)); [|lia].
      rewrite <- Z.pow_add_r by lia. apply Z.pow_le_mono_r; lia. }
  clearbody m'.
  pose proof (Z.div_eucl_eq m' (Zpos my) ltac:(lia)) as Heq.
  pose proof (Z.mod_pos_bound m' (Zpos my) ltac:(lia)) as Hmod.
  unfold Z.modulo in Hmod.
  destruct (Z.div_eucl m' (Zpos my)) as [q r]. cbn [fst snd] in *.
  assert (Hq : 2 ^ 52 <= q) by nia.
  destruct q as [|q|q]; try lia.
  exists q, (new_location (Zpos my) r). split; [reflexivity|].
  pose proof (Zdigits2_bounds q) as Hb.
  destruct (Z.le_gt_cases 53 (Zdigits2 (Zpos q))) as [|Hlt]; [assumption|].
  exfalso. assert (2 ^ Zdigits2 (Zpos q) <= 2 ^ 52)
    by (apply Z.pow_le_mono_r; lia). lia.
Qed.

(** The binary64 quotient of an integer by a positive integer below
    [2^1000]: it has the sign of the dividend, it is no zero and no NaN, and
    its exponent is [-52 - digits] at least. *)
Lemma nearest_quotient_normal (s : bool) (mx my : positive) :
  Zdigits2 (Zpos my) <= 1000 ->
  nearest_quotient (S754_finite s mx 0) (S754_finite false my 0) = S754_infinity s \/
  exists m e,
    nearest_quotient (S754_finite s mx 0) (S754_finite false my 0) = S754_finite s m e /\
    2 ^ 52 <= Zpos m /\ - (Zdigits2 (Zpos my) + 52) <= e.
Proof.
  intros Hy. unfold nearest_quotient, SFdiv.
  destruct (SFdiv_core_normal mx my Hy) as (q & l & -> & Hq).
  rewrite xorb_false_r.
  assert (Hd1 : 0 < Zdigits2 (Zpos mx)) by (simpl; lia).
  assert (Hd2 : 0 < Zdigits2 (Zpos my)) by (simpl; lia).
  set (e := Z.min _ 0).
  assert (He : -1074 <= e) by (unfold e; lia).
  destruct (binary_round_aux_normal s q e l Hq He) as [->|(m & e' & -> & Hm & He')];
    [left; reflexivity|right].
  exists m, e'. split; [reflexivity|]. split; [assumption|]. unfold e in He'. lia.
Qed.

Lemma thousandths_pos (m : positive) (e : Z) :
  2 ^ 52 <= Zpos m -> -58 <= e -> 0 < thousandths m e.
Proof.
  intros Hm He. unfold thousandths.
  destruct (Z.leb_spec 0 e) as [Hpos|Hneg].
  - rewrite Z.shiftl_mul_pow2 by assumption.
    apply Z.mul_pos_pos; [lia | apply Z.pow_pos_nonneg; lia].
  - unfold round_half_even_pow2. cbv zeta.
    rewrite Z.shiftr_div_pow2 by lia.
    assert (Hq : 1 <= Zpos m * 1000 / 2 ^ (- e)).
    { apply Z.div_le_lower_bound; [apply Z.pow_pos_nonneg; lia|].
      rewrite Z.mul_1_r.
      apply Z.le_trans with (2 ^ 58); [apply Z.pow_le_mono_r; lia|].
      change (2 ^ 58) with (2 ^ 52 * 64). lia. }
    destruct (_ ?= _); [destruct (Z.even _)| |]; lia.
Qed.

(** [round(d / 60, 3)] is a zero for [d = 0] and otherwise a finite number
    with the sign of [d], whatever the size of [d]. *)
Lemma rounded_quotient_shape (d : Z) (q r : spec_float) :
  true_div d 60 = Ok q -> round3 q = Ok r ->
  match d with
  | Z0 => r = S754_zero false
  | Zpos _ => exists m e, r = S754_finite false m e
  | Zneg _ => exists m e, r = S754_finite true m e
  end.
Proof.
  assert (Hsign : forall (s : bool) (p : positive),
             true_div (if s then Zneg p else Zpos p) 60 = Ok q ->
             round3 q = Ok r -> exists m e, r = S754_finite s m e).
  { intros s p Hq Hr.
    assert (Hx : exact (if s then Zneg p else Zpos p) = S754_finite s p 0)
      by (destruct s; reflexivity).
    unfold true_div in Hq. cbn [Z.eqb] in Hq. rewrite Hx in Hq.
    change (exact 60) with (S754_finite false 60 0) in Hq.
    destruct (nearest_quotient_normal s p 60 ltac:(cbn; lia))
      as [Hinf|(m & e & Hfin & Hm & He)].
    - rewrite Hinf in Hq. discriminate.
    - rewrite Hfin in Hq. injection Hq as <-.
      cbn [Zdigits2 digits2_pos Pos.succ] in He.
      pose proof (thousandths_pos m e Hm ltac:(lia)) as Ht.
      unfold round3 in Hr.
      destruct (thousandths m e) as [|t|t]; try lia. cbn [signed] in Hr.
      change (exact 1000) with (S754_finite false 1000 0) in Hr.
      destruct (nearest_quotient_normal s t 1000 ltac:(cbn; lia))
        as [Hinf|(m' & e' & Hfin' & _)].
      + rewrite Hinf in Hr. discriminate.
      + rewrite Hfin' in Hr. injection Hr as <-. eauto. }
  destruct d as [|p|p]; intros Hq Hr.
  - unfold true_div in Hq. cbn in Hq. injection Hq as <-.
    cbn in Hr. injection Hr as <-. reflexivity.
  - apply (Hsign false p Hq Hr).
  - apply (Hsign true p Hq Hr).
Qed.

Lemma rounded_quotient_sign (d : Z) (q r : spec_float) :
  true_div d 60 = Ok q -> round3 q = Ok r ->
  float_negative r = (d <? 0) /\ float_nonnegative r = (0 <=? d).
Proof.
  intros Hq Hr. pose proof (rounded_quotient_shape d q r Hq Hr) as H.
  destruct d as [|p|p]; [subst r|destruct H as (m & e & ->)..];
    split; reflexivity.
Qed.

(** The stored length of the session announced from 10 am to 9 am is
    [-1.0]: a record of [parse_session] with a negative length. *)
Lemma length_in_hours_negative :
  exists r,
    @parse_session ascii_digits node no_page backwards_session (lit "2019-03-06") = Ok r /\
    length_in_hours r = minus_one /\
    is_fraction minus_one (-1) 1 /\
    float_negative (length_in_hours r) = true.
Proof.
  eexists. split; [vm_compute; reflexivity|].
  split; [vm_compute; reflexivity|].
  split; [split; [lia | vm_compute; reflexivity] | vm_compute; reflexivity].
Qed.

(** C9 (amended): the stored length of a record of [parse_session] is the
    difference of the minutes of its end and start times divided by 60 and
    rounded to three decimals; whatever the times are, it is negative
    exactly when the end time is earlier than the start time and
    non-negative otherwise, and for times of two digits each it is the
    binary64 number nearest to the three-place decimal nearest to the
    quotient. *)
Theorem length_in_hours_spec (U : UnicodeData) (E : Type) (EL : Element E)
        (el : E) (d : str) (r : session) :
  parse_session el d = Ok r ->
  exists h m h' m' q,
    time_start r = hhmm h m /\ time_end r = hhmm h' m' /\
    true_div (minutes h' m' - minutes h m) 60 = Ok q /\
    round3 q = Ok (length_in_hours r) /\
    (float_negative (length_in_hours r) = true <-> minutes h' m' < minutes h m) /\
    (float_nonnegative (length_in_hours r) = true <-> minutes h m <= minutes h' m') /\
    (0 <= h <= 99 -> 0 <= m <= 99 -> 0 <= h' <= 99 -> 0 <= m' <= 99 ->
     length_in_hours r = hours_rounded (minutes h' m' - minutes h m)).
Proof.
  intros H. apply parse_session_Ok in H.
  destruct H as (s_time & a & b & link & rest & href & q & raw & _ & _ & Hs & He
                 & _ & _ & Hq & Hr & _).
  apply convert_time_Ok in Hs, He.
  destruct Hs as (_ & _ & h & m & _ & _ & _ & Hs).
  destruct He as (_ & _ & h' & m' & _ & _ & _ & He).
  fold (hhmm h m) in Hs. fold (hhmm h' m') in He.
  exists h, m, h', m', q. rewrite Hs, He in *.
  rewrite calculate_length_hhmm in Hq.
  split; [reflexivity|]. split; [reflexivity|]. split; [assumption|].
  split; [assumption|].
  destruct (rounded_quotient_sign _ _ _ Hq Hr) as [Hneg Hpos].
  split; [rewrite Hneg; lia|]. split; [rewrite Hpos; lia|].
  intros Hh Hm Hh' Hm'.
  assert (Hd : -6039 <= minutes h' m' - minutes h m <= 6039)
    by (unfold minutes; lia).
  destruct (length_check_elim _ (length_check_all _ Hd)) as (Hq' & Hr' & _).
  assert (Heq : q = nearest_quotient (exact (minutes h' m' - minutes h m)) (exact 60))
    by congruence.
  subst q. congruence.
Qed.

(** The theorem at a session from 9 am to 10:20 am. *)
Lemma length_in_hours_spec_witness :
  exists h m h' m' q r,
    @parse_session ascii_digits node no_page plain_session (lit "2019-03-06") = Ok r /\
    time_start r = hhmm h m /\ time_end r = hhmm h' m' /\
    true_div (minutes h' m' - minutes h m) 60 = Ok q /\
    round3 q = Ok (length_in_hours r).
Proof.
  destruct (@parse_session ascii_digits node no_page plain_session (lit "2019-03-06"))
    as [r|e] eqn:Hrun; [|vm_compute in Hrun; discriminate Hrun].
  destruct (length_in_hours_spec ascii_digits node no_page plain_session
              (lit "2019-03-06") r Hrun)
    as (h & m & h' & m' & q & Hs & He & Hq & Hr & _).
  exists h, m, h', m', q, r. repeat split; assumption || reflexivity.
Defined.

(** ** The event identifier *)

Lemma slice_last_three {A} (pre : list A) (a b c : A) :
  slice (pre ++ [a; b; c]) (-3) (-1) = [a; b].
Proof.
  unfold slice, slice_index. rewrite length_app. cbn [length].
  change (-3 <? 0) with true. change (-1 <? 0) with true. cbn iota.
  replace (Z.to_nat (Z.max (-1 + Z.of_nat (length pre + 3)) 0
                     - Z.max (-3 + Z.of_nat (length pre + 3)) 0)) with 2%nat by lia.
  replace (Z.to_nat (Z.max (-3 + Z.of_nat (length pre + 3)) 0))
    with (length pre + 0)%nat by lia.
  rewrite skipn_app, skipn_all2 by lia.
  replace (length pre + 0 - length pre)%nat with O by lia. reflexivity.
Qed.

Section EventId.
Context {U : UnicodeData} {E : Type} {EL : Element E}.

Lemma unpack2_map_convert_Raise (l : list str) (e : exn) :
  unpack2_map convert_time l = Raise e -> exists why, e = ValueError why.
Proof.
  destruct l as [|a [|b [|c l]]]; simpl; intros H.
  - injection H as <-. eauto.
  - destruct (convert_time a) eqn:Ha; simpl in H.
    + injection H as <-. eauto.
    + injection H as <-. eapply convert_time_Raise; eassumption.
  - destruct (convert_time a) eqn:Ha; simpl in H;
      [|injection H as <-; eapply convert_time_Raise; eassumption].
    destruct (convert_time b) eqn:Hb; simpl in H; [discriminate|].
    injection H as <-. eapply convert_time_Raise; eassumption.
  - destruct (convert_time a) eqn:Ha; simpl in H;
      [|injection H as <-; eapply convert_time_Raise; eassumption].
    destruct (convert_time b) eqn:Hb; simpl in H;
      [|injection H as <-; eapply convert_time_Raise; eassumption].
    destruct (convert_time c) eqn:Hc; simpl in H;
      [|injection H as <-; eapply convert_time_Raise; eassumption].
    injection H as <-. eauto.
Qed.

Lemma true_div_Raise (a b : Z) (e : exn) :
  true_div a b = Raise e -> e = ZeroDivisionError \/ e = OverflowError.
Proof.
  unfold true_div. destruct (b =? 0); [intros [= <-]; auto|].
  destruct (nearest_quotient _ _); intros [= <-]; auto.
Qed.

Lemma round3_Raise (q : spec_float) (e : exn) :
  round3 q = Raise e -> e = OverflowError.
Proof.
  unfold round3. destruct q; try discriminate.
  destruct (nearest_quotient _ _); intros [= <-]; auto.
Qed.

Lemma calculate_length_Raise (s t : str) (e : exn) :
  calculate_length s t = Raise e -> e <> IndexError.
Proof.
  unfold calculate_length.
  destruct (mapM int (split s (lit ":"))) as [l|e'] eqn:Hs; cbn [bind].
  - destruct l as [|a [|b [|c l]]]; try (intros [= <-]; cbv; discriminate).
    destruct (mapM int (split t (lit ":"))) as [l'|e'] eqn:Ht; cbn [bind].
    + destruct l' as [|a' [|b' [|c' l']]]; try (intros [= <-]; cbv; discriminate).
      intros H. apply true_div_Raise in H. destruct H; subst; discriminate.
    + intros [= <-]. apply mapM_int_Raise in Ht. destruct Ht as [? ->].
      discriminate.
  - intros [= <-]. apply mapM_int_Raise in Hs. destruct Hs as [? ->].
    discriminate.
Qed.

(** [parse_session] raises [IndexError] only for want of a title link. *)
Lemma parse_session_IndexError (el : E) (d : str) :
  parse_session el d = Raise IndexError ->
  cssselect el (lit ".event-title a") = Ok [].
Proof.
  assert (Htext : forall sel, get_text el sel <> Raise IndexError).
  { intros sel H. apply get_text_Raise in H. destruct H; discriminate. }
  unfold parse_session.
  destruct (get_text el (lit ".event-speakers")) as [raw|e] eqn:Hraw; cbn [bind];
    [|intros [= ->]; exfalso; eapply Htext; eassumption].
  destruct (get_text el (lit ".event-meta p")) as [[t|]|e] eqn:Htime; cbn [bind];
    [|discriminate|intros [= ->]; exfalso; eapply Htext; eassumption].
  destruct (unpack2_map convert_time _) as [[ts te]|e] eqn:Ht; cbn [bind].
  2: { intros [= ->]. apply unpack2_map_convert_Raise in Ht.
       destruct Ht; discriminate. }
  destruct (cssselect el (lit ".event-title a")) as [[|link rest]|e] eqn:Hsel;
    cbn [first_item bind]; [reflexivity| |].
  2: { intros [= ->]. apply cssselect_Raise in Hsel. destruct Hsel; discriminate. }
  destruct (attrib link (lit "href")); [|discriminate]. cbn [bind].
  destruct (get_text el (lit ".event-title")) as [s_title|e] eqn:Htitle; cbn [bind];
    [|intros [= ->]; exfalso; eapply Htext; eassumption].
  destruct (get_text el (lit ".event-type")) as [s_type|e] eqn:Htype; cbn [bind];
    [|intros [= ->]; exfalso; eapply Htext; eassumption].
  destruct (get_text el (lit ".event-content p:not(.event-speakers)"))
    as [s_description|e] eqn:Hdescription; cbn [bind];
    [|intros [= ->]; exfalso; eapply Htext; eassumption].
  destruct (calculate_length ts te) as [q|e] eqn:Hq; cbn [bind].
  2: { intros [= ->]. apply calculate_length_Raise in Hq. congruence. }
  destruct (round3 q) as [x|e] eqn:Hr; cbn [bind].
  2: { intros [= ->]. apply round3_Raise in Hr. discriminate. }
  destruct (get_text el (lit ".event-meta h4")) as [s_room|e] eqn:Hroom; cbn [bind];
    [discriminate|intros [= ->]; exfalso; eapply Htext; eassumption].
Qed.

End EventId.

(** The link of this session has the two segments [a] and [b]; its record
    is produced, with the event identifier [a], and no [IndexError]. *)
Lemma event_id_short_href :
  exists r,
    @parse_session ascii_digits node no_page short_href_session (lit "2019-03-06") = Ok r /\
    event_id r = lit "a".
Proof. eexists. split; vm_compute; reflexivity. Qed.

(** C4 (amended): the event identifier of a record of [parse_session] is
    the slice [[-3:-1]] of the segments of the title link's [href] joined
    with a slash: the third-from-last and second-from-last segments when
    there are three segments or more, the first segment alone when there are
    two, the empty text when there is one.  A short [href] raises nothing;
    [parse_session] raises [IndexError] only when there is no title link. *)
Theorem event_id_spec (U : UnicodeData) (E : Type) (EL : Element E) :
  (forall (el : E) (d : str) (r : session),
      parse_session el d = Ok r ->
      exists link rest href,
        cssselect el (lit ".event-title a") = Ok (link :: rest) /\
        attrib link (lit "href") = Some href /\
        event_id r = join (lit "/") (slice (split href (lit "/")) (-3) (-1)) /\
        (forall pre a b c, split href (lit "/") = pre ++ [a; b; c] ->
                           event_id r = a ++ lit "/" ++ b) /\
        (forall a b, split href (lit "/") = [a; b] -> event_id r = a) /\
        (forall a, split href (lit "/") = [a] -> event_id r = [])) /\
  (forall (el : E) (d : str),
      parse_session el d = Raise IndexError ->
      cssselect el (lit ".event-title a") = Ok []).
Proof.
  split; [|apply @parse_session_IndexError].
  intros el d r H. apply parse_session_Ok in H.
  destruct H as (s_time & a & b & link & rest & href & q & raw & _ & _ & _ & _
                 & Hlink & Hhref & _ & _ & _ & _ & _ & Hid & _).
  exists link, rest, href.
  split; [assumption|]. split; [assumption|]. split; [assumption|].
  rewrite Hid. split; [|split].
  - intros pre x y z ->. rewrite slice_last_three. reflexivity.
  - intros x y ->. reflexivity.
  - intros x ->. reflexivity.
Qed.

(** The theorem at a session whose link is [/events/conference/3433/4109/]. *)
Lemma event_id_spec_witness :
  exists r,
    @parse_session ascii_digits node no_page plain_session (lit "2019-03-06") = Ok r /\
    event_id r = lit "3433/4109".
Proof.
  destruct (@parse_session ascii_digits node no_page plain_session (lit "2019-03-06"))
    as [r|e] eqn:Hrun; [|vm_compute in Hrun; discriminate Hrun].
  exists r. split; [reflexivity|].
  destruct (proj1 (event_id_spec ascii_digits node no_page) plain_session
              (lit "2019-03-06") r Hrun)
    as (link & rest & href & Hsel & Hhref & _ & Hlong & _).
  vm_compute in Hsel. injection Hsel as <- <-.
  vm_compute in Hhref. injection Hhref as <-.
  apply (Hlong [[]; lit "events"; lit "conference"] (lit "3433") (lit "4109") []).
  vm_compute. reflexivity.
Defined.

(** ** The speakers *)

Lemma startswith_app (s p : str) :
  startswith s p = true -> exists t, s = p ++ t.
Proof.
  revert s; induction p as [|x p IH]; intros s; simpl.
  - eauto.
  - destruct s as [|y s]; [discriminate|].
    rewrite andb_true_iff, Z.eqb_eq. intros [-> H].
    destruct (IH s H) as [t ->]. eauto.
Qed.

Lemma lstrip_app_space (ws rest : str) :
  all_space ws -> no_leading_space rest -> lstrip (ws ++ rest) = rest.
Proof.
  intros Hws Hrest. induction Hws as [|c ws Hc _ IH]; simpl.
  - destruct rest as [|c rest]; [reflexivity|]. simpl in *. rewrite Hrest.
    reflexivity.
  - rewrite Hc. exact IH.
Qed.

Lemma lstrip_split (s : str) :
  exists ws, s = ws ++ lstrip s /\ all_space ws /\ no_leading_space (lstrip s).
Proof.
  induction s as [|c s (ws & Heq & Hws & Hrest)]; simpl.
  - exists []. repeat split. constructor.
  - destruct (isspace c) eqn:Hc.
    + exists (c :: ws). simpl. repeat split; [congruence | | assumption].
      constructor; assumption.
    + exists []. repeat split; [constructor | exact Hc].
Qed.

(** The label and the white space after it are removed. *)
Lemma sub_speaker_label_strips (label ws rest : str) :
  is_label label -> ws <> [] -> all_space ws -> no_leading_space rest ->
  sub_speaker_label (label ++ ws ++ rest) = rest.
Proof.
  intros Hl Hne Hws Hrest. destruct ws as [|w ws]; [congruence|].
  inversion Hws as [|? ? Hw Hws']; subst.
  unfold sub_speaker_label, match_speaker_label.
  destruct Hl as [-> | ->]; unlit; cbn [app startswith skipn];
    rewrite ?Z.eqb_refl; cbn [andb Z.eqb Pos.eqb]; rewrite Hw;
    rewrite lstrip_app_space by assumption; reflexivity.
Qed.

(** A text is changed only when it begins with a label and white space. *)
Lemma match_speaker_label_Some (s rest : str) :
  match_speaker_label s = Some rest ->
  exists label ws,
    s = label ++ ws ++ rest /\ is_label label /\ ws <> [] /\ all_space ws /\
    no_leading_space rest.
Proof.
  unfold match_speaker_label.
  destruct (startswith s (lit "Speaker")) eqn:Hp; [|discriminate].
  apply startswith_app in Hp. destruct Hp as [t ->].
  unlit. cbn [app skipn].
  assert (Hcolon : forall pre t',
             match t' with
             | c :: w :: r' => if (c =? 58) && isspace w then Some (lstrip r') else None
             | _ => None
             end = Some rest ->
             exists ws, pre ++ t' = (pre ++ [58]) ++ ws ++ rest /\ ws <> [] /\
                        all_space ws /\ no_leading_space rest).
  { intros pre [|c [|w r']]; try discriminate.
    destruct (Z.eqb_spec c 58) as [->|]; [|discriminate].
    destruct (isspace w) eqn:Hw; [|discriminate]. cbn [andb]. intros [= <-].
    destruct (lstrip_split r') as (ws & Heq & Hws & Hrest).
    exists (w :: ws). repeat split; try assumption; try discriminate.
    - rewrite <- app_assoc. cbn [app]. rewrite <- Heq. reflexivity.
    - constructor; assumption. }
  destruct t as [|c t]; [discriminate|].
  destruct (Z.eqb_spec c 115) as [->|Hc]; intros H.
  - destruct (Hcolon (lit "Speakers") t H) as (ws & Heq & Hne & Hws & Hrest).
    exists (lit "Speakers:"), ws.
    split; [exact Heq|]. split; [right; reflexivity|]. auto.
  - destruct (Hcolon (lit "Speaker") (c :: t) H) as (ws & Heq & Hne & Hws & Hrest).
    exists (lit "Speaker:"), ws.
    split; [exact Heq|]. split; [left; reflexivity|]. auto.
Qed.

Lemma join_nil (sep : str) (l : list str) :
  Forall (fun t => t <> []) l -> join sep l = [] -> l = [].
Proof.
  intros Hl. destruct l as [|p l]; [reflexivity|].
  inversion Hl as [|? ? Hp _]; subst. simpl.
  destruct l; intros H; [congruence|].
  apply app_eq_nil in H. tauto.
Qed.

Section Speakers.
Context {E : Type} {EL : Element E}.

(** [get_text] gives [None] exactly when no matching element has text
    left after stripping. *)
Lemma get_text_None (el : E) (sel : str) (matches : list E) :
  cssselect el sel = Ok matches ->
  (get_text el sel = Ok None <->
   Forall (fun m => strip (text_content m) = []) matches).
Proof.
  intros Hsel. unfold get_text. rewrite Hsel. cbn [bind]. cbv zeta.
  set (keep := fun t : str => negb (length t =? 0)%nat).
  assert (Hkeep : forall t, keep t = true <-> t <> []).
  { intros [|c t]; unfold keep; simpl; split; congruence. }
  assert (Hall : forall l : list E,
             filter keep (map (fun m => strip (text_content m)) l) = [] <->
             Forall (fun m => strip (text_content m) = []) l).
  { induction l as [|m l IH]; simpl.
    - split; [constructor | reflexivity].
    - destruct (keep (strip (text_content m))) eqn:Hk.
      + split; [discriminate|]. intros H. inversion H as [|? ? Hm _]; subst.
        apply Hkeep in Hk. contradiction.
      + rewrite IH. split; intros H.
        * constructor; [|assumption].
          destruct (strip (text_content m)) eqn:Hs; [reflexivity|].
          assert (keep (z :: s) = true) by (apply Hkeep; discriminate).
          congruence.
        * inversion H; assumption. }
  rewrite <- Hall.
  destruct (join _ _) as [|c j] eqn:Hj.
  - split; [intros _|reflexivity]. eapply join_nil; [|exact Hj].
    apply Forall_forall. intros t Ht. apply filter_In in Ht. apply Hkeep, Ht.
  - split; [discriminate|]. intros H.
    assert (Hj' : join [10; 10]
                    (filter keep (map (fun m => strip (text_content m))
                                      matches)) = c :: j) by exact Hj.
    rewrite H in Hj'. discriminate.
Qed.

(** The matches of an element on which [get_text] returned. *)
Lemma get_text_matches (el : E) (sel : str) (v : value) :
  get_text el sel = Ok v -> forall sel', cssselect el sel' = Ok (matching el sel').
Proof.
  intros H sel'. apply get_text_Ok_element in H. apply cssselect_Ok. auto.
Qed.

End Speakers.

(** With two blanks after the label, both blanks are removed: the record
    holds ["Ann, Bob"], not the text that is left when the label with its
    single blank is removed. *)
Lemma speakers_two_blanks :
  exists r,
    @parse_session ascii_digits node no_page two_blanks_session (lit "2019-03-06") = Ok r /\
    @get_text node no_page two_blanks_session (lit ".event-speakers")
    = Ok (Some (lit "Speakers:  Ann, Bob")) /\
    speakers r = Some (lit "Ann, Bob") /\
    strip_label_literal (lit "Speakers:  Ann, Bob") = lit " Ann, Bob" /\
    speakers r <> Some (strip_label_literal (lit "Speakers:  Ann, Bob")).
Proof.
  eexists. split; [vm_compute; reflexivity|].
  repeat split; try (vm_compute; reflexivity).
  vm_compute. discriminate.
Qed.

(** C8 (amended): the speakers field of a record of [parse_session] is
    [None] exactly when no speakers element has text left after stripping;
    otherwise it is the raw speakers text, from which a leading [Speaker:]
    or [Speakers:] is removed together with the whole run of white space
    after it, provided there is at least one white-space character there;
    any other text is kept as it is, and so is a text that begins with the
    lower-case [speakers: ]. *)
Theorem speakers_spec (U : UnicodeData) (E : Type) (EL : Element E) :
  (forall (el : E) (d : str) (r : session),
      parse_session el d = Ok r ->
      exists matches,
        cssselect el (lit ".event-speakers") = Ok matches /\
        (speakers r = None <->
         Forall (fun m => strip (text_content m) = []) matches) /\
        (forall raw,
          get_text el (lit ".event-speakers") = Ok (Some raw) ->
          (forall label ws rest,
              is_label label -> ws <> [] -> all_space ws ->
              no_leading_space rest -> raw = label ++ ws ++ rest ->
              speakers r = Some rest) /\
          ((forall label ws rest,
               is_label label -> ws <> [] -> all_space ws ->
               raw <> label ++ ws ++ rest) ->
           speakers r = Some raw))) /\
  sub_speaker_label (lit "speakers: Ann") = lit "speakers: Ann" /\
  sub_speaker_label (lit "Speaker: Ann") = lit "Ann" /\
  sub_speaker_label (lit "Speakers: Ann, Bob") = lit "Ann, Bob".
Proof.
  split; [|repeat split; vm_compute; reflexivity].
  intros el d r H. apply parse_session_Ok in H.
  destruct H as (s_time & a & b & link & links & href & q & raw0 & _ & _ & _ & _
                 & _ & _ & _ & _ & _ & (Hraw0 & Hsp) & _).
  exists (matching el (lit ".event-speakers")).
  pose proof (get_text_matches _ _ _ Hraw0 (lit ".event-speakers")) as Hsel.
  split; [exact Hsel|].
  rewrite Hsp. split.
  - rewrite <- (get_text_None _ _ _ Hsel), Hraw0.
    destruct raw0 as [s|]; simpl; split; intros Heq;
      solve [reflexivity | discriminate Heq | injection Heq; discriminate].
  - intros raw Hraw. rewrite Hraw in Hraw0. injection Hraw0 as <-. simpl. split.
    + intros label ws rest Hl Hne Hws Hrest ->.
      rewrite sub_speaker_label_strips by assumption. reflexivity.
    + intros Hno. unfold sub_speaker_label.
      destruct (match_speaker_label raw) as [rest|] eqn:Hm; [|reflexivity].
      apply match_speaker_label_Some in Hm.
      destruct Hm as (label & ws & Heq & Hl & Hne & Hws & _).
      exfalso. exact (Hno label ws rest Hl Hne Hws Heq).
Qed.

(** The theorem at a session whose speakers text is ["Speaker: Ann"]. *)
Lemma speakers_spec_witness :
  exists r,
    @parse_session ascii_digits node no_page plain_session (lit "2019-03-06") = Ok r /\
    speakers r = Some (lit "Ann").
Proof.
  destruct (@parse_session ascii_digits node no_page plain_session (lit "2019-03-06"))
    as [r|e] eqn:Hrun; [|vm_compute in Hrun; discriminate Hrun].
  exists r. split; [reflexivity|].
  destruct (proj1 (speakers_spec ascii_digits node no_page) plain_session
              (lit "2019-03-06") r Hrun) as (matches & _ & _ & Hraw).
  destruct (Hraw (lit "Speaker: Ann")) as (Hstrip & _); [vm_compute; reflexivity|].
  apply (Hstrip (lit "Speaker:") (lit " ") (lit "Ann")).
  - left; reflexivity.
  - discriminate.
  - repeat constructor.
  - reflexivity.
  - reflexivity.
Defined.

(** ** [fix_encoding] *)

Lemma has_match_b_cons (c t : Z) (s : str) :
  has_match_b (c :: t :: s) = (is_lead c && is_trail t) || has_match_b (t :: s).
Proof. reflexivity. Qed.

Lemma has_match_b_iff (text : str) : has_match_b text = true <-> has_match text.
Proof.
  split.
  - induction text as [|c text IH]; [discriminate|].
    destruct text as [|t s]; [discriminate|].
    rewrite has_match_b_cons, orb_true_iff, andb_true_iff.
    intros [[Hc Ht]|H].
    + exists [], [c; t], s. split; [reflexivity|].
      exists c, [t]. repeat split; try assumption; try discriminate.
      repeat constructor. assumption.
    + destruct (IH H) as (pre & m & post & Heq & Hm).
      exists (c :: pre), m, post. rewrite Heq. split; [reflexivity | assumption].
  - intros (pre & m & post & -> & c & run & -> & Hc & Hne & Hrun).
    destruct run as [|t run]; [congruence|].
    inversion Hrun as [|? ? Ht _]; subst.
    induction pre as [|x pre IH].
    + cbn [app]. rewrite has_match_b_cons, Hc, Ht. reflexivity.
    + cbn [app] in *. destruct (pre ++ c :: t :: run ++ post) as [|y s] eqn:Hs.
      * destruct pre; discriminate.
      * rewrite has_match_b_cons, IH. apply orb_true_r.
Qed.

Lemma has_match_b_false (text : str) : ~ has_match text -> has_match_b text = false.
Proof.
  intros H. destruct (has_match_b text) eqn:Hb; [|reflexivity].
  exfalso. apply H, has_match_b_iff, Hb.
Qed.

Lemma trail_run_no_trail (s : str) : no_leading_trail s -> trail_run s = [].
Proof. destruct s as [|c s]; simpl; [reflexivity|]. intros ->. reflexivity. Qed.

(** The substitution passes over a prefix without a match, when what
    follows does not begin with a trail character. *)
Lemma sub_fix_prefix (pre rest : str) :
  has_match_b pre = false -> no_leading_trail rest ->
  sub_fix 0 (pre ++ rest) = (r <- sub_fix 0 rest ;; Ok (pre ++ r)).
Proof.
  intros Hpre Hrest. induction pre as [|c pre IH].
  - cbn [app]. destruct (sub_fix 0 rest); reflexivity.
  - cbn [app sub_fix].
    assert (Hrun : is_lead c && negb (length (trail_run (pre ++ rest)) =? 0)%nat
                   = false).
    { destruct pre as [|t pre].
      - cbn [app]. rewrite trail_run_no_trail by assumption. apply andb_false_r.
      - rewrite has_match_b_cons in Hpre. apply orb_false_iff in Hpre.
        destruct Hpre as [Hct _]. cbn [app trail_run].
        destruct (is_lead c); [|reflexivity]. cbn [andb] in Hct. rewrite Hct.
        reflexivity. }
    rewrite Hrun. rewrite IH.
    + destruct (sub_fix 0 rest); reflexivity.
    + destruct pre as [|t pre]; [reflexivity|].
      rewrite has_match_b_cons in Hpre. apply orb_false_iff in Hpre. tauto.
Qed.

Lemma sub_fix_no_match (text : str) :
  has_match_b text = false -> sub_fix 0 text = Ok text.
Proof.
  intros H. rewrite <- (app_nil_r text) at 1.
  rewrite sub_fix_prefix by (assumption || exact I).
  cbn [sub_fix bind]. rewrite app_nil_r. reflexivity.
Qed.

Lemma utf8_decode_ascii (b : bytes) :
  Forall (fun x => 0 <= x < 128) b -> utf8_decode b = Ok b.
Proof.
  unfold utf8_decode. induction 1 as [|x b Hx _ IH]; [reflexivity|].
  cbn [utf8_scan]. unfold in_range at 1.
  destruct (Z.leb_spec 0 x); [|lia]. destruct (Z.leb_spec x 127); [|lia].
  cbn [andb]. rewrite IH. reflexivity.
Qed.

Lemma has_match_b_ascii (b : str) :
  Forall (fun x => 0 <= x < 128) b -> has_match_b b = false.
Proof.
  induction 1 as [|x b Hx Hb IH]; [reflexivity|].
  destruct b as [|t b]; [reflexivity|].
  rewrite has_match_b_cons, IH.
  unfold is_lead, in_range. destruct (Z.leb_spec 194 x); [lia | reflexivity].
Qed.

(** C7: the substitution of [fix_encoding] leaves a text unchanged when no
    part of it matches the pattern (a character in [C2 .. F4] followed by
    one or more characters in [80 .. BF]); on such a text it is therefore
    idempotent, and so is [fix_encoding] on the bytes of plain ASCII text.
    Where the two bytes [C3 A9] of [é] were stored as two Latin-1
    characters, the substitution puts the single character [é] (code
    point [E9]). *)
Theorem fix_encoding_spec :
  (forall text, ~ has_match text -> sub_fix 0 text = Ok text) /\
  (forall text r, ~ has_match text -> sub_fix 0 text = Ok r -> sub_fix 0 r = Ok r) /\
  (forall b text, utf8_decode b = Ok text -> ~ has_match text ->
                  fix_encoding b = Ok text) /\
  (forall b, Forall (fun x => 0 <= x < 128) b ->
             fix_encoding b = Ok b /\
             (r <- fix_encoding b ;; fix_encoding r) = Ok b) /\
  (forall pre post,
      ~ has_match pre -> ~ has_match post -> no_leading_trail post ->
      sub_fix 0 (pre ++ [0xC3; 0xA9] ++ post) = Ok (pre ++ [0xE9] ++ post)) /\
  fix_encoding cafe_mis_stored = Ok [0x63; 0x61; 0x66; 0xE9].
Proof.
  assert (H1 : forall text, ~ has_match text -> sub_fix 0 text = Ok text).
  { intros text H. apply sub_fix_no_match, has_match_b_false, H. }
  assert (Hascii : forall b, Forall (fun x => 0 <= x < 128) b -> fix_encoding b = Ok b).
  { intros b Hb. unfold fix_encoding. rewrite utf8_decode_ascii by assumption.
    cbn [bind]. apply sub_fix_no_match, has_match_b_ascii, Hb. }
  split; [exact H1|]. split; [|split; [|split; [|split]]].
  - intros text r Hno Hr. rewrite (H1 text Hno) in Hr. injection Hr as <-.
    apply H1, Hno.
  - intros b text Hb Hno. unfold fix_encoding. rewrite Hb. cbn [bind].
    apply H1, Hno.
  - intros b Hb. split; [apply Hascii, Hb|].
    rewrite (Hascii b Hb). cbn [bind]. apply Hascii, Hb.
  - intros pre post Hpre Hpost Hlead.
    rewrite sub_fix_prefix by (apply has_match_b_false, Hpre || reflexivity).
    cbn [app sub_fix trail_run].
    change (is_trail 169) with true. cbn iota.
    rewrite (trail_run_no_trail post Hlead).
    change (is_lead 195 && negb (length [169] =? 0)%nat) with true. cbn iota.
    change (fix_ [195; 169]) with (Ok (A:=str) [233]). cbn [bind length sub_fix].
    rewrite (H1 post Hpost). reflexivity.
  - vm_compute. reflexivity.
Qed.

(** The theorem at the text [ab] followed by the mis-stored [é] and [!]. *)
Lemma fix_encoding_spec_witness :
  sub_fix 0 ([0x61; 0x62] ++ [0xC3; 0xA9] ++ [0x21]) = Ok ([0x61; 0x62] ++ [0xE9] ++ [0x21]).
Proof.
  apply (proj1 (proj2 (proj2 (proj2 (proj2 fix_encoding_spec))))).
  - intros H. apply has_match_b_iff in H. discriminate H.
  - intros H. apply has_match_b_iff in H. discriminate H.
  - reflexivity.
Defined.

(** ** [sorted] *)

Section SortedFacts.
Context {A K : Type} (key : A -> K) (lt : K -> K -> result bool).

Lemma insert_Ok (x : A) (l r : list A) :
  insert key lt x l = Ok r ->
  r = x :: l \/
  exists y l' r', l = y :: l' /\ r = y :: r' /\
                  lt (key y) (key x) = Ok true /\ insert key lt x l' = Ok r'.
Proof.
  destruct l as [|y l]; simpl; intros H.
  - injection H as <-. auto.
  - destruct (lt (key y) (key x)) as [[|]|e] eqn:Hc; cbn [bind] in H;
      [| |discriminate].
    + destruct (insert key lt x l) as [r'|e] eqn:Hins; cbn [bind] in H;
        [|discriminate].
      injection H as <-. right. exists y, l, r'.
      repeat split; assumption || reflexivity.
    + injection H as <-. auto.
Qed.

Lemma insert_Permutation (x : A) (l r : list A) :
  insert key lt x l = Ok r -> Permutation (x :: l) r.
Proof.
  revert r; induction l as [|y l IH]; intros r H.
  - simpl in H. injection H as <-. reflexivity.
  - apply insert_Ok in H.
    destruct H as [->|(y' & l' & r' & [= <- <-] & -> & _ & Hins)]; [reflexivity|].
    rewrite perm_swap. constructor. apply IH, Hins.
Qed.

Lemma sorted_Permutation (l r : list A) :
  sorted key lt l = Ok r -> Permutation l r.
Proof.
  revert r; induction l as [|x l IH]; simpl; intros r H.
  - injection H as <-. constructor.
  - inv_bind. apply insert_Permutation in H.
    rewrite <- H. constructor. apply IH, Ha.
Qed.

(** The output is ordered by any relation that the answers of [lt]
    establish. *)
Section Order.
Context (R : A -> A -> Prop).
Hypothesis lt_false : forall x y, lt (key y) (key x) = Ok false -> R x y.
Hypothesis lt_true : forall x y, lt (key y) (key x) = Ok true -> R y x.

Lemma insert_Sorted (x : A) (l r : list A) :
  Sorted R l -> insert key lt x l = Ok r -> Sorted R r.
Proof.
  revert r; induction l as [|y l IH]; intros r Hl H.
  - simpl in H. injection H as <-. repeat constructor.
  - inversion Hl as [|? ? Hl' Hhd]; subst. simpl in H.
    destruct (lt (key y) (key x)) as [[|]|e] eqn:Hc; cbn [bind] in H;
      [| |discriminate].
    + destruct (insert key lt x l) as [r'|e] eqn:Hins; cbn [bind] in H;
        [|discriminate].
      injection H as <-. constructor; [apply IH; auto|].
      apply insert_Ok in Hins.
      destruct Hins as [->|(z & l' & r'' & -> & -> & _ & _)].
      * constructor. apply lt_true, Hc.
      * inversion Hhd; subst. constructor. assumption.
    + injection H as <-. constructor; [assumption|].
      constructor. apply lt_false, Hc.
Qed.

Lemma sorted_Sorted (l r : list A) : sorted key lt l = Ok r -> Sorted R r.
Proof.
  revert r; induction l as [|x l IH]; simpl; intros r H.
  - injection H as <-. constructor.
  - inv_bind. eapply insert_Sorted; [|eassumption]. apply IH, Ha.
Qed.

End Order.

(** Stability: the records that share a key keep their order. *)
Section Stable.
Context (p : A -> bool).
Hypothesis lt_same : forall x y, p x = true -> p y = true ->
                                 lt (key y) (key x) <> Ok true.

Lemma insert_stable (x : A) (l r : list A) :
  insert key lt x l = Ok r -> filter p r = filter p (x :: l).
Proof.
  revert r; induction l as [|y l IH]; intros r H.
  - simpl in H. injection H as <-. reflexivity.
  - apply insert_Ok in H.
    destruct H as [->|(y' & l' & r' & [= <- <-] & -> & Hlt & Hins)]; [reflexivity|].
    apply IH in Hins. cbn [filter] in *. rewrite Hins.
    destruct (p x) eqn:Hx, (p y) eqn:Hy; try reflexivity.
    exfalso. exact (lt_same x y Hx Hy Hlt).
Qed.

Lemma sorted_stable (l r : list A) :
  sorted key lt l = Ok r -> filter p r = filter p l.
Proof.
  revert r; induction l as [|x l IH]; simpl; intros r H.
  - injection H as <-. reflexivity.
  - inv_bind. apply insert_stable in H. rewrite H. simpl.
    rewrite (IH a Ha). reflexivity.
Qed.

End Stable.

Lemma insert_total (x : A) (l : list A) :
  (forall y, In y l -> exists c, lt (key y) (key x) = Ok c) ->
  exists r, insert key lt x l = Ok r.
Proof.
  induction l as [|y l IH]; simpl; intros H; [eauto|].
  destruct (H y (or_introl eq_refl)) as [c ->]. cbn [bind].
  destruct c; [|eauto].
  destruct IH as [r ->]; [auto|]. cbn [bind]. eauto.
Qed.

Lemma sorted_total (l : list A) :
  (forall a b, In a l -> In b l -> exists c, lt (key a) (key b) = Ok c) ->
  exists r, sorted key lt l = Ok r.
Proof.
  induction l as [|x l IH]; simpl; intros H; [eauto|].
  destruct IH as [s Hs]; [auto|]. rewrite Hs. cbn [bind].
  apply insert_total. intros y Hy. apply H; [right|left; reflexivity].
  apply Permutation_in with (l := s); [|assumption].
  symmetry. apply sorted_Permutation, Hs.
Qed.

Lemma insert_Raise (x : A) (l : list A) (e : exn) :
  (forall a b e', lt a b = Raise e' -> e' = TypeError) ->
  insert key lt x l = Raise e -> e = TypeError.
Proof.
  intros Hlt. induction l as [|y l IH]; simpl; [discriminate|].
  destruct (lt (key y) (key x)) as [[|]|e'] eqn:Hc; cbn [bind].
  - destruct (insert key lt x l); cbn [bind]; [discriminate|].
    intros [= <-]. apply IH. reflexivity.
  - discriminate.
  - intros [= <-]. eapply Hlt, Hc.
Qed.

Lemma sorted_Raise (l : list A) (e : exn) :
  (forall a b e', lt a b = Raise e' -> e' = TypeError) ->
  sorted key lt l = Raise e -> e = TypeError.
Proof.
  intros Hlt. induction l as [|x l IH]; simpl; [discriminate|].
  destruct (sorted key lt l) as [s|e'] eqn:Hs; cbn [bind].
  - apply insert_Raise, Hlt.
  - intros [= <-]. apply IH. reflexivity.
Qed.

End SortedFacts.

(** ** The order on [str] and on tuples *)

Lemma str_ltb_irrefl (a : str) : str_ltb a a = false.
Proof.
  induction a as [|x a IH]; simpl; [reflexivity|].
  rewrite Z.ltb_irrefl, Z.eqb_refl, IH. reflexivity.
Qed.

Lemma str_ltb_cons (x y : Z) (a b : str) :
  str_ltb (x :: a) (y :: b) = true <-> x < y \/ (x = y /\ str_ltb a b = true).
Proof. simpl. rewrite orb_true_iff, andb_true_iff, Z.ltb_lt, Z.eqb_eq. tauto. Qed.

Lemma str_ltb_trans (a b c : str) :
  str_ltb a b = true -> str_ltb b c = true -> str_ltb a c = true.
Proof.
  revert b c; induction a as [|x a IH]; intros [|y b] [|z c]; try discriminate;
    try reflexivity.
  rewrite !str_ltb_cons. intros [Hxy|[-> Hab]] [Hyz|[-> Hbc]]; try (left; lia).
  right. split; [reflexivity|]. eapply IH; eassumption.
Qed.

Lemma str_ltb_trichotomy (a b : str) :
  str_ltb a b = false -> str_ltb b a = false -> a = b.
Proof.
  revert b; induction a as [|x a IH]; intros [|y b]; try discriminate;
    try reflexivity.
  intros Hab Hba.
  destruct (Z.lt_trichotomy x y) as [Hlt|[->|Hgt]].
  - assert (str_ltb (x :: a) (y :: b) = true) by (apply str_ltb_cons; auto).
    congruence.
  - f_equal. apply IH.
    + destruct (str_ltb a b) eqn:H; [|reflexivity].
      assert (str_ltb (y :: a) (y :: b) = true) by (apply str_ltb_cons; auto).
      congruence.
    + destruct (str_ltb b a) eqn:H; [|reflexivity].
      assert (str_ltb (y :: b) (y :: a) = true) by (apply str_ltb_cons; auto).
      congruence.
  - assert (str_ltb (y :: b) (x :: a) = true) by (apply str_ltb_cons; auto).
    congruence.
Qed.

Lemma str_le_trans (a b c : str) : str_le a b -> str_le b c -> str_le a c.
Proof.
  intros [Hab| ->] [Hbc| <-]; unfold str_le; auto.
  left. eapply str_ltb_trans; eassumption.
Qed.

Lemma value_eqb_eq (x y : value) : value_eqb x y = true <-> x = y.
Proof.
  destruct x as [a|], y as [b|]; simpl; try (split; congruence).
  rewrite str_eqb_eq. split; congruence.
Qed.

Lemma value_eqb_refl (x : value) : value_eqb x x = true.
Proof. apply value_eqb_eq. reflexivity. Qed.

Lemma value_eqb_sym (x y : value) : value_eqb x y = value_eqb y x.
Proof.
  destruct (value_eqb x y) eqn:H.
  - apply value_eqb_eq in H. subst. symmetry. apply value_eqb_refl.
  - destruct (value_eqb y x) eqn:H'; [|reflexivity].
    apply value_eqb_eq in H'. subst. rewrite value_eqb_refl in H. discriminate.
Qed.

Lemma tuple_eqb_eq (a b : list value) : tuple_eqb a b = true <-> a = b.
Proof.
  revert b; induction a as [|x a IH]; intros [|y b]; simpl;
    try (split; congruence).
  rewrite andb_true_iff, value_eqb_eq, IH. split.
  - intros [-> ->]. reflexivity.
  - intros [= -> ->]. auto.
Qed.

Lemma tuple_cmp_Raise (op : cmp_op) (a b : list value) (e : exn) :
  tuple_cmp op a b = Raise e -> e = TypeError.
Proof.
  revert b; induction a as [|x a IH]; intros [|y b]; simpl; try discriminate.
  destruct (value_eqb x y); [apply IH|].
  destruct x, y; simpl; congruence.
Qed.

Lemma tuple_lt_irrefl (a : list value) : tuple_cmp op_lt a a = Ok false.
Proof.
  induction a as [|x a IH]; simpl; [reflexivity|].
  rewrite value_eqb_refl. exact IH.
Qed.

(** [not (b < a)] gives [a <= b], and [a < b] gives [a <= b]. *)
Lemma tuple_lt_false_le (a b : list value) :
  tuple_cmp op_lt b a = Ok false -> tuple_cmp op_le a b = Ok true.
Proof.
  revert b; induction a as [|x a IH]; intros [|y b]; simpl; try congruence.
  rewrite (value_eqb_sym y x). destruct (value_eqb x y) eqn:Hxy; [apply IH|].
  destruct x as [s|], y as [t|]; simpl; try discriminate.
  intros [= Hlt]. f_equal.
  destruct (str_ltb s t) eqn:Hst; [reflexivity|]. simpl.
  apply str_eqb_eq. apply str_ltb_trichotomy; assumption.
Qed.

Lemma tuple_lt_true_le (a b : list value) :
  tuple_cmp op_lt a b = Ok true -> tuple_cmp op_le a b = Ok true.
Proof.
  revert b; induction a as [|x a IH]; intros [|y b]; simpl; try congruence.
  destruct (value_eqb x y); [apply IH|].
  destruct x as [s|], y as [t|]; simpl; try discriminate.
  intros [= ->]. reflexivity.
Qed.

Lemma value_le_strict (x y : value) :
  value_eqb x y = false -> value_cmp op_le x y = Ok true ->
  exists s t, x = Some s /\ y = Some t /\ str_ltb s t = true.
Proof.
  destruct x as [s|], y as [t|]; simpl; try discriminate.
  intros Hne [= H]. exists s, t. repeat split.
  rewrite Hne, orb_false_r in H. exact H.
Qed.

Lemma tuple_le_trans (a b c : list value) :
  tuple_cmp op_le a b = Ok true -> tuple_cmp op_le b c = Ok true ->
  tuple_cmp op_le a c = Ok true.
Proof.
  revert b c; induction a as [|x a IH]; intros [|y b] [|z c]; simpl;
    try congruence.
  destruct (value_eqb x y) eqn:Hxy.
  - apply value_eqb_eq in Hxy. subst y.
    destruct (value_eqb x z); [apply IH | auto].
  - intros Hle. destruct (value_le_strict x y Hxy Hle) as (s & t & -> & -> & Hst).
    destruct (value_eqb (Some t) z) eqn:Hyz.
    + apply value_eqb_eq in Hyz. subst z. intros _.
      rewrite Hxy. exact Hle.
    + intros Hle'.
      destruct (value_le_strict _ z Hyz Hle') as (t' & u & [= <-] & -> & Htu).
      assert (Hsu : str_ltb s u = true) by (eapply str_ltb_trans; eassumption).
      simpl. destruct (str_eqb s u) eqn:Heq.
      * apply str_eqb_eq in Heq. subst u. rewrite str_ltb_irrefl in Hsu.
        discriminate.
      * rewrite Hsu. reflexivity.
Qed.

(** [a < b] and [b <= a] do not both hold. *)
Lemma tuple_lt_not_ge (a b : list value) :
  tuple_cmp op_lt a b = Ok true -> tuple_cmp op_le b a <> Ok true.
Proof.
  revert b; induction a as [|x a IH]; intros [|y b]; simpl; try congruence.
  rewrite (value_eqb_sym y x). destruct (value_eqb x y) eqn:Hxy; [apply IH|].
  destruct x as [s|], y as [t|]; simpl; try discriminate.
  intros [= Hst] [= Hts]. apply orb_true_iff in Hts. destruct Hts as [Hts|Heq].
  - pose proof (str_ltb_trans _ _ _ Hst Hts) as H.
    rewrite str_ltb_irrefl in H. discriminate.
  - apply str_eqb_eq in Heq. subst t. rewrite str_ltb_irrefl in Hst.
    discriminate.
Qed.

Lemma tuple_le_antisym (a b : list value) :
  tuple_cmp op_le a b = Ok true -> tuple_cmp op_le b a = Ok true -> a = b.
Proof.
  revert b; induction a as [|x a IH]; intros [|y b]; simpl; try congruence.
  rewrite (value_eqb_sym y x). destruct (value_eqb x y) eqn:Hxy.
  - apply value_eqb_eq in Hxy. subst y. intros H1 H2. f_equal. auto.
  - intros H1 H2.
    destruct (value_le_strict x y Hxy H1) as (s & t & -> & -> & Hst).
    rewrite value_eqb_sym in Hxy.
    destruct (value_le_strict _ _ Hxy H2) as (t' & s' & [= <-] & [= <-] & Hts).
    pose proof (str_ltb_trans _ _ _ Hst Hts) as H.
    rewrite str_ltb_irrefl in H. discriminate.
Qed.

Lemma key_le_trans (a b c : session) : key_le a b -> key_le b c -> key_le a c.
Proof. unfold key_le. apply tuple_le_trans. Qed.

(** What [key_le] says field by field. *)
Lemma key_le_fields (a b : session) :
  key_le a b ->
  str_le (date a) (date b) /\
  (date a = date b ->
   str_le (time_start a) (time_start b) /\
   (time_start a = time_start b ->
    str_le (time_end a) (time_end b) /\
    (time_end a = time_end b -> value_le (title a) (title b)))).
Proof.
  unfold key_le, sort_key. cbn [tuple_cmp value_eqb value_cmp].
  assert (Hstep : forall s t (rest : result bool),
             (if str_eqb s t then rest else Ok (str_ltb s t || str_eqb s t))
             = Ok true ->
             str_le s t /\ (s = t -> rest = Ok true)).
  { intros s t rest. destruct (str_eqb s t) eqn:Heq.
    - apply str_eqb_eq in Heq. subst. intros H. split; [right; reflexivity | auto].
    - rewrite orb_false_r. intros [= H]. split; [left; exact H|].
      intros ->. rewrite str_eqb_refl in Heq. discriminate. }
  intros H. apply Hstep in H. destruct H as [Hd H]. split; [exact Hd|].
  intros Hdate. apply H, Hstep in Hdate. destruct Hdate as [Hs H1].
  split; [exact Hs|]. intros Hstart. apply H1, Hstep in Hstart.
  destruct Hstart as [He H2]. split; [exact He|]. intros Hend.
  apply H2 in Hend. clear - Hend.
  destruct (title a) as [s|], (title b) as [t|]; simpl in Hend;
    try (destruct (str_eqb s t) eqn:Heq); try discriminate.
  - right. exists s, t. apply str_eqb_eq in Heq. subst.
    repeat split. right. reflexivity.
  - right. exists s, t. injection Hend as H. rewrite orb_false_r in H.
    repeat split. left. exact H.
  - left. auto.
Qed.

(** Records in one slot, one with a title and one without, cannot be
    compared; any other two records can. *)
Lemma key_cmp_mixed (op : cmp_op) (a b : session) (t : str) :
  same_slot a b -> title a = None -> title b = Some t ->
  tuple_cmp op (sort_key a) (sort_key b) = Raise TypeError /\
  tuple_cmp op (sort_key b) (sort_key a) = Raise TypeError.
Proof.
  intros (Hd & Hs & He) Ha Hb. unfold sort_key.
  rewrite Hd, Hs, He, Ha, Hb. cbn [tuple_cmp value_eqb].
  rewrite !str_eqb_refl. split; reflexivity.
Qed.

Lemma key_cmp_Ok (op : cmp_op) (a b : session) :
  (same_slot a b -> (title a = None <-> title b = None)) ->
  exists c, tuple_cmp op (sort_key a) (sort_key b) = Ok c.
Proof.
  intros H. unfold sort_key. cbn [tuple_cmp value_eqb value_cmp].
  destruct (str_eqb (date a) (date b)) eqn:Hd; [|eauto].
  destruct (str_eqb (time_start a) (time_start b)) eqn:Hs; [|eauto].
  destruct (str_eqb (time_end a) (time_end b)) eqn:He; [|eauto].
  apply str_eqb_eq in Hd, Hs, He.
  specialize (H (conj Hd (conj Hs He))).
  destruct (title a) as [s|], (title b) as [t|]; simpl.
  - destruct (str_eqb s t); destruct op; eauto.
  - exfalso. destruct H as [_ H]. discriminate (H eq_refl).
  - exfalso. destruct H as [H _]. discriminate (H eq_refl).
  - destruct op; eauto.
Qed.

(** ** Days and dates *)

Lemma nth_error_combine {A B} (l1 : list A) (l2 : list B) (i : nat) (a : A) (b : B) :
  nth_error (combine l1 l2) i = Some (a, b) <->
  nth_error l1 i = Some a /\ nth_error l2 i = Some b.
Proof.
  revert l2 i; induction l1 as [|x l1 IH]; intros [|y l2] [|i]; simpl;
    try (split; [discriminate | intros [? ?]; discriminate]).
  - split; [intros [= -> ->]; auto | intros [[= ->] [= ->]]; reflexivity].
  - apply IH.
Qed.

Lemma Sorted_adjacent {A} (R : A -> A -> Prop) (l : list A) :
  Sorted R l ->
  forall i a b, nth_error l i = Some a -> nth_error l (S i) = Some b -> R a b.
Proof.
  induction 1 as [|x l Hl IH Hhd]; intros i a b Ha Hb.
  - destruct i; discriminate.
  - destruct i as [|i]; simpl in *.
    + injection Ha as <-. destruct l as [|y l]; [discriminate|].
      injection Hb as <-. inversion Hhd; assumption.
    + eapply IH; eassumption.
Qed.

Lemma StronglySorted_nth {A} (R : A -> A -> Prop) (l : list A) :
  StronglySorted R l ->
  forall i j a b, (i < j)%nat ->
                  nth_error l i = Some a -> nth_error l j = Some b -> R a b.
Proof.
  induction 1 as [|x l Hl IH Hall]; intros i j a b Hij Ha Hb.
  - destruct i; discriminate.
  - destruct j as [|j]; [lia|]. simpl in Hb. destruct i as [|i]; simpl in Ha.
    + injection Ha as <-. rewrite Forall_forall in Hall.
      apply Hall. eapply nth_error_In; eassumption.
    + apply (IH i j); auto. lia.
Qed.

Lemma StronglySorted_In {A} (R : A -> A -> Prop) (l : list A) (a b : A) :
  StronglySorted R l -> In a l -> In b l -> a = b \/ R a b \/ R b a.
Proof.
  induction 1 as [|x l Hl IH Hall]; intros Ha Hb; [contradiction|].
  rewrite Forall_forall in Hall.
  destruct Ha as [->|Ha], Hb as [->|Hb]; auto.
Qed.

Lemma adjacent_Sorted {A} (R : A -> A -> Prop) (l : list A) :
  (forall i a b, nth_error l i = Some a -> nth_error l (S i) = Some b -> R a b) ->
  Sorted R l.
Proof.
  induction l as [|x l IH]; intros H; constructor.
  - apply IH. intros i a b Ha Hb. apply (H (S i)); assumption.
  - destruct l as [|y l]; constructor. apply (H O); reflexivity.
Qed.

(** A list has one stable sort: two sorted lists with the same records,
    those of each key in the same order, are equal. *)
Lemma sorted_stable_unique (r1 r2 : list session) :
  StronglySorted key_le r1 -> StronglySorted key_le r2 ->
  Permutation r1 r2 -> same_key_order r1 r2 -> r1 = r2.
Proof.
  revert r2; induction r1 as [|x r1 IH]; intros r2 H1 H2 Hperm Hsame.
  - apply Permutation_nil in Hperm. congruence.
  - destruct r2 as [|y r2].
    { apply Permutation_sym, Permutation_nil in Hperm. discriminate. }
    inversion H1 as [|? ? H1' Hx]; subst. inversion H2 as [|? ? H2' Hy]; subst.
    rewrite Forall_forall in Hx, Hy.
    assert (Hkey : sort_key x = sort_key y).
    { assert (Hyin : In y (x :: r1)).
      { apply Permutation_in with (l := y :: r2);
          [symmetry; assumption | left; reflexivity]. }
      assert (Hxin : In x (y :: r2)).
      { apply Permutation_in with (l := x :: r1);
          [assumption | left; reflexivity]. }
      destruct Hyin as [->|Hyin]; [reflexivity|].
      destruct Hxin as [->|Hxin]; [reflexivity|].
      apply tuple_le_antisym; [apply (Hx y Hyin) | apply (Hy x Hxin)]. }
    assert (Hxy : x = y).
    { pose proof (Hsame (sort_key x)) as Hk. cbn [filter] in Hk.
      rewrite <- Hkey in Hk.
      assert (Hrefl : tuple_eqb (sort_key x) (sort_key x) = true)
        by (apply tuple_eqb_eq; reflexivity).
      rewrite Hrefl in Hk. congruence. }
    subst y. f_equal. apply IH; try assumption.
    + eapply Permutation_cons_inv; eassumption.
    + intros k. pose proof (Hsame k) as Hk. cbn [filter] in Hk.
      destruct (tuple_eqb (sort_key x) k); congruence.
Qed.

Section GetSessions.
Context {U : UnicodeData} {E : Type} {EL : Element E}.

Lemma parse_day_Ok (el : E) (d : str) (day : list session) :
  parse_day el d = Ok day ->
  Forall (fun r => date r = d /\
                   exists s, In s (children el) /\ parse_session s d = Ok r) day.
Proof.
  unfold parse_day. intros H. apply Forall_forall. intros r Hr.
  apply In_nth_error in Hr. destruct Hr as [i Hi].
  destruct (mapM_Ok_nth _ _ _ H i r Hi) as (s & Hs & Hrun).
  split.
  - apply parse_session_Ok in Hrun.
    destruct Hrun as (? & ? & ? & ? & ? & ? & ? & ? & Hrun). tauto.
  - exists s. split; [eapply nth_error_In; eassumption | assumption].
Qed.

Lemma extract_sessions_Ok (dom : E) (sessions : list session) :
  extract_sessions dom = Ok sessions ->
  exists day_els nested,
    cssselect dom (lit "ul.schedule-list.pane") = Ok day_els /\
    sessions = concat nested /\
    length nested = Nat.min (length day_els) 5 /\
    (forall i day,
        nth_error nested i = Some day ->
        exists el d,
          nth_error day_els i = Some el /\
          nth_error DATES i = Some d /\
          parse_day el d = Ok day /\
          Forall (fun r => date r = d) day).
Proof.
  unfold extract_sessions. intros H.
  apply bind_Ok in H. destruct H as (day_els & Hsel & H). cbv zeta in H.
  apply bind_Ok in H. destruct H as (nested & Ha & H). injection H as <-.
  exists day_els, nested. split; [exact Hsel|]. split; [reflexivity|]. split.
  - apply mapM_Ok_length in Ha. rewrite Ha, length_combine. reflexivity.
  - intros i day Hi.
    destruct (mapM_Ok_nth _ _ _ Ha i day Hi) as ([el d] & Hnth & Hday).
    apply nth_error_combine in Hnth. destruct Hnth as [Hel Hd].
    exists el, d. repeat split; try assumption.
    apply parse_day_Ok in Hday. eapply Forall_impl; [|exact Hday].
    intros r [Hr _]. exact Hr.
Qed.

Lemma get_sessions_Ok (content : bytes) (out : list session) :
  get_sessions content = Ok out ->
  exists html dom sessions,
    fix_encoding content = Ok html /\ fromstring html = Ok dom /\
    extract_sessions dom = Ok sessions /\
    sorted sort_key (tuple_cmp op_lt) sessions = Ok out.
Proof.
  unfold get_sessions. intros H. inv_bind. eauto 10.
Qed.

Lemma sorted_sessions_Sorted (l out : list session) :
  sorted sort_key (tuple_cmp op_lt) l = Ok out -> StronglySorted key_le out.
Proof.
  intros H. apply Sorted_StronglySorted.
  - intros a b c. apply key_le_trans.
  - eapply sorted_Sorted; [| |exact H]; unfold key_le; intros x y Hc.
    + apply tuple_lt_false_le, Hc.
    + apply tuple_lt_true_le, Hc.
Qed.

(** A slot that mixes a record without a title and a record with one ends
    the sort with a [TypeError]. *)
Lemma sorted_sessions_mixed (l : list session) (a b : session) (t : str) :
  In a l -> In b l -> same_slot a b -> title a = None -> title b = Some t ->
  sorted sort_key (tuple_cmp op_lt) l = Raise TypeError.
Proof.
  intros Ha Hb Hslot Hta Htb.
  destruct (sorted sort_key (tuple_cmp op_lt) l) as [out|e] eqn:Hs.
  - exfalso. pose proof (sorted_Permutation _ _ _ _ Hs) as Hperm.
    pose proof (sorted_sessions_Sorted _ _ Hs) as Hsorted.
    destruct (key_cmp_mixed op_le a b t Hslot Hta Htb) as [Hab Hba].
    destruct (StronglySorted_In _ _ a b Hsorted) as [Heq|[Hle|Hle]].
    + eapply Permutation_in; eassumption.
    + eapply Permutation_in; eassumption.
    + subst b. congruence.
    + unfold key_le in Hle. congruence.
    + unfold key_le in Hle. congruence.
  - f_equal. eapply sorted_Raise; [|exact Hs].
    intros x y e'. apply tuple_cmp_Raise.
Qed.

Lemma sorted_sessions_total (l : list session) :
  (forall a b, In a l -> In b l -> same_slot a b ->
               (title a = None <-> title b = None)) ->
  exists out, sorted sort_key (tuple_cmp op_lt) l = Ok out.
Proof.
  intros H. apply sorted_total. intros a b Ha Hb.
  apply key_cmp_Ok. apply H; assumption.
Qed.

End GetSessions.



(** C2: [get_sessions] returns the extracted records in a stable sort by
    the tuple (date, time_start, time_end, title): the output is a
    permutation of the extracted records, records with equal tuples keep
    their order, and the tuple of every record is less than or equal to the
    tuple of the next one.  Hence a record with an earlier date comes
    first, within a date an earlier start, within a start an earlier end,
    and within that a smaller title.  No other arrangement of the extracted
    records is ordered and stable.  [get_sessions] returns whenever every
    extracted record has a title. *)
Theorem get_sessions_sorted (U : UnicodeData) (E : Type) (EL : Element E) :
  (forall (content : bytes) (out : list session),
      get_sessions content = Ok out ->
      exists html dom sessions,
        fix_encoding content = Ok html /\ fromstring html = Ok dom /\
        extract_sessions dom = Ok sessions /\
        Permutation sessions out /\
        same_key_order out sessions /\
        neighbours_ordered out /\
        (forall i j a b,
            (i < j)%nat -> nth_error out i = Some a -> nth_error out j = Some b ->
            str_le (date a) (date b) /\
            (date a = date b ->
             str_le (time_start a) (time_start b) /\
             (time_start a = time_start b ->
              str_le (time_end a) (time_end b) /\
              (time_end a = time_end b -> value_le (title a) (title b))))) /\
        (forall i j a b,
            nth_error out i = Some a -> nth_error out j = Some b ->
            tuple_cmp op_lt (sort_key a) (sort_key b) = Ok true -> (i < j)%nat) /\
        (forall i j a b,
            nth_error out i = Some a -> nth_error out j = Some b ->
            str_ltb (date a) (date b) = true -> (i < j)%nat) /\
        (forall out',
            Permutation sessions out' -> same_key_order out' sessions ->
            neighbours_ordered out' -> out' = out)) /\
  (forall (content : bytes) html dom sessions,
      fix_encoding content = Ok html -> fromstring html = Ok dom ->
      extract_sessions dom = Ok sessions ->
      Forall (fun r => title r <> None) sessions ->
      exists out, get_sessions content = Ok out) /\
  (exists out,
      @get_sessions U node (one_page two_day_page) [] = Ok out /\
      titles out = [Some (lit "Opening"); Some (lit "Lunch");
                    Some (lit "Data"); Some (lit "Maps")]).
Proof.
  split; [|split].
  - intros content out H. apply get_sessions_Ok in H.
    destruct H as (html & dom & sessions & Hfix & Hdom & Hex & Hsort).
    exists html, dom, sessions.
    pose proof (sorted_sessions_Sorted _ _ Hsort) as Hstrong.
    split; [assumption|]. split; [assumption|]. split; [assumption|].
    assert (Hpos : forall i j a b,
               nth_error out i = Some a -> nth_error out j = Some b ->
               tuple_cmp op_lt (sort_key a) (sort_key b) = Ok true -> (i < j)%nat).
    { intros i j a b Ha Hb Hlt.
      destruct (Nat.lt_trichotomy i j) as [Hij|[->|Hji]]; [exact Hij| |].
      - rewrite Ha in Hb. injection Hb as <-.
        rewrite tuple_lt_irrefl in Hlt. discriminate.
      - exfalso. apply (tuple_lt_not_ge _ _ Hlt).
        apply (StronglySorted_nth _ _ Hstrong j i); assumption. }
    split; [eapply sorted_Permutation; eassumption|].
    assert (Hstable : same_key_order out sessions).
    { intros k. eapply sorted_stable; [|exact Hsort].
      intros x y Hx Hy. apply tuple_eqb_eq in Hx, Hy.
      rewrite Hx, Hy, tuple_lt_irrefl. discriminate. }
    split; [exact Hstable|].
    split; [|split; [|split; [|split]]].
    + intros i a b Ha Hb.
      apply (StronglySorted_nth _ _ Hstrong i (S i)); auto.
    + intros i j a b Hij Ha Hb. apply key_le_fields.
      eapply StronglySorted_nth; eassumption.
    + exact Hpos.
    + intros i j a b Ha Hb Hlt. apply (Hpos i j a b Ha Hb).
      unfold sort_key. cbn [tuple_cmp value_eqb value_cmp].
      destruct (str_eqb (date a) (date b)) eqn:Heq; [|rewrite Hlt; reflexivity].
      apply str_eqb_eq in Heq. rewrite Heq, str_ltb_irrefl in Hlt.
      discriminate.
    + intros out' Hperm Hsame Hadj.
      apply sorted_stable_unique.
      * apply Sorted_StronglySorted; [intros a b c; apply key_le_trans|].
        apply adjacent_Sorted. exact Hadj.
      * exact Hstrong.
      * rewrite <- Hperm. eapply sorted_Permutation; eassumption.
      * intros k. rewrite (Hsame k), (Hstable k). reflexivity.
  - intros content html dom sessions Hfix Hdom Hex Htitles.
    unfold get_sessions. rewrite Hfix. cbn [bind]. rewrite Hdom. cbn [bind].
    rewrite Hex. cbn [bind]. apply sorted_sessions_total.
    intros a b Ha Hb _. rewrite Forall_forall in Htitles.
    pose proof (Htitles a Ha). pose proof (Htitles b Hb). tauto.
  - eexists. split; vm_compute; reflexivity.
Qed.

(** The theorem at the page with two days. *)
Lemma get_sessions_sorted_witness :
  exists out,
    @get_sessions ascii_digits node (one_page two_day_page) [] = Ok out /\
    (forall i a b,
        nth_error out i = Some a -> nth_error out (S i) = Some b ->
        tuple_cmp op_le (sort_key a) (sort_key b) = Ok true).
Proof.
  destruct (@get_sessions ascii_digits node (one_page two_day_page) [])
    as [out|e] eqn:Hrun; [|vm_compute in Hrun; discriminate Hrun].
  exists out. split; [reflexivity|].
  destruct (proj1 (get_sessions_sorted ascii_digits node (one_page two_day_page))
              [] out Hrun)
    as (html & dom & sessions & _ & _ & _ & _ & _ & Hadj & _).
  exact Hadj.
Defined.

(** Two sessions of one slot, both without a title: the sort compares their
    tuples, finds them equal, and returns. *)
Lemma untitled_pair_sorted :
  exists a b,
    @get_sessions ascii_digits node (one_page untitled_pair_page) [] = Ok [a; b] /\
    same_slot a b /\ title a = None /\ title b = None /\
    tuple_cmp op_lt (sort_key a) (sort_key b) = Ok false.
Proof.
  eexists. eexists. split; [vm_compute; reflexivity|].
  repeat split.
Qed.

(** C10 (amended): the title of a record of [parse_session] is [None] when
    no title element has text left after stripping, also when the title link
    exists.  Comparing the tuples of two records of one slot (same date,
    start and end), one without a title and one with a title, raises
    [TypeError], and so do the sort and [get_sessions] on any list that
    holds two such records; two records of one slot that both lack a title
    compare equal, and the sort returns whenever no slot mixes records with
    and without a title, in particular when every title is a string. *)
Theorem title_none_sort (U : UnicodeData) (E : Type) (EL : Element E) :
  (exists r,
      @parse_session U node no_page untitled_session (lit "2019-03-06") = Ok r /\
      title r = None /\
      exists link rest,
        @cssselect node no_page untitled_session (lit ".event-title a")
        = Ok (link :: rest)) /\
  (forall (el : E) (d : str) (r : session),
      parse_session el d = Ok r ->
      exists matches,
        cssselect el (lit ".event-title") = Ok matches /\
        (title r = None <->
         Forall (fun m => strip (text_content m) = []) matches)) /\
  (forall (op : cmp_op) (a b : session) (t : str),
      same_slot a b -> title a = None -> title b = Some t ->
      tuple_cmp op (sort_key a) (sort_key b) = Raise TypeError /\
      tuple_cmp op (sort_key b) (sort_key a) = Raise TypeError) /\
  (forall (op : cmp_op) (a b : session),
      same_slot a b -> title a = None -> title b = None ->
      tuple_cmp op (sort_key a) (sort_key b)
      = Ok (match op with op_lt => false | op_le => true end)) /\
  (forall (l : list session) (a b : session) (t : str),
      In a l -> In b l -> same_slot a b -> title a = None -> title b = Some t ->
      sorted sort_key (tuple_cmp op_lt) l = Raise TypeError) /\
  (forall (content : bytes) html dom sessions (a b : session) (t : str),
      fix_encoding content = Ok html -> fromstring html = Ok dom ->
      extract_sessions dom = Ok sessions ->
      In a sessions -> In b sessions -> same_slot a b ->
      title a = None -> title b = Some t ->
      get_sessions content = Raise TypeError) /\
  (forall (l : list session),
      (forall a b, In a l -> In b l -> same_slot a b ->
                   (title a = None <-> title b = None)) ->
      exists out, sorted sort_key (tuple_cmp op_lt) l = Ok out).
Proof.
  split; [|split; [|split; [|split; [|split; [|split]]]]].
  - eexists. split; [vm_compute; reflexivity|].
    split; [reflexivity|]. eexists. eexists. vm_compute. reflexivity.
  - intros el d r H. apply parse_session_Ok in H.
    destruct H as (s_time & a & b & link & rest & href & q & raw & _ & _ & _ & _
                   & _ & _ & _ & _ & Htitle & _).
    exists (matching el (lit ".event-title")).
    pose proof (get_text_matches _ _ _ Htitle (lit ".event-title")) as Hsel.
    split; [exact Hsel|].
    rewrite <- (get_text_None _ _ _ Hsel), Htitle.
    split; intros Heq; [rewrite Heq; reflexivity | injection Heq; auto].
  - intros op a b t. apply key_cmp_mixed.
  - intros op a b (Hd & Hs & He) Ha Hb. unfold sort_key.
    rewrite Hd, Hs, He, Ha, Hb. cbn [tuple_cmp value_eqb].
    rewrite !str_eqb_refl. reflexivity.
  - apply @sorted_sessions_mixed.
  - intros content html dom sessions a b t Hfix Hdom Hex Ha Hb Hslot Hta Htb.
    unfold get_sessions. rewrite Hfix. cbn [bind]. rewrite Hdom. cbn [bind].
    rewrite Hex. cbn [bind].
    apply (sorted_sessions_mixed sessions a b t); assumption.
  - apply @sorted_sessions_total.
Qed.

(** The theorem at an untitled and a titled session of one slot. *)
Lemma title_none_sort_witness :
  exists a b,
    @parse_session ascii_digits node no_page untitled_session (lit "2019-03-06") = Ok a /\
    @parse_session ascii_digits node no_page titled_session (lit "2019-03-06") = Ok b /\
    sorted sort_key (tuple_cmp op_lt) [a; b] = Raise TypeError.
Proof.
  destruct (@parse_session ascii_digits node no_page untitled_session (lit "2019-03-06"))
    as [a|e] eqn:Ha; [|vm_compute in Ha; discriminate Ha].
  destruct (@parse_session ascii_digits node no_page titled_session (lit "2019-03-06"))
    as [b|e] eqn:Hb; [|vm_compute in Hb; discriminate Hb].
  exists a, b. split; [reflexivity|]. split; [reflexivity|].
  vm_compute in Ha. injection Ha as <-. vm_compute in Hb. injection Hb as <-.
  eapply (proj1 (proj2 (proj2 (proj2 (proj2 (title_none_sort ascii_digits node no_page)))))).
  - left. reflexivity.
  - right. left. reflexivity.
  - repeat split.
  - reflexivity.
  - reflexivity.
Defined.

(* ================================================================== *)
(** * Part II, continued: further properties of the script *)
(* ================================================================== *)

(** ** [extract_speakers] *)

Lemma line_run_app (a post : str) :
  ~ In 10 a -> post = [] \/ (exists p, post = 10 :: p) ->
  line_run (a ++ post) = a.
Proof.
  intros Ha Hpost. induction a as [|c a IH]; cbn [app].
  - destruct Hpost as [->|[p ->]]; [reflexivity|]. simpl. reflexivity.
  - cbn [line_run]. destruct (Z.eqb_spec c 10) as [->|_].
    + exfalso. apply Ha. left. reflexivity.
    + rewrite IH; [reflexivity|]. intros H. apply Ha. right. exact H.
Qed.

Lemma line_run_split (s : str) :
  exists post, s = line_run s ++ post /\ ~ In 10 (line_run s) /\
               (post = [] \/ exists p, post = 10 :: p).
Proof.
  induction s as [|c s (post & Heq & Hno & Hpost)]; cbn [line_run].
  - exists []. repeat split; auto.
  - destruct (Z.eqb_spec c 10) as [->|Hc].
    + exists (10 :: s). repeat split; eauto.
    + exists post. cbn [app]. repeat split; [congruence| |assumption].
      intros [H|H]; [congruence | contradiction].
Qed.

Lemma space_names_Some (r names : str) :
  space_names r = Some names ->
  exists ws post,
    r = ws ++ names ++ post /\ all_space ws /\ names <> [] /\ ~ In 10 names /\
    (post = [] \/ exists p, post = 10 :: p).
Proof.
  revert names; induction r as [|c r IH]; intros names H; [discriminate|].
  cbn [space_names] in H.
  assert (Hhere : (if c =? 10 then None else Some (line_run (c :: r))) = Some names ->
                  exists ws post,
                    c :: r = ws ++ names ++ post /\ all_space ws /\ names <> [] /\
                    ~ In 10 names /\ (post = [] \/ exists p, post = 10 :: p)).
  { destruct (Z.eqb_spec c 10) as [->|Hc]; [discriminate|]. intros [= <-].
    destruct (line_run_split (c :: r)) as (post & Heq & Hno & Hpost).
    exists [], post. repeat split; try assumption; try constructor.
    cbn [line_run]. destruct (Z.eqb_spec c 10); [contradiction | discriminate]. }
  destruct (isspace c) eqn:Hsp; [|apply Hhere, H].
  destruct (space_names r) as [n|] eqn:Hr; [|apply Hhere, H].
  injection H as <-.
  destruct (IH n eq_refl) as (ws & post & -> & Hws & Hne & Hno & Hpost).
  exists (c :: ws), post. repeat split; try assumption.
  constructor; assumption.
Qed.

Lemma space_names_app (ws names post : str) :
  all_space ws -> names <> [] -> no_leading_space names -> ~ In 10 names ->
  post = [] \/ (exists p, post = 10 :: p) ->
  space_names (ws ++ names ++ post) = Some names.
Proof.
  intros Hws Hne Hlead Hno Hpost. induction Hws as [|c ws Hc _ IH]; cbn [app].
  - destruct names as [|c names]; [congruence|]. cbn [app space_names].
    simpl in Hlead. rewrite Hlead.
    destruct (Z.eqb_spec c 10) as [->|_].
    + exfalso. apply Hno. left. reflexivity.
    + change (c :: names ++ post) with ((c :: names) ++ post).
      rewrite line_run_app by assumption. reflexivity.
  - cbn [space_names]. rewrite Hc, IH. reflexivity.
Qed.

(** The text [extract_speakers] returns is the rest of the first line after
    a label and white space: it is not empty and holds no line feed.
    Without the word [Speaker] at the start nothing is returned. *)
Theorem extract_speakers_first_line :
  (forall description names,
      extract_speakers description = Some names ->
      exists label ws post,
        description = label ++ ws ++ names ++ post /\
        is_label label /\ ws <> [] /\ all_space ws /\
        names <> [] /\ ~ In 10 names /\
        (post = [] \/ exists p, post = 10 :: p)) /\
  (forall description,
      startswith description (lit "Speaker") = false ->
      extract_speakers description = None).
Proof.
  split.
  - intros d names. unfold extract_speakers.
    destruct (startswith d (lit "Speaker")) eqn:Hp; [|discriminate].
    apply startswith_app in Hp. destruct Hp as [t ->].
    unlit. cbn [app skipn].
    assert (Hcolon : forall pre t',
               match t' with
               | c :: w :: r' => if (c =? 58) && isspace w then space_names r' else None
               | _ => None
               end = Some names ->
               exists ws post,
                 pre ++ t' = (pre ++ [58]) ++ ws ++ names ++ post /\ ws <> [] /\
                 all_space ws /\ names <> [] /\ ~ In 10 names /\
                 (post = [] \/ exists p, post = 10 :: p)).
    { intros pre [|c [|w r']]; try discriminate.
      destruct (Z.eqb_spec c 58) as [->|]; [|discriminate].
      destruct (isspace w) eqn:Hw; [|discriminate]. cbn [andb]. intros H.
      apply space_names_Some in H.
      destruct H as (ws & post & -> & Hws & Hne & Hno & Hpost).
      exists (w :: ws), post. repeat split; try assumption; try discriminate.
      - rewrite <- app_assoc. reflexivity.
      - constructor; assumption. }
    destruct t as [|c t]; [discriminate|].
    destruct (Z.eqb_spec c 115) as [->|Hc]; intros H.
    + destruct (Hcolon (lit "Speakers") t H) as (ws & post & Heq & Hrest).
      exists (lit "Speakers:"), ws, post.
      split; [exact Heq|]. split; [right; reflexivity | exact Hrest].
    + destruct (Hcolon (lit "Speaker") (c :: t) H) as (ws & post & Heq & Hrest).
      exists (lit "Speaker:"), ws, post.
      split; [exact Heq|]. split; [left; reflexivity | exact Hrest].
  - intros d H. unfold extract_speakers. rewrite H. reflexivity.
Qed.

(** On a text made of a label, white space and names, [extract_speakers]
    returns the names up to the end of the line, where the substitution of
    [parse_session] keeps all that follows the white space: the two agree
    exactly on the texts of one line. *)
Theorem extract_speakers_vs_label (label ws names post : str) :
  is_label label -> ws <> [] -> all_space ws ->
  names <> [] -> no_leading_space names -> ~ In 10 names ->
  post = [] \/ (exists p, post = 10 :: p) ->
  extract_speakers (label ++ ws ++ names ++ post) = Some names /\
  sub_speaker_label (label ++ ws ++ names ++ post) = names ++ post.
Proof.
  intros Hl Hne Hws Hn Hlead Hno Hpost. split.
  - destruct ws as [|w ws]; [congruence|].
    inversion Hws as [|? ? Hw Hws']; subst.
    unfold extract_speakers.
    destruct Hl as [-> | ->]; unlit; cbn [app startswith skipn];
      rewrite ?Z.eqb_refl; cbn [andb Z.eqb Pos.eqb]; rewrite Hw;
      apply space_names_app; assumption.
  - apply sub_speaker_label_strips; try assumption.
    destruct names as [|c names]; [congruence | exact Hlead].
Qed.

(** The theorem at the text ["Speakers: Ann, Bob"], a line feed and more. *)
Lemma extract_speakers_vs_label_witness :
  extract_speakers (lit "Speakers:" ++ lit " " ++ lit "Ann, Bob" ++ (10 :: lit "More"))
  = Some (lit "Ann, Bob") /\
  sub_speaker_label (lit "Speakers:" ++ lit " " ++ lit "Ann, Bob" ++ (10 :: lit "More"))
  = lit "Ann, Bob" ++ (10 :: lit "More").
Proof.
  apply extract_speakers_vs_label.
  - right. reflexivity.
  - discriminate.
  - repeat constructor.
  - discriminate.
  - reflexivity.
  - vm_compute. intuition discriminate.
  - right. eexists. reflexivity.
Defined.

(** ** The texts of [get_text] *)

Lemma lstrip_no_leading (s : str) : no_leading_space (lstrip s).
Proof. destruct (lstrip_split s) as (ws & _ & _ & H). exact H. Qed.

Lemma rstrip_prefix (s : str) :
  exists ws, s = rstrip s ++ ws /\ all_space ws.
Proof.
  unfold rstrip. destruct (lstrip_split (rev s)) as (ws & Heq & Hws & _).
  exists (rev ws). split.
  - rewrite <- rev_app_distr, <- Heq, rev_involutive. reflexivity.
  - apply Forall_rev. exact Hws.
Qed.

Lemma strip_clean (s : str) : strip s <> [] -> clean (strip s).
Proof.
  intros Hne. split; [exact Hne|]. split.
  - unfold strip in *. destruct (rstrip_prefix (lstrip s)) as (ws & Heq & _).
    pose proof (lstrip_no_leading s) as Hlead. rewrite Heq in Hlead.
    destruct (rstrip (lstrip s)) as [|c t]; [congruence | exact Hlead].
  - unfold no_trailing_space, strip, rstrip. rewrite rev_involutive.
    apply lstrip_no_leading.
Qed.

Lemma clean_app (a sep b : str) : clean a -> clean b -> clean (a ++ sep ++ b).
Proof.
  intros (Ha & Hla & _) (Hb & _ & Htb). split; [|split].
  - destruct a; [congruence | discriminate].
  - destruct a as [|c a]; [congruence | exact Hla].
  - unfold no_trailing_space in *. rewrite !rev_app_distr, <- app_assoc.
    destruct (rev b) as [|c t] eqn:Hr; [|exact Htb].
    apply (f_equal (@rev Z)) in Hr. rewrite rev_involutive in Hr. contradiction.
Qed.

Lemma join_clean (sep : str) (pieces : list str) :
  pieces <> [] -> Forall clean pieces -> clean (join sep pieces).
Proof.
  induction pieces as [|p pieces IH]; intros Hne Hall; [congruence|].
  inversion Hall as [|? ? Hp Hrest]; subst.
  destruct pieces as [|q pieces]; [exact Hp|].
  change (join sep (p :: q :: pieces)) with (p ++ sep ++ join sep (q :: pieces)).
  apply clean_app; [exact Hp|]. apply IH; [discriminate | exact Hrest].
Qed.

(** A text returned by [get_text] is not empty and neither begins nor ends
    with white space. *)
Lemma get_text_Some_clean {E : Type} {EL : Element E} (el : E) (sel t : str) :
  get_text el sel = Ok (Some t) -> clean t.
Proof.
  unfold get_text. destruct (cssselect el sel) as [matches|e]; [|discriminate].
  cbn [bind]. cbv zeta.
  set (pieces := filter _ _).
  assert (Hall : Forall clean pieces).
  { apply Forall_forall. intros p Hp. apply filter_In in Hp.
    destruct Hp as [Hin Hlen]. apply in_map_iff in Hin.
    destruct Hin as (m & <- & _). apply strip_clean.
    destruct (strip (text_content m)); [discriminate | discriminate]. }
  clearbody pieces. destruct pieces as [|p ps]; [discriminate|].
  pose proof (join_clean [10; 10] (p :: ps) ltac:(discriminate) Hall) as Hc.
  destruct (join [10; 10] (p :: ps)) as [|c j]; [discriminate|].
  intros [= <-]. exact Hc.
Qed.

Section Fields.
Context {U : UnicodeData} {E : Type} {EL : Element E}.

Lemma parse_session_texts (el : E) (d : str) (r : session) :
  parse_session el d = Ok r ->
  get_text el (lit ".event-title") = Ok (title r) /\
  get_text el (lit ".event-type") = Ok (type r) /\
  get_text el (lit ".event-content p:not(.event-speakers)") = Ok (description r) /\
  get_text el (lit ".event-meta h4") = Ok (room r) /\
  exists raw, get_text el (lit ".event-speakers") = Ok raw /\
              speakers r = option_map sub_speaker_label raw.
Proof.
  unfold parse_session. intros H.
  apply bind_Ok in H. destruct H as (raw & Hraw & H).
  apply bind_Ok in H. destruct H as (t & Htime & H).
  apply bind_Ok in H. destruct H as (s_time & Hsome & H).
  apply bind_Ok in H. destruct H as ([ts te] & Ht & H).
  apply bind_Ok in H. destruct H as (links & Hlinks & H).
  apply bind_Ok in H. destruct H as (link & Hlink & H).
  apply bind_Ok in H. destruct H as (href & Hhref & H).
  apply bind_Ok in H. destruct H as (s_title & Htitle & H).
  apply bind_Ok in H. destruct H as (s_type & Htype & H).
  apply bind_Ok in H. destruct H as (s_description & Hdescription & H).
  apply bind_Ok in H. destruct H as (q & Hq & H).
  apply bind_Ok in H. destruct H as (len & Hlen & H).
  apply bind_Ok in H. destruct H as (s_room & Hroom & H).
  injection H as <-. cbn [title type description room speakers].
  repeat split; try assumption. exists raw. split; [assumption | reflexivity].
Qed.

Lemma sub_speaker_label_clean (raw : str) :
  clean raw -> clean (sub_speaker_label raw).
Proof.
  intros Hraw. unfold sub_speaker_label.
  destruct (match_speaker_label raw) as [rest|] eqn:Hm; [|exact Hraw].
  apply match_speaker_label_Some in Hm.
  destruct Hm as (label & ws & -> & _ & Hne & Hws & Hlead).
  destruct Hraw as (_ & _ & Htrail).
  unfold no_trailing_space in Htrail. rewrite !rev_app_distr in Htrail.
  assert (Hrest : rest <> []).
  { intros ->. cbn [rev app] in Htrail.
    destruct ws as [|w ws]; [congruence|]. apply Forall_rev in Hws.
    destruct (rev (w :: ws)) as [|c t] eqn:Hr.
    - apply (f_equal (@rev Z)) in Hr. rewrite rev_involutive in Hr. discriminate.
    - inversion Hws; subst. simpl in Htrail. congruence. }
  split; [exact Hrest|]. split; [exact Hlead|].
  unfold no_trailing_space. destruct (rev rest) as [|c t] eqn:Hr.
  - apply (f_equal (@rev Z)) in Hr. rewrite rev_involutive in Hr. contradiction.
  - exact Htrail.
Qed.

(** The texts of a record: the title, the type, the description, the room
    and the speakers are each [None] or a text that is not empty and
    neither begins nor ends with white space; for the speakers this holds
    after the label has been removed. *)
Theorem record_texts_clean (el : E) (d : str) (r : session) :
  parse_session el d = Ok r ->
  forall t,
    title r = Some t \/ type r = Some t \/ description r = Some t \/
    room r = Some t \/ speakers r = Some t ->
    clean t.
Proof.
  intros H t Ht. apply parse_session_texts in H.
  destruct H as (Htitle & Htype & Hdesc & Hroom & raw & Hraw & Hsp).
  destruct Ht as [Ht|[Ht|[Ht|[Ht|Ht]]]].
  - rewrite Ht in Htitle. eapply get_text_Some_clean, Htitle.
  - rewrite Ht in Htype. eapply get_text_Some_clean, Htype.
  - rewrite Ht in Hdesc. eapply get_text_Some_clean, Hdesc.
  - rewrite Ht in Hroom. eapply get_text_Some_clean, Hroom.
  - rewrite Hsp in Ht. destruct raw as [raw|]; [|discriminate].
    injection Ht as <-. apply sub_speaker_label_clean.
    eapply get_text_Some_clean, Hraw.
Qed.

End Fields.

(** The theorem at a session whose speakers text is ["Speaker: Ann"]. *)
Lemma record_texts_clean_witness : clean (lit "Ann").
Proof.
  destruct (@parse_session ascii_digits node no_page plain_session (lit "2019-03-06"))
    as [r|e] eqn:Hrun; [|vm_compute in Hrun; discriminate Hrun].
  apply (@record_texts_clean ascii_digits node no_page plain_session
           (lit "2019-03-06") r Hrun).
  vm_compute in Hrun. injection Hrun as <-. right. right. right. right.
  reflexivity.
Defined.

(** ** [split] and [join] on any separator *)

Lemma split_scan_skip (sep p s : str) :
  split_scan sep (length p) (p ++ s) = split_scan sep 0 s.
Proof. induction p as [|c p IH]; [reflexivity | exact IH]. Qed.

Lemma split_scan_not_nil (sep : str) (k : nat) (s : str) : split_scan sep k s <> [].
Proof.
  revert k; induction s as [|c s IH]; intros k; cbn [split_scan]; [discriminate|].
  destruct k; [|apply IH].
  destruct (startswith (c :: s) sep); [discriminate|].
  destruct (split_scan sep 0 s); discriminate.
Qed.

Lemma join_cons_piece (sep : str) (c : Z) (p : str) (ps : list str) :
  join sep ((c :: p) :: ps) = c :: join sep (p :: ps).
Proof. destruct ps; reflexivity. Qed.

(** Splitting loses nothing: the pieces joined by the separator are the
    text. *)
Lemma split_join (sep s : str) : sep <> [] -> join sep (split s sep) = s.
Proof.
  intros Hsep. unfold split.
  assert (H : forall n s, (length s <= n)%nat -> join sep (split_scan sep 0 s) = s).
  { clear s. induction n as [|n IH]; intros s Hn.
    - destruct s; [reflexivity | simpl in Hn; lia].
    - destruct s as [|c s]; [reflexivity|]. cbn [split_scan].
      destruct (startswith (c :: s) sep) eqn:Hp.
      + apply startswith_app in Hp. destruct Hp as [t Ht].
        destruct sep as [|x sep']; [congruence|].
        injection Ht as -> ->.
        replace (length (x :: sep') - 1)%nat with (length sep')
          by (cbn [length]; lia).
        rewrite split_scan_skip.
        pose proof (split_scan_not_nil (x :: sep') 0 t) as Hne.
        destruct (split_scan (x :: sep') 0 t) as [|p ps] eqn:Hs; [congruence|].
        change (join (x :: sep') ([] :: p :: ps))
          with ((x :: sep') ++ join (x :: sep') (p :: ps)).
        rewrite <- Hs, IH; [reflexivity|].
        simpl in Hn. rewrite length_app in Hn. lia.
      + pose proof (split_scan_not_nil sep 0 s) as Hne.
        destruct (split_scan sep 0 s) as [|p ps] eqn:Hs; [congruence|].
        rewrite join_cons_piece, <- Hs, IH; [reflexivity|]. simpl in Hn. lia. }
  apply (H (length s)). lia.
Qed.

(** ** The time window and the errors of [parse_session] *)

Section Window.
Context {U : UnicodeData} {E : Type} {EL : Element E}.

Lemma true_div_60_Raise (d : Z) (e : exn) :
  true_div d 60 = Raise e -> e = OverflowError.
Proof.
  unfold true_div. cbn [Z.eqb].
  destruct (nearest_quotient (exact d) (exact 60)); congruence.
Qed.

Lemma calculate_length_converted_Raise (a b s t : str) (e : exn) :
  convert_time a = Ok s -> convert_time b = Ok t ->
  calculate_length s t = Raise e -> e = OverflowError.
Proof.
  intros Ha Hb. apply convert_time_Ok in Ha, Hb.
  destruct Ha as (_ & _ & h & m & _ & _ & _ & ->).
  destruct Hb as (_ & _ & h' & m' & _ & _ & _ & ->).
  fold (hhmm h m). fold (hhmm h' m'). rewrite calculate_length_hhmm.
  apply true_div_60_Raise.
Qed.

(** The times that [convert_time] returns are read back by
    [calculate_length]: it raises no [ValueError] on them, and fails only
    when the quotient is too large for a float. *)
Theorem calculate_length_converted (a b s t : str) :
  convert_time a = Ok s -> convert_time b = Ok t ->
  exists h m h' m',
    s = hhmm h m /\ t = hhmm h' m' /\
    mapM int (split s (lit ":")) = Ok [h; m] /\
    mapM int (split t (lit ":")) = Ok [h'; m'] /\
    calculate_length s t = true_div (minutes h' m' - minutes h m) 60 /\
    (forall e, calculate_length s t = Raise e -> e = OverflowError).
Proof.
  intros Ha Hb. apply convert_time_Ok in Ha, Hb.
  destruct Ha as (_ & _ & h & m & _ & _ & _ & ->).
  destruct Hb as (_ & _ & h' & m' & _ & _ & _ & ->).
  fold (hhmm h m). fold (hhmm h' m').
  exists h, m, h', m'. rewrite !mapM_int_hhmm, calculate_length_hhmm.
  repeat split. intros e. apply true_div_60_Raise.
Qed.

(** A record is produced only for a time text of the form
    [<nums> <suffix> - <nums> <suffix>] with suffixes [am] or [pm]. *)
Theorem parse_session_time_format (el : E) (d : str) (r : session) :
  parse_session el d = Ok r ->
  exists n1 s1 n2 s2,
    get_text el (lit ".event-meta p")
    = Ok (Some ((n1 ++ lit " " ++ s1) ++ lit " - " ++ (n2 ++ lit " " ++ s2))) /\
    ~ In 32 n1 /\ ~ In 32 n2 /\
    (s1 = lit "am" \/ s1 = lit "pm") /\ (s2 = lit "am" \/ s2 = lit "pm") /\
    convert_time (n1 ++ lit " " ++ s1) = Ok (time_start r) /\
    convert_time (n2 ++ lit " " ++ s2) = Ok (time_end r).
Proof.
  intros H. apply parse_session_Ok in H.
  destruct H as (s_time & a & b & link & rest & href & q & raw
                 & Htime & Hsplit & Ha & Hb & _).
  pose proof (split_join (lit " - ") s_time ltac:(discriminate)) as Hjoin.
  rewrite Hsplit in Hjoin. cbn [join] in Hjoin.
  destruct (convert_time_Ok _ _ Ha) as (n1 & s1 & _ & _ & Heq1 & Hn1 & Hs1 & _).
  destruct (convert_time_Ok _ _ Hb) as (n2 & s2 & _ & _ & Heq2 & Hn2 & Hs2 & _).
  exists n1, s1, n2, s2. rewrite <- Heq1, <- Heq2, Hjoin.
  repeat split; assumption.
Qed.

(** The exceptions of [parse_session], each with its cause; on a node
    that is no element, a comment among the children of a day for one, the
    first selection raises [ValueError]. *)
Theorem parse_session_errors (el : E) (d : str) :
  (forall e,
      parse_session el d = Raise e ->
      (e = ValueError NotAnElement /\ is_element el = false) \/
      (e = AttributeError /\ get_text el (lit ".event-meta p") = Ok None) \/
      (exists why t, e = ValueError why /\
                     get_text el (lit ".event-meta p") = Ok (Some t) /\
                     unpack2_map convert_time (split t (lit " - ")) = Raise e) \/
      (e = IndexError /\ cssselect el (lit ".event-title a") = Ok []) \/
      (e = KeyError (lit "href") /\
       exists link rest,
         cssselect el (lit ".event-title a") = Ok (link :: rest) /\
         attrib link (lit "href") = None) \/
      e = OverflowError) /\
  (is_element el = false ->
   parse_session el d = Raise (ValueError NotAnElement)).
Proof.
  split.
  - intros e.
    assert (Htext : forall sel e', get_text el sel = Raise e' ->
                                   e' = ValueError NotAnElement /\ is_element el = false).
    { intros sel e' H. apply get_text_Raise in H. tauto. }
    unfold parse_session.
    destruct (get_text el (lit ".event-speakers")) as [raw|e'] eqn:Hraw; cbn [bind];
      [|intros [= <-]; left; eapply Htext; eassumption].
    destruct (get_text el (lit ".event-meta p")) as [[t|]|e'] eqn:Htime; cbn [bind];
      [| intros [= <-]; right; left; auto
       | intros [= <-]; left; eapply Htext; eassumption].
    destruct (unpack2_map convert_time _) as [[ts te]|e'] eqn:Ht; cbn [bind].
    2: { intros [= <-]. right. right. left.
         destruct (unpack2_map_convert_Raise _ _ Ht) as [why ->]. eauto. }
    apply unpack2_map_Ok in Ht. destruct Ht as (a & b & _ & Ha & Hb).
    destruct (cssselect el (lit ".event-title a")) as [[|link rest]|e'] eqn:Hsel;
      cbn [first_item bind].
    { intros [= <-]. right. right. right. left. auto. }
    2: { intros [= <-]. left. apply cssselect_Raise in Hsel. tauto. }
    destruct (attrib link (lit "href")) as [href|] eqn:Hhref; cbn [bind].
    2: { intros [= <-]. right. right. right. right. left.
         split; [reflexivity|]. eauto. }
    destruct (get_text el (lit ".event-title")) as [s_title|e'] eqn:Htitle;
      cbn [bind]; [|intros [= <-]; left; eapply Htext; eassumption].
    destruct (get_text el (lit ".event-type")) as [s_type|e'] eqn:Htype;
      cbn [bind]; [|intros [= <-]; left; eapply Htext; eassumption].
    destruct (get_text el (lit ".event-content p:not(.event-speakers)"))
      as [s_description|e'] eqn:Hdescription;
      cbn [bind]; [|intros [= <-]; left; eapply Htext; eassumption].
    destruct (calculate_length ts te) as [q|e'] eqn:Hq; cbn [bind].
    2: { intros [= <-]. do 5 right.
         exact (calculate_length_converted_Raise a b ts te _ Ha Hb Hq). }
    destruct (round3 q) as [x|e'] eqn:Hr; cbn [bind].
    2: { intros [= <-]. do 5 right. eapply round3_Raise, Hr. }
    destruct (get_text el (lit ".event-meta h4")) as [s_room|e'] eqn:Hroom;
      cbn [bind]; [discriminate|intros [= <-]; left; eapply Htext; eassumption].
  - intros Hel. unfold parse_session.
    assert (Hraw : get_text el (lit ".event-speakers") = Raise (ValueError NotAnElement))
      by (apply get_text_Raise; auto).
    rewrite Hraw. reflexivity.
Qed.

End Window.

(** [calculate_length_converted] at the tokens ["9 am"] and ["10:30 am"]. *)
Lemma calculate_length_converted_witness :
  exists h m h' m',
    lit "09:00" = hhmm h m /\ lit "10:30" = hhmm h' m' /\
    @calculate_length ascii_digits (lit "09:00") (lit "10:30")
    = true_div (minutes h' m' - minutes h m) 60.
Proof.
  destruct (@calculate_length_converted ascii_digits
              (lit "9 am") (lit "10:30 am") (lit "09:00") (lit "10:30"))
    as (h & m & h' & m' & Hs & Ht & _ & _ & Hc & _).
  - vm_compute. reflexivity.
  - vm_compute. reflexivity.
  - exists h, m, h', m'. auto.
Defined.

(** [parse_session_time_format] at a well-formed session. *)
Lemma parse_session_time_format_witness :
  exists n1 s1 n2 s2,
    @get_text node no_page plain_session (lit ".event-meta p")
    = Ok (Some ((n1 ++ lit " " ++ s1) ++ lit " - " ++ (n2 ++ lit " " ++ s2))) /\
    (s1 = lit "am" \/ s1 = lit "pm") /\ (s2 = lit "am" \/ s2 = lit "pm").
Proof.
  destruct (@parse_session ascii_digits node no_page plain_session (lit "2019-03-06"))
    as [r|e] eqn:Hrun; [|vm_compute in Hrun; discriminate Hrun].
  destruct (@parse_session_time_format ascii_digits node no_page plain_session
              (lit "2019-03-06") r Hrun)
    as (n1 & s1 & n2 & s2 & Htext & _ & _ & Hs1 & Hs2 & _).
  exists n1, s1, n2, s2. auto.
Defined.

(** [parse_session_errors] at a comment. *)
Lemma parse_session_errors_witness :
  @parse_session ascii_digits node no_page (Comment (lit " break ")) (lit "2019-03-06")
  = Raise (ValueError NotAnElement).
Proof.
  apply (proj2 (@parse_session_errors ascii_digits node no_page _ _)).
  reflexivity.
Defined.

(** ** The order of the time strings *)

Lemma hhmm_digits (h m : Z) :
  0 <= h <= 99 -> 0 <= m <= 99 ->
  hhmm h m = [48 + h / 10; 48 + h mod 10; 58; 48 + m / 10; 48 + m mod 10].
Proof.
  intros Hh Hm. unfold hhmm. rewrite !format_02d_two_digits by assumption.
  reflexivity.
Qed.

(** For hours below 100 and minutes below 60 the order of the texts is the
    order of the times: this is what lets the sort compare the texts. *)
Lemma hhmm_order (h m h' m' : Z) :
  0 <= h <= 99 -> 0 <= m <= 59 -> 0 <= h' <= 99 -> 0 <= m' <= 59 ->
  (str_ltb (hhmm h m) (hhmm h' m') = true <-> minutes h m < minutes h' m') /\
  (hhmm h m = hhmm h' m' <-> minutes h m = minutes h' m').
Proof.
  intros Hh Hm Hh' Hm'. rewrite !hhmm_digits by lia. unfold minutes.
  split.
  - rewrite !str_ltb_cons. cbn [str_ltb].
    Z.div_mod_to_equations. split; intros Hlt; lia.
  - split.
    + intros H.
      pose proof (f_equal (fun l => nth 0 l 0) H) as H1.
      pose proof (f_equal (fun l => nth 1 l 0) H) as H2.
      pose proof (f_equal (fun l => nth 3 l 0) H) as H3.
      pose proof (f_equal (fun l => nth 4 l 0) H) as H4.
      cbn [nth] in H1, H2, H3, H4. clear H.
      Z.div_mod_to_equations. lia.
    + intros H. assert (h = h' /\ m = m') as [-> ->] by lia. reflexivity.
Qed.

Lemma decimal_no_char (h c : Z) :
  0 <= h -> ~ (48 <= c <= 57) -> ~ In c (decimal h).
Proof.
  intros Hh Hc Hin. destruct (decimal_spec h Hh) as (_ & Hds & _).
  unfold all_digits in Hds. rewrite Forall_forall in Hds.
  apply Hds, is_digit_range in Hin. contradiction.
Qed.

Lemma format_02d_no_char (m c : Z) :
  ~ (48 <= c <= 57) -> c <> 45 -> ~ In c (format_02d m).
Proof. intros Hc H45 Hin. apply format_02d_chars in Hin. tauto. Qed.

Section Clock.
Context {U : UnicodeData}.

Lemma int_decimal (h : Z) : 0 <= h -> int (decimal h) = Ok h.
Proof.
  intros Hh. destruct (decimal_spec h Hh) as (Hne & Hds & Hv).
  rewrite int_all_digits by assumption. congruence.
Qed.

Lemma convert_time_clock_token (h m : Z) (pm : bool) :
  0 <= h ->
  convert_time (clock_token h m pm)
  = Ok (hhmm (if pm then (if h =? 12 then h else h + 12) else h) m).
Proof.
  intros Hh. unfold clock_token.
  apply (convert_time_run _ (suffix_of pm) (decimal h) (format_02d m) pm h m).
  - unlit. rewrite in_app_iff. cbn [app In].
    pose proof (decimal_no_char h 32 Hh ltac:(lia)).
    pose proof (format_02d_no_char m 32 ltac:(lia) ltac:(lia)).
    intros [?|[?|?]]; [tauto | lia | tauto].
  - destruct pm; [right | left]; split; reflexivity.
  - change (lit ":") with [58]. cbn [app].
    assert (Hc : count (decimal h ++ 58 :: format_02d m) [58] <> O).
    { rewrite count1_zero, in_app_iff. simpl. tauto. }
    destruct (count (decimal h ++ 58 :: format_02d m) [58]); [congruence|].
    cbn [Nat.eqb]. rewrite split1_app by (apply decimal_no_char; lia).
    rewrite split1_none by apply format_02d_no_colon. reflexivity.
  - apply int_decimal, Hh.
  - apply int_format_02d.
Qed.

(** Times of the 12-hour clock other than the hour after midnight keep
    their order: the text of the earlier time is the smaller one. *)
Theorem convert_time_chronological (h1 m1 h2 m2 : Z) (pm1 pm2 : bool) :
  1 <= h1 <= 12 -> 0 <= m1 <= 59 -> 1 <= h2 <= 12 -> 0 <= m2 <= 59 ->
  (pm1 = false -> h1 <> 12) -> (pm2 = false -> h2 <> 12) ->
  exists s1 s2,
    convert_time (clock_token h1 m1 pm1) = Ok s1 /\
    convert_time (clock_token h2 m2 pm2) = Ok s2 /\
    (str_ltb s1 s2 = true <-> clock_minutes h1 m1 pm1 < clock_minutes h2 m2 pm2) /\
    (s1 = s2 <-> clock_minutes h1 m1 pm1 = clock_minutes h2 m2 pm2).
Proof.
  intros Hh1 Hm1 Hh2 Hm2 Hn1 Hn2.
  rewrite !convert_time_clock_token by lia.
  eexists. eexists. split; [reflexivity|]. split; [reflexivity|].
  assert (Hclock : forall h m pm,
             1 <= h <= 12 -> (pm = false -> h <> 12) ->
             let H := if pm then (if h =? 12 then h else h + 12) else h in
             0 <= H <= 99 /\ clock_minutes h m pm = minutes H m).
  { intros h m pm Hh Hn. unfold clock_minutes, minutes.
    destruct pm.
    - destruct (Z.eqb_spec h 12) as [->|Hne]; [split; [lia | reflexivity]|].
      rewrite Z.mod_small by lia. lia.
    - specialize (Hn eq_refl). rewrite Z.mod_small by lia. lia. }
  destruct (Hclock h1 m1 pm1 Hh1 Hn1) as [Hr1 ->].
  destruct (Hclock h2 m2 pm2 Hh2 Hn2) as [Hr2 ->].
  apply hhmm_order; assumption.
Qed.

(** The hour after midnight is not told from the hour after noon:
    [12:mm am] is given the text of [12:mm pm].  So the text of a time in
    the hour after midnight is greater than the text of every later time of
    the morning. *)
Theorem convert_time_midnight (m h m' : Z) :
  0 <= m <= 59 -> 1 <= h <= 11 -> 0 <= m' <= 59 ->
  exists s s',
    convert_time (clock_token 12 m false) = Ok s /\
    convert_time (clock_token 12 m true) = Ok s /\
    convert_time (clock_token h m' false) = Ok s' /\
    clock_minutes 12 m false < clock_minutes h m' false /\
    str_ltb s' s = true.
Proof.
  intros Hm Hh Hm'.
  rewrite !convert_time_clock_token by lia.
  eexists. eexists. split; [reflexivity|]. split; [reflexivity|].
  split; [reflexivity|]. cbn [Z.eqb Pos.eqb].
  split.
  - unfold clock_minutes. rewrite Z.mod_same by lia.
    rewrite Z.mod_small by lia. lia.
  - apply hhmm_order; unfold minutes; lia.
Qed.

End Clock.

(** [convert_time_chronological] at [11:30 am] and [1:05 pm]. *)
Lemma convert_time_chronological_witness :
  exists s1 s2,
    @convert_time ascii_digits (clock_token 11 30 false) = Ok s1 /\
    @convert_time ascii_digits (clock_token 1 5 true) = Ok s2 /\
    str_ltb s1 s2 = true.
Proof.
  destruct (@convert_time_chronological ascii_digits 11 30 1 5 false true)
    as (s1 & s2 & H1 & H2 & Hlt & _); try lia; try discriminate.
  exists s1, s2. split; [exact H1|]. split; [exact H2|].
  apply Hlt. vm_compute. reflexivity.
Defined.

(** [convert_time_midnight] at [12:15 am] and [9:00 am]. *)
Lemma convert_time_midnight_witness :
  exists s s',
    @convert_time ascii_digits (clock_token 12 15 false) = Ok s /\
    @convert_time ascii_digits (clock_token 9 0 false) = Ok s' /\
    str_ltb s' s = true.
Proof.
  destruct (@convert_time_midnight ascii_digits 15 9 0)
    as (s & s' & H1 & _ & H2 & _ & Hlt); try lia.
  exists s, s'. split; [exact H1|]. split; [exact H2|]. exact Hlt.
Defined.

(** ** The failures and the size of [fix_encoding] *)

Lemma utf8_scan_Raise (b : bytes) :
  forall need lo hi acc e,
    utf8_scan need lo hi acc b = Raise e -> e = UnicodeDecodeError.
Proof.
  induction b as [|x b IH]; intros need lo hi acc e; cbn [utf8_scan].
  - destruct need; congruence.
  - destruct need as [|k].
    + repeat match goal with
             | |- context [if ?c then _ else _] => destruct c
             end; try congruence; try apply IH.
      destruct (utf8_scan 0 128 191 0 b) eqn:Hs; cbn [bind]; [discriminate|].
      intros [= <-]. eapply IH, Hs.
    + destruct (in_range lo hi x); [|congruence].
      destruct k; [|apply IH].
      destruct (utf8_scan 0 128 191 0 b) eqn:Hs; cbn [bind]; [discriminate|].
      intros [= <-]. eapply IH, Hs.
Qed.

(** Decoding gives at most one character for each byte. *)
Lemma utf8_scan_length (b : bytes) :
  forall need lo hi acc s,
    utf8_scan need lo hi acc b = Ok s ->
    (length s + need <= length b + (if (need =? 0)%nat then 0 else 1))%nat.
Proof.
  induction b as [|x b IH]; intros need lo hi acc s; cbn [utf8_scan].
  - destruct need; [|discriminate]. intros [= <-]. simpl. lia.
  - destruct need as [|k]; cbn [Nat.eqb].
    + repeat match goal with
             | |- context [if ?c then _ else _] => destruct c
             end; try discriminate;
        try (intros H; apply IH in H; cbn [Nat.eqb length] in *; lia).
      destruct (utf8_scan 0 128 191 0 b) eqn:Hs; cbn [bind]; [|discriminate].
      intros [= <-]. apply IH in Hs. cbn [Nat.eqb length] in *. lia.
    + destruct (in_range lo hi x); [|discriminate]. destruct k.
      * destruct (utf8_scan 0 128 191 0 b) eqn:Hs; cbn [bind]; [|discriminate].
        intros [= <-]. apply IH in Hs. cbn [Nat.eqb length] in *. lia.
      * intros H. apply IH in H. cbn [Nat.eqb length] in *. lia.
Qed.

Lemma utf8_decode_length (b : bytes) (s : str) :
  utf8_decode b = Ok s -> (length s <= length b)%nat.
Proof. intros H. apply utf8_scan_length in H. simpl in H. lia. Qed.

Lemma trail_run_trail (s : str) : Forall (fun c => is_trail c = true) (trail_run s).
Proof.
  induction s as [|c s IH]; cbn [trail_run]; [constructor|].
  destruct (is_trail c) eqn:Hc; constructor; assumption.
Qed.

Lemma trail_run_length (s : str) : (length (trail_run s) <= length s)%nat.
Proof.
  induction s as [|c s IH]; cbn [trail_run]; [lia|].
  destruct (is_trail c); simpl; lia.
Qed.

Lemma latin1_encode_bytes (s : str) :
  Forall (fun c => in_range 0 255 c = true) s -> latin1_encode s = Ok s.
Proof.
  unfold latin1_encode. induction 1 as [|c s Hc _ IH]; cbn [mapM]; [reflexivity|].
  rewrite Hc. cbn [bind]. rewrite IH. reflexivity.
Qed.

(** On a match, [fix] is the decoding of the characters taken as bytes. *)
Lemma fix_match (c : Z) (run : str) :
  is_lead c = true -> Forall (fun t => is_trail t = true) run ->
  fix_ (c :: run) = utf8_decode (c :: run).
Proof.
  intros Hc Hrun. unfold fix_. rewrite latin1_encode_bytes; [reflexivity|].
  constructor.
  - unfold is_lead, in_range in *. lia.
  - eapply Forall_impl; [|exact Hrun]. intros t Ht.
    unfold is_trail, in_range in *. lia.
Qed.

Lemma sub_fix_Raise (text : str) :
  forall skip e, sub_fix skip text = Raise e -> e = UnicodeDecodeError.
Proof.
  induction text as [|c text IH]; intros skip e; cbn [sub_fix]; [discriminate|].
  destruct skip as [|k]; [|apply IH].
  destruct (is_lead c && negb (length (trail_run text) =? 0)%nat) eqn:Hm.
  - apply andb_true_iff in Hm. destruct Hm as [Hc _].
    rewrite fix_match by (assumption || apply trail_run_trail).
    destruct (utf8_decode (c :: trail_run text)) eqn:Hd; cbn [bind].
    + destruct (sub_fix _ text) eqn:Hs; cbn [bind]; [discriminate|].
      intros [= <-]. eapply IH, Hs.
    + intros [= <-]. eapply utf8_scan_Raise, Hd.
  - destruct (sub_fix 0 text) eqn:Hs; cbn [bind]; [discriminate|].
    intros [= <-]. eapply IH, Hs.
Qed.

Lemma sub_fix_length (text : str) :
  forall skip r, sub_fix skip text = Ok r ->
                 (length r + Nat.min skip (length text) <= length text)%nat.
Proof.
  induction text as [|c text IH]; intros skip r; cbn [sub_fix].
  - intros [= <-]. simpl. lia.
  - destruct skip as [|k].
    + destruct (is_lead c && negb (length (trail_run text) =? 0)%nat) eqn:Hm.
      * apply andb_true_iff in Hm. destruct Hm as [Hc _].
        rewrite fix_match by (assumption || apply trail_run_trail).
        destruct (utf8_decode (c :: trail_run text)) as [fixed|] eqn:Hd;
          cbn [bind]; [|discriminate].
        destruct (sub_fix _ text) as [rest|] eqn:Hs; cbn [bind]; [|discriminate].
        intros [= <-]. apply IH in Hs. apply utf8_decode_length in Hd.
        pose proof (trail_run_length text).
        rewrite length_app. cbn [length] in *. lia.
      * destruct (sub_fix 0 text) as [rest|] eqn:Hs; cbn [bind]; [|discriminate].
        intros [= <-]. apply IH in Hs. cbn [length] in *. lia.
    + intros H. apply IH in H. cbn [length]. lia.
Qed.

(** [fix_encoding] raises nothing but [UnicodeDecodeError], and what it
    returns has at most as many characters as the input has bytes. *)
Theorem fix_encoding_bounds (b : bytes) :
  (forall e, fix_encoding b = Raise e -> e = UnicodeDecodeError) /\
  (forall text, fix_encoding b = Ok text -> (length text <= length b)%nat).
Proof.
  unfold fix_encoding. split.
  - intros e. destruct (utf8_decode b) eqn:Hd; cbn [bind].
    + apply sub_fix_Raise.
    + intros [= <-]. eapply utf8_scan_Raise, Hd.
  - intros text. destruct (utf8_decode b) as [t|] eqn:Hd; cbn [bind]; [|discriminate].
    intros H. apply sub_fix_length in H. apply utf8_decode_length in Hd.
    simpl in H. lia.
Qed.

Ltac split_ifs :=
  repeat match goal with
         | |- context [if ?c then _ else _] => destruct c eqn:?
         end.

Lemma utf8_decode_two_trails (c t1 t2 : Z) (b : bytes) :
  in_range 0xC2 0xDF c = true -> is_trail t1 = true -> is_trail t2 = true ->
  utf8_decode (c :: t1 :: t2 :: b) = Raise UnicodeDecodeError.
Proof.
  intros Hc H1 H2. unfold utf8_decode. cbn [utf8_scan].
  unfold is_trail, in_range in *.
  split_ifs; cbn [bind]; try reflexivity; exfalso; lia.
Qed.

Lemma utf8_decode_one_trail (c t1 : Z) :
  in_range 0xE0 0xF4 c = true ->
  utf8_decode [c; t1] = Raise UnicodeDecodeError.
Proof.
  intros Hc. unfold utf8_decode. cbn [utf8_scan]. unfold in_range in *.
  split_ifs; try reflexivity; exfalso; lia.
Qed.

(** The substitution fails where the characters matched are not the bytes
    of UTF-8 text: on the lead character of a two-byte sequence followed by
    two trail characters, and on the lead character of a longer sequence
    followed by one trail character only. *)
Theorem sub_fix_aborts (pre post : str) (c t1 t2 : Z) :
  has_match_b pre = false -> is_trail t1 = true ->
  (in_range 0xC2 0xDF c = true -> is_trail t2 = true ->
   sub_fix 0 (pre ++ c :: t1 :: t2 :: post) = Raise UnicodeDecodeError) /\
  (in_range 0xE0 0xF4 c = true -> no_leading_trail post ->
   sub_fix 0 (pre ++ c :: t1 :: post) = Raise UnicodeDecodeError).
Proof.
  intros Hpre H1. split.
  - intros Hc H2.
    assert (Hlead : is_lead c = true)
      by (unfold is_lead, in_range in *; lia).
    rewrite sub_fix_prefix;
      [|assumption | unfold no_leading_trail, is_trail, in_range in *; lia].
    cbn [sub_fix trail_run]. rewrite H1, H2, Hlead. cbn [length Nat.eqb negb andb].
    rewrite fix_match.
    + rewrite utf8_decode_two_trails by assumption. reflexivity.
    + exact Hlead.
    + constructor; [assumption|]. constructor; [assumption | apply trail_run_trail].
  - intros Hc Hpost.
    assert (Hlead : is_lead c = true)
      by (unfold is_lead, in_range in *; lia).
    rewrite sub_fix_prefix;
      [|assumption | unfold no_leading_trail, is_trail, in_range in *; lia].
    cbn [sub_fix trail_run]. rewrite H1, Hlead.
    rewrite (trail_run_no_trail post Hpost). cbn [length Nat.eqb negb andb].
    rewrite fix_match.
    + rewrite utf8_decode_one_trail by assumption. reflexivity.
    + exact Hlead.
    + repeat constructor. assumption.
Qed.

(** The theorem at the text [a], [C2], [A0], [A0]. *)
Lemma sub_fix_aborts_witness :
  sub_fix 0 ([0x61] ++ 0xC2 :: 0xA0 :: 0xA0 :: []) = Raise UnicodeDecodeError.
Proof.
  apply (proj1 (sub_fix_aborts [0x61] [] 0xC2 0xA0 0xA0 eq_refl eq_refl));
    reflexivity.
Defined.

(** ** [parse_day] and the whole page *)

Lemma mapM_first_failure {A B} (f : A -> result B) (l : list A) (e : exn) :
  mapM f l = Raise e <->
  exists pre a post,
    l = pre ++ a :: post /\
    (forall x, In x pre -> exists y, f x = Ok y) /\ f a = Raise e.
Proof.
  split.
  - induction l as [|x l IH]; cbn [mapM]; [discriminate|].
    destruct (f x) as [y|e'] eqn:Hx; cbn [bind].
    + destruct (mapM f l) as [ys|e'] eqn:Hl; cbn [bind]; [discriminate|].
      intros [= <-]. destruct (IH eq_refl) as (pre & a & post & -> & Hpre & Ha).
      exists (x :: pre), a, post. repeat split; [|exact Ha].
      intros z [<-|Hz]; eauto.
    + intros [= <-]. exists [], x, l. repeat split; [|exact Hx].
      intros z [].
  - intros (pre & a & post & -> & Hpre & Ha).
    induction pre as [|x pre IH]; cbn [app mapM].
    + rewrite Ha. reflexivity.
    + destruct (Hpre x (or_introl eq_refl)) as [y ->]. cbn [bind].
      rewrite IH; [reflexivity|]. intros z Hz. apply Hpre. right. exact Hz.
Qed.

Section Page.
Context {U : UnicodeData} {E : Type} {EL : Element E}.

(** [parse_day] gives one record for each child, in the order of the
    children, or nothing: it raises what the first child that fails
    raises. *)
Theorem parse_day_all_or_nothing (el : E) (d : str) :
  (forall day,
      parse_day el d = Ok day ->
      length day = length (children el) /\
      forall i r, nth_error day i = Some r ->
                  exists s, nth_error (children el) i = Some s /\
                            parse_session s d = Ok r) /\
  (forall e,
      parse_day el d = Raise e <->
      exists pre s post,
        children el = pre ++ s :: post /\
        (forall x, In x pre -> exists r, parse_session x d = Ok r) /\
        parse_session s d = Raise e).
Proof.
  unfold parse_day. cbv zeta. split.
  - intros day H. split; [eapply mapM_Ok_length, H|].
    intros i r Hi. exact (mapM_Ok_nth _ _ _ H i r Hi).
  - intros e. apply mapM_first_failure.
Qed.

Lemma mapM_Ok_each {A B} (f : A -> result B) (l : list A) (bs : list B) :
  mapM f l = Ok bs ->
  forall i a, nth_error l i = Some a ->
              exists b, nth_error bs i = Some b /\ f a = Ok b.
Proof.
  revert bs; induction l as [|x l IH]; cbn [mapM]; intros bs H i a Hi.
  - destruct i; discriminate.
  - inv_bind. subst bs. destruct i as [|i]; simpl in *.
    + injection Hi as <-. eauto.
    + eauto.
Qed.

Lemma concat_parse_day_length (l : list (E * str)) (nested : list (list session)) :
  mapM (fun '(el, date) => parse_day el date) l = Ok nested ->
  length (concat nested)
  = list_sum (map (fun p => length (children (fst p))) l).
Proof.
  revert nested; induction l as [|[el dt] l IH]; cbn [mapM]; intros nested Hn.
  - injection Hn as <-. reflexivity.
  - inv_bind. subst nested. cbn [concat map list_sum fst].
    rewrite length_app, (IH _ Ha0). unfold list_sum. cbn [fold_right]. f_equal.
    unfold parse_day in Ha. eapply mapM_Ok_length, Ha.
Qed.

Lemma map_fst_combine_DATES (l : list E) :
  list_sum (map (fun p : E * str => length (children (fst p))) (combine l DATES))
  = list_sum (map (fun el => length (children el)) (firstn 5 l)).
Proof.
  unfold DATES.
  do 5 (destruct l as [|? l]; [reflexivity|]).
  cbn [combine map firstn fst]. destruct l; reflexivity.
Qed.

Lemma extract_sessions_each (dom : E) (sessions : list session) (day_els : list E) :
  extract_sessions dom = Ok sessions ->
  cssselect dom (lit "ul.schedule-list.pane") = Ok day_els ->
  (forall i el dt s,
      nth_error day_els i = Some el ->
      nth_error DATES i = Some dt -> In s (children el) ->
      exists r, parse_session s dt = Ok r /\ In r sessions) /\
  length sessions
  = list_sum (map (fun el => length (children el)) (firstn 5 day_els)).
Proof.
  unfold extract_sessions. intros Hex Hsel. rewrite Hsel in Hex.
  cbn [bind] in Hex. cbv zeta in Hex.
  apply bind_Ok in Hex. destruct Hex as (nested & Ha & Hex).
  injection Hex as <-. split.
  - intros i el dt s Hel Hdt Hs.
    assert (Hpair : nth_error (combine day_els DATES) i = Some (el, dt))
      by (apply nth_error_combine; auto).
    destruct (mapM_Ok_each _ _ _ Ha i (el, dt) Hpair) as (day & Hday & Hparse).
    apply In_nth_error in Hs. destruct Hs as [k Hk].
    unfold parse_day in Hparse. cbv zeta in Hparse.
    destruct (mapM_Ok_each _ _ _ Hparse k s Hk) as (r & Hr & Hrun).
    exists r. split; [exact Hrun|].
    apply in_concat. exists day.
    split; eapply nth_error_In; eassumption.
  - rewrite (concat_parse_day_length _ _ Ha).
    apply map_fst_combine_DATES.
Qed.

(** Nothing is skipped: when [get_sessions] returns, every child of each
    of the first five day containers has been parsed, with the date of its
    container, and its record is in the output; the output has as many
    records as these containers have children. *)
Theorem get_sessions_complete (content : bytes) (out : list session) :
  get_sessions content = Ok out ->
  exists html dom day_els,
    fix_encoding content = Ok html /\ fromstring html = Ok dom /\
    cssselect dom (lit "ul.schedule-list.pane") = Ok day_els /\
    (forall i el dt s,
        nth_error day_els i = Some el ->
        nth_error DATES i = Some dt -> In s (children el) ->
        exists r, parse_session s dt = Ok r /\ In r out) /\
    length out
    = list_sum (map (fun el => length (children el)) (firstn 5 day_els)).
Proof.
  intros H. apply get_sessions_Ok in H.
  destruct H as (html & dom & sessions & Hfix & Hdom & Hex & Hsort).
  apply sorted_Permutation in Hsort.
  destruct (extract_sessions_Ok _ _ Hex) as (day_els & _ & Hsel & _).
  destruct (extract_sessions_each _ _ _ Hex Hsel) as [Heach Hlen].
  exists html, dom, day_els.
  split; [exact Hfix|]. split; [exact Hdom|]. split; [exact Hsel|]. split.
  - intros i el dt s Hel Hdt Hs.
    destruct (Heach i el dt s Hel Hdt Hs) as (r & Hrun & Hr).
    exists r. split; [exact Hrun|]. apply (Permutation_in _ Hsort), Hr.
  - rewrite <- (Permutation_length Hsort). exact Hlen.
Qed.

(** A comment among the children of one of the first five day containers
    ends the run: [get_sessions] raises, and the records of the other
    sessions are lost with it. *)
Theorem get_sessions_comment_aborts (content : bytes) (html : str) (dom : E)
        (day_els : list E) (i : nat) (el c : E) :
  fix_encoding content = Ok html -> fromstring html = Ok dom ->
  cssselect dom (lit "ul.schedule-list.pane") = Ok day_els ->
  nth_error day_els i = Some el -> (i < 5)%nat ->
  In c (children el) -> is_element c = false ->
  exists e, extract_sessions dom = Raise e /\ get_sessions content = Raise e.
Proof.
  intros Hfix Hdom Hsel Hel Hi Hc Hno.
  unfold get_sessions. rewrite Hfix. cbn [bind]. rewrite Hdom. cbn [bind].
  destruct (extract_sessions dom) as [sessions|e] eqn:Hex; cbn [bind].
  - exfalso. destruct (extract_sessions_each _ _ _ Hex Hsel) as [Heach _].
    assert (Hdt : exists dt, nth_error DATES i = Some dt).
    { destruct (nth_error DATES i) as [dt|] eqn:Hd; [eauto|].
      apply nth_error_None in Hd. cbn [DATES length] in Hd. lia. }
    destruct Hdt as [dt Hdt].
    destruct (Heach i el dt c Hel Hdt Hc) as (r & Hrun & _).
    apply parse_session_Ok in Hrun.
    destruct Hrun as (? & ? & ? & ? & ? & ? & ? & ? & Htime & _).
    apply get_text_Ok_element in Htime. congruence.
  - exists e. auto.
Qed.

End Page.

(** The dates of [DATES] grow. *)
Lemma DATES_increasing (i j : nat) (di dj : str) :
  nth_error DATES i = Some di -> nth_error DATES j = Some dj -> (i < j)%nat ->
  str_ltb di dj = true.
Proof.
  unfold DATES. intros Hi Hj Hij.
  destruct i as [|[|[|[|[|i]]]]]; cbn [nth_error] in Hi;
    try (destruct i; discriminate Hi);
    destruct j as [|[|[|[|[|j]]]]]; cbn [nth_error] in Hj;
    try (destruct j; discriminate Hj);
    try lia; injection Hi as <-; injection Hj as <-; reflexivity.
Qed.

Section DayOrder.
Context {U : UnicodeData} {E : Type} {EL : Element E}.

(** The output of [get_sessions] lists the days in the order of the page:
    every record carries one of the dates of [DATES], and a record of an
    earlier day container comes before every record of a later one. *)
Theorem days_in_page_order (content : bytes) (out : list session) :
  get_sessions content = Ok out ->
  (forall r, In r out -> In (date r) DATES) /\
  (forall p q a b i j,
      nth_error out p = Some a -> nth_error out q = Some b ->
      nth_error DATES i = Some (date a) -> nth_error DATES j = Some (date b) ->
      (i < j)%nat -> (p < q)%nat).
Proof.
  intros H. apply get_sessions_Ok in H.
  destruct H as (html & dom & sessions & _ & _ & Hex & Hsort).
  pose proof (sorted_sessions_Sorted _ _ Hsort) as Hstrong.
  pose proof (sorted_Permutation _ _ _ _ Hsort) as Hperm.
  split.
  - intros r Hr. apply (Permutation_in _ (Permutation_sym Hperm)) in Hr.
    apply extract_sessions_Ok in Hex.
    destruct Hex as (day_els & nested & _ & -> & _ & Hdays).
    apply in_concat in Hr. destruct Hr as (day & Hday & Hr).
    apply In_nth_error in Hday. destruct Hday as [k Hk].
    destruct (Hdays k day Hk) as (el & d & _ & Hd & _ & Hall).
    rewrite Forall_forall in Hall. rewrite (Hall r Hr).
    eapply nth_error_In, Hd.
  - intros p q a b i j Ha Hb Hi Hj Hij.
    pose proof (DATES_increasing i j _ _ Hi Hj Hij) as Hlt.
    assert (Hkey : tuple_cmp op_lt (sort_key a) (sort_key b) = Ok true).
    { unfold sort_key. cbn [tuple_cmp value_eqb value_cmp].
      destruct (str_eqb (date a) (date b)) eqn:Heq; [|rewrite Hlt; reflexivity].
      apply str_eqb_eq in Heq. rewrite Heq, str_ltb_irrefl in Hlt.
      discriminate. }
    destruct (Nat.lt_trichotomy p q) as [Hpq|[->|Hqp]]; [exact Hpq| |].
    + rewrite Ha in Hb. injection Hb as <-.
      rewrite tuple_lt_irrefl in Hkey. discriminate.
    + exfalso. apply (tuple_lt_not_ge _ _ Hkey).
      apply (StronglySorted_nth _ _ Hstrong q p); assumption.
Qed.

End DayOrder.

(** ** The event identifier, read off the link *)

Lemma split1_app_sep (c : Z) (x y : str) :
  split (x ++ c :: y) [c] = split x [c] ++ split y [c].
Proof.
  induction x as [|z x IH]; cbn [app].
  - rewrite split1_cons, Z.eqb_refl. reflexivity.
  - rewrite !split1_cons, IH. destruct (c =? z); [reflexivity|].
    pose proof (split1_not_nil c x) as Hn.
    destruct (split x [c]); [congruence|reflexivity].
Qed.

Lemma join_app (sep : str) (l1 l2 : list str) :
  l1 <> [] -> l2 <> [] ->
  join sep (l1 ++ l2) = join sep l1 ++ sep ++ join sep l2.
Proof.
  intros H1 H2. induction l1 as [|p l1 IH]; [congruence|].
  destruct l1 as [|p' l1].
  - destruct l2; [congruence|reflexivity].
  - change (join sep ((p :: p' :: l1) ++ l2))
      with (p ++ sep ++ join sep ((p' :: l1) ++ l2)).
    rewrite IH by discriminate.
    change (join sep (p :: p' :: l1)) with (p ++ sep ++ join sep (p' :: l1)).
    rewrite <- !app_assoc. reflexivity.
Qed.

Lemma join_part (sep : str) (l1 mid l2 : list str) :
  exists pre post, join sep (l1 ++ mid ++ l2) = pre ++ join sep mid ++ post.
Proof.
  destruct mid as [|m mid].
  - exists (join sep (l1 ++ l2)), []. cbn [app join]. rewrite app_nil_r.
    reflexivity.
  - destruct l1 as [|a l1], l2 as [|b l2].
    + exists [], []. rewrite !app_nil_r. reflexivity.
    + exists [], (sep ++ join sep (b :: l2)). cbn [app].
      change (m :: mid ++ b :: l2) with ((m :: mid) ++ b :: l2).
      rewrite join_app by discriminate. reflexivity.
    + exists (join sep (a :: l1) ++ sep), []. rewrite !app_nil_r.
      rewrite join_app by discriminate. rewrite <- app_assoc. reflexivity.
    + exists (join sep (a :: l1) ++ sep), (sep ++ join sep (b :: l2)).
      rewrite join_app by discriminate.
      rewrite join_app by discriminate.
      rewrite <- !app_assoc. reflexivity.
Qed.

Lemma count1_skip (c : Z) (p s : str) :
  ~ In c p -> count (p ++ s) [c] = count s [c].
Proof.
  induction p as [|x p IH]; intros Hin; [reflexivity|]. cbn [app].
  rewrite count1_cons. destruct (Z.eqb_spec c x) as [->|_].
  - exfalso. apply Hin. left. reflexivity.
  - apply IH. intros Hp. apply Hin. right. exact Hp.
Qed.

Lemma slice_parts {A} (l : list A) (start stop : Z) :
  exists l1 l2, l = l1 ++ slice l start stop ++ l2.
Proof.
  unfold slice. cbv zeta.
  set (a := Z.to_nat (slice_index (Z.of_nat (length l)) start)).
  set (k := Z.to_nat _).
  exists (firstn a l), (skipn k (skipn a l)).
  rewrite (firstn_skipn k), (firstn_skipn a). reflexivity.
Qed.

Section EventIdText.
Context {U : UnicodeData} {E : Type} {EL : Element E}.

(** The identifier of a record is cut out of the link of its title: it is
    one contiguous part of the [href], it holds at most one slash, and for
    an [href] that ends in three parts [a/b/c] after a slash, it is [a/b];
    the last part [c], empty when the link ends in a slash, is dropped. *)
Theorem event_id_part_of_href (el : E) (d : str) (r : session) :
  parse_session el d = Ok r ->
  exists link rest href,
    cssselect el (lit ".event-title a") = Ok (link :: rest) /\
    attrib link (lit "href") = Some href /\
    event_url r = lit "https://ire.org" ++ href /\
    (exists pre post, href = pre ++ event_id r ++ post) /\
    (count (event_id r) (lit "/") <= 1)%nat /\
    (forall base a b c,
        href = base ++ lit "/" ++ a ++ lit "/" ++ b ++ lit "/" ++ c ->
        ~ In 47 a -> ~ In 47 b -> ~ In 47 c ->
        event_id r = a ++ lit "/" ++ b).
Proof.
  intros H. apply parse_session_Ok in H.
  destruct H as (s_time & ta & tb & link & links & href & q & raw
                 & _ & _ & _ & _ & Hlink
                 & Hhref & _ & _ & _ & _ & _ & Hid & Hurl).
  exists link, links, href.
  split; [exact Hlink|]. split; [exact Hhref|]. split; [exact Hurl|].
  rewrite Hid. change (lit "/") with [47].
  split; [|split].
  - destruct (slice_parts (split href [47]) (-3) (-1)) as (l1 & l2 & Hsegs).
    destruct (join_part [47] l1 (slice (split href [47]) (-3) (-1)) l2)
      as (pre & post & Hj).
    rewrite <- Hsegs, split1_join in Hj. eauto.
  - pose proof (split1_pieces 47 href) as Hp.
    destruct (slice_parts (split href [47]) (-3) (-1)) as (l1 & l2 & Hsegs).
    assert (Hmid : Forall (fun p => ~ In 47 p) (slice (split href [47]) (-3) (-1))).
    { rewrite Hsegs in Hp. apply Forall_app in Hp. destruct Hp as [_ Hp].
      apply Forall_app in Hp. tauto. }
    assert (Hlen : Nat.le (length (slice (split href [47]) (-3) (-1))) 2).
    { unfold slice, slice_index. cbv zeta. rewrite length_firstn.
      change (-3 <? 0) with true. change (-1 <? 0) with true. cbn iota. lia. }
    destruct (slice (split href [47]) (-3) (-1)) as [|x [|y [|z rest]]];
      cbn [length] in Hlen; try lia; cbn [join].
    + unfold count. cbn. lia.
    + inversion Hmid as [|? ? Hx _]; subst.
      apply count1_zero in Hx. rewrite Hx. lia.
    + inversion Hmid as [|? ? Hx Hmid']; subst.
      inversion Hmid' as [|? ? Hy _]; subst.
      rewrite (count1_skip 47 x) by exact Hx. cbn [app].
      rewrite count1_cons, Z.eqb_refl.
      apply count1_zero in Hy. rewrite Hy. lia.
  - intros base a b c -> Ha Hb Hc. change (lit "/") with [47]. cbn [app].
    rewrite split1_app_sep, (split1_app 47 a) by exact Ha.
    rewrite (split1_app 47 b) by exact Hb.
    rewrite (split1_none 47 c) by exact Hc.
    rewrite slice_last_three. reflexivity.
Qed.

End EventIdText.

(** ** [save_csv] *)

Lemma dict_to_list_items (r : session) :
  dict_to_list columns (items r) = inr (row_of r).
Proof. reflexivity. Qed.

Lemma data_rows_spec (sessions : list session) :
  data_rows sessions = inr (map row_of sessions).
Proof.
  induction sessions as [|r rest IH]; [reflexivity|].
  cbn [data_rows map]. rewrite dict_to_list_items, IH. reflexivity.
Qed.

(** The columns of [save_csv] and the keys of a record are the same eleven
    names: [DictWriter] never raises for an unknown key and never fills a
    column with its default.  The rows handed to the writer are the header
    and then, for each record in order, its eleven values in the order of
    the columns. *)
Theorem save_csv_rows_spec (sessions : list session) :
  save_csv_rows sessions = inr (map CStr columns :: map row_of sessions) /\
  (forall r, Permutation (map fst (items r)) columns) /\
  (forall r i key,
      nth_error columns i = Some key ->
      exists v, lookup key (items r) = Some v /\ nth_error (row_of r) i = Some v).
Proof.
  split; [|split].
  - unfold save_csv_rows. rewrite data_rows_spec. reflexivity.
  - intros r. cbn [items map fst]. unfold columns.
    apply NoDup_Permutation.
    + repeat (constructor; [cbn; intros Hin;
                            repeat (destruct Hin as [Hin|Hin]; [discriminate Hin|]);
                            exact Hin|]).
      constructor.
    + repeat (constructor; [cbn; intros Hin;
                            repeat (destruct Hin as [Hin|Hin]; [discriminate Hin|]);
                            exact Hin|]).
      constructor.
    + intros x. cbn [In]. tauto.
  - intros r i key Hi. unfold columns in Hi.
    destruct i as [|[|[|[|[|[|[|[|[|[|[|i]]]]]]]]]]]; cbn [nth_error] in Hi;
      try (destruct i; discriminate Hi);
      injection Hi as <-; eexists; split; reflexivity.
Qed.

(** ** The theorems at the pages of the examples *)

(** [parse_day] at a day whose second child is no session. *)
Lemma parse_day_all_or_nothing_witness :
  @parse_day ascii_digits node no_page
             (day_node [plain_session; broken_session]) (lit "2019-03-06")
  = Raise AttributeError.
Proof.
  apply (proj2 (@parse_day_all_or_nothing ascii_digits node no_page _ _)).
  exists [plain_session], broken_session, [].
  split; [reflexivity|]. split.
  - intros x [<-|[]]. eexists. vm_compute. reflexivity.
  - vm_compute. reflexivity.
Defined.

(** [get_sessions_complete] at the page with two days of two sessions. *)
Lemma get_sessions_complete_witness :
  exists out,
    @get_sessions ascii_digits node (one_page two_day_page) [] = Ok out /\
    length out = 4%nat.
Proof.
  destruct (@get_sessions ascii_digits node (one_page two_day_page) [])
    as [out|e] eqn:Hrun; [|vm_compute in Hrun; discriminate Hrun].
  exists out. split; [reflexivity|].
  destruct (@get_sessions_complete ascii_digits node (one_page two_day_page)
              [] out Hrun) as (html & dom & day_els & _ & Hdom & Hsel & _ & Hlen).
  injection Hdom as <-. vm_compute in Hsel. injection Hsel as <-. exact Hlen.
Defined.

(** [days_in_page_order] at the page with six day containers. *)
Lemma days_in_page_order_witness :
  exists out,
    @get_sessions ascii_digits node (one_page six_day_page) [] = Ok out /\
    forall r, In r out -> In (date r) DATES.
Proof.
  destruct (@get_sessions ascii_digits node (one_page six_day_page) [])
    as [out|e] eqn:Hrun; [|vm_compute in Hrun; discriminate Hrun].
  exists out. split; [reflexivity|].
  exact (proj1 (@days_in_page_order ascii_digits node (one_page six_day_page)
                  [] out Hrun)).
Defined.

(** [event_id_part_of_href] at the link [/events/conference/3433/4109/]. *)
Lemma event_id_part_of_href_witness :
  exists r,
    @parse_session ascii_digits node no_page plain_session (lit "2019-03-06") = Ok r /\
    event_id r = lit "3433/4109".
Proof.
  destruct (@parse_session ascii_digits node no_page plain_session (lit "2019-03-06"))
    as [r|e] eqn:Hrun; [|vm_compute in Hrun; discriminate Hrun].
  exists r. split; [reflexivity|].
  destruct (@event_id_part_of_href ascii_digits node no_page plain_session
              (lit "2019-03-06") r Hrun)
    as (link & rest & href & Hlink & Hhref & _ & _ & _ & Hlast).
  vm_compute in Hlink. injection Hlink as <- <-. injection Hhref as <-.
  apply (Hlast (lit "/events/conference") (lit "3433") (lit "4109") []).
  - reflexivity.
  - cbn. intros H. repeat (destruct H as [H|H]; [discriminate H|]). exact H.
  - cbn. intros H. repeat (destruct H as [H|H]; [discriminate H|]). exact H.
  - intros [].
Defined.

(** [extract_speakers_first_line] at a text with another label. *)
Lemma extract_speakers_first_line_witness :
  extract_speakers (lit "Panel: Ann") = None.
Proof. apply (proj2 extract_speakers_first_line). reflexivity. Defined.

(** [fix_encoding_bounds] at the bytes of [c] and of an accented [e]. *)
Lemma fix_encoding_bounds_witness :
  exists text,
    fix_encoding [0x63; 0xC3; 0xA9] = Ok text /\ (length text <= 3)%nat.
Proof.
  destruct (fix_encoding [0x63; 0xC3; 0xA9]) as [text|e] eqn:Hrun;
    [|vm_compute in Hrun; discriminate Hrun].
  exists text. split; [reflexivity|].
  exact (proj2 (fix_encoding_bounds [0x63; 0xC3; 0xA9]) text Hrun).
Defined.

(** [save_csv_rows_spec] at no records: the header alone. *)
Lemma save_csv_rows_spec_witness :
  save_csv_rows [] = inr [map CStr columns].
Proof. exact (proj1 (save_csv_rows_spec [])). Defined.

(** [get_sessions_comment_aborts] at a page whose only day holds a session
    and a comment. *)
Lemma get_sessions_comment_aborts_witness :
  exists e,
    @get_sessions ascii_digits node (one_page commented_page) [] = Raise e.
Proof.
  destruct (@get_sessions_comment_aborts ascii_digits node (one_page commented_page)
              [] [] commented_page [day_node [plain_session; Comment (lit " break ")]]
              0%nat (day_node [plain_session; Comment (lit " break ")])
              (Comment (lit " break ")))
    as (e & _ & Hrun); try reflexivity; [lia | right; left; reflexivity |].
  exists e. exact Hrun.
Defined.
